(** * Ominimo motor pricing: key model, rule generation, price repair, geo pricing

    A shallow embedding of the Python sources

      - [pricing_model.py]     (PriceKey, Constraint, price_key_rank)
      - [pricing_rules.py]     (build_constraints)
      - [pricing_validator.py] (round_to_step, apply_deductible_structure,
                                classify_constraint, validate_and_fix_prices)
      - [geo_pricing.py]       (round_to_step, compute_country_factors,
                                adjust_prices_for_country,
                                get_city_deductible_multiplier,
                                compute_city_factors, adjust_prices_for_city)

    Modelling choices.

      - A Python [float] is a primitive binary64 float ([PrimFloat]); its
        arithmetic and comparisons are the IEEE ones the interpreter uses.
      - A Python [int] is a [Z]; the quotient [a / b] of two of them is the
        float nearest to the exact quotient.
      - A Python [str] is a [string] whose characters are the code points
        below 256.
      - A Python [dict] is an insertion-ordered association list with
        unique keys; [d[k] = v] keeps the position of a key that is
        already there and appends a new one.
      - An argument that may be [None] is an [option].
      - A raised exception is the [Raise] branch of the [result] monad.
      - A log message is kept as the record of the values it is formatted
        from (the [:.2f] rendering of a float is not modelled).

    Outside the model: prices given as [int] (the table is taken after
    [float(value)]), characters above code point 255 (of which some count as
    digits or blanks for [int()]), the interpreter's configurable cap on
    the number of digits [int()] and [str()] convert, and the value of
    [x ** y] for an exponent other than one (the power function is a
    parameter of [compute_country_factors]). *)

From Stdlib Require Import ZArith List Bool Ascii String Lia Floats.
From Stdlib Require Import Sorted Permutation.
From Stdlib Require Import DecimalString DecimalPos.
Import ListNotations.

Set Warnings "-inexact-float".

Local Open Scope string_scope.
Local Open Scope Z_scope.

(** ** Exceptions and the error monad *)

Inductive exn : Type :=
| ValueError (msg : string)
| OverflowError (msg : string)
| KeyError (msg : string)
| ZeroDivisionError (msg : string).

Inductive result (A : Type) : Type :=
| Ok (a : A)
| Raise (e : exn).

Arguments Ok {A} a.
Arguments Raise {A} e.

Definition bind {A B : Type} (m : result A) (k : A -> result B) : result B :=
  match m with
  | Ok a => k a
  | Raise e => Raise e
  end.

Notation "x <- m ;; k" := (bind m (fun x => k))
  (at level 61, m at next level, right associativity).
Notation "' pat <- m ;; k" := (bind m (fun x => match x with pat => k end))
  (at level 61, pat pattern, m at next level, right associativity).

Definition is_ValueError (e : exn) : bool :=
  match e with ValueError _ => true | _ => false end.

(** A [for] loop whose body may raise: the state is threaded through the
    elements in order and the first exception ends the loop. *)
Fixpoint for_each {A S : Type} (body : S -> A -> result S) (xs : list A) (s : S)
  : result S :=
  match xs with
  | [] => Ok s
  | x :: xs' => s' <- body s x ;; for_each body xs' s'
  end.

(** A comprehension [[f x for x in xs]] whose element expression may raise. *)
Fixpoint map_result {A B : Type} (f : A -> result B) (xs : list A) : result (list B) :=
  match xs with
  | [] => Ok []
  | x :: xs' => y <- f x ;; ys <- map_result f xs' ;; Ok (y :: ys)
  end.

(** ** Dictionaries *)

Class Eqb (K : Type) : Type := {
  eqb : K -> K -> bool;
  eqb_spec : forall x y : K, reflect (x = y) (eqb x y)
}.

Section Dict.
Context {K V : Type} `{Eqb K}.

Definition dict : Type := list (K * V).

(** [d.get(k)] *)
Fixpoint dict_get (d : dict) (k : K) : option V :=
  match d with
  | [] => None
  | (k', v) :: d' => if eqb k' k then Some v else dict_get d' k
  end.

(** [k in d] *)
Definition dict_mem (d : dict) (k : K) : bool :=
  match dict_get d k with Some _ => true | None => false end.

(** [d[k]], a [KeyError] when the key is missing *)
Definition dict_item (d : dict) (k : K) : result V :=
  match dict_get d k with
  | Some v => Ok v
  | None => Raise (KeyError "key not found")
  end.

(** [d.get(k, default)] *)
Definition dict_get_default (d : dict) (k : K) (default : V) : V :=
  match dict_get d k with Some v => v | None => default end.

(** [d[k] = v] *)
Fixpoint dict_set (d : dict) (k : K) (v : V) : dict :=
  match d with
  | [] => [(k, v)]
  | (k', v') :: d' =>
      if eqb k' k then (k', v) :: d' else (k', v') :: dict_set d' k v
  end.

Definition dict_keys (d : dict) : list K := map fst d.

End Dict.

Arguments dict K V : clear implicits.

#[export] Instance Eqb_string : Eqb string :=
  {| eqb := String.eqb; eqb_spec := String.eqb_spec |}.

#[export] Instance Eqb_Z : Eqb Z :=
  {| eqb := Z.eqb; eqb_spec := Z.eqb_spec |}.

Definition option_eqb {A : Type} (f : A -> A -> bool) (x y : option A) : bool :=
  match x, y with
  | Some a, Some b => f a b
  | None, None => true
  | _, _ => false
  end.

Lemma option_eqb_spec {A : Type} (f : A -> A -> bool)
  (f_spec : forall a b, reflect (a = b) (f a b)) (x y : option A) :
  reflect (x = y) (option_eqb f x y).
Proof.
  destruct x as [a|], y as [b|]; simpl; try (constructor; congruence).
  destruct (f_spec a b); constructor; congruence.
Qed.

#[export] Instance Eqb_option {A : Type} `{Eqb A} : Eqb (option A) :=
  {| eqb := option_eqb eqb; eqb_spec := option_eqb_spec eqb eqb_spec |}.

(** ** Strings and integers as Python reads and writes them *)

Module pystr.

Definition underscore : ascii := "_"%char.

(** [s.startswith(p)] *)
Definition startswith (s p : string) : bool := String.prefix p s.

(** [s.split("_", maxsplit=n)] *)
Fixpoint split (maxsplit : nat) (s : string) {struct s} : list string :=
  match maxsplit with
  | O => [s]
  | S n =>
      match s with
      | EmptyString => [EmptyString]
      | String c rest =>
          if Ascii.eqb c underscore then EmptyString :: split n rest
          else match split maxsplit rest with
               | piece :: pieces => String c piece :: pieces
               | [] => [String c EmptyString]
               end
      end
  end.

(** [needle in s] *)
Fixpoint contains (s needle : string) : bool :=
  String.prefix needle s ||
  match s with
  | EmptyString => false
  | String _ rest => contains rest needle
  end.

(** [c.lower()] on the characters a rule description is made of
    (the ASCII letters). *)
Definition lower_char (c : ascii) : ascii :=
  let n := nat_of_ascii c in
  if ((65 <=? n) && (n <=? 90))%nat then ascii_of_nat (n + 32) else c.

Fixpoint lower (s : string) : string :=
  match s with
  | EmptyString => EmptyString
  | String c rest => String (lower_char c) (lower rest)
  end.

(** Whitespace as [int()] skips it: the C-locale blanks and, of the code
    points from 128 to 255, NEL and the no-break space. *)
Definition is_space (c : ascii) : bool :=
  let n := nat_of_ascii c in
  (((9 <=? n) && (n <=? 13)) || (n =? 32) || (n =? 133) || (n =? 160))%nat.

Definition is_digit (c : ascii) : bool :=
  let n := nat_of_ascii c in ((48 <=? n) && (n <=? 57))%nat.

Definition digit_value (c : ascii) : Z := Z.of_nat (nat_of_ascii c) - 48.

Fixpoint skip_space (s : string) : string :=
  match s with
  | String c rest => if is_space c then skip_space rest else s
  | EmptyString => EmptyString
  end.

(** The digit scan of [int()]: digits, with single underscores between
    them; returns the value and what follows the digits. *)
Fixpoint scan_digits (s : string) (acc : Z) (prev_underscore : bool)
  : option (Z * string) :=
  match s with
  | EmptyString => if prev_underscore then None else Some (acc, EmptyString)
  | String c rest =>
      if is_digit c then scan_digits rest (10 * acc + digit_value c) false
      else if Ascii.eqb c underscore then
        if prev_underscore then None else scan_digits rest acc true
      else if prev_underscore then None else Some (acc, s)
  end.

Definition invalid_literal : exn := ValueError "invalid literal for int() with base 10".

(** What follows the sign: a digit first, the digit scan, then blanks to
    the end. *)
Definition int_unsigned (negative : bool) (s : string) : result Z :=
  match s with
  | String c _ =>
      if is_digit c then
        match scan_digits s 0 false with
        | Some (n, rest) =>
            match skip_space rest with
            | EmptyString => Ok (if negative then - n else n)
            | String _ _ => Raise invalid_literal
            end
        | None => Raise invalid_literal
        end
      else Raise invalid_literal
  | EmptyString => Raise invalid_literal
  end.

(** [int(s)]: blanks, an optional sign, the digits, blanks. *)
Definition int (s : string) : result Z :=
  match skip_space s with
  | String c rest =>
      if Ascii.eqb c "+" then int_unsigned false rest
      else if Ascii.eqb c "-" then int_unsigned true rest
      else int_unsigned false (String c rest)
  | EmptyString => Raise invalid_literal
  end.

(** [str(n)], also what [f"{n}"] writes. *)
Definition of_int (n : Z) : string :=
  match n with
  | Z0 => "0"
  | Zpos p => NilZero.string_of_uint (Pos.to_uint p)
  | Zneg p => String "-"%char (NilZero.string_of_uint (Pos.to_uint p))
  end.

(** [s.split("_")], with no bound on the number of cuts *)
Fixpoint split_all (s : string) : list string :=
  match s with
  | EmptyString => [EmptyString]
  | String c rest =>
      if Ascii.eqb c underscore then EmptyString :: split_all rest
      else match split_all rest with
           | piece :: pieces => String c piece :: pieces
           | [] => [String c EmptyString]
           end
  end.

End pystr.

(** ** pricing_model.py *)

Module pricing_model.

(** [@dataclass(frozen=True) class PriceKey]: compared and hashed by value. *)
Record PriceKey : Type := mkPriceKey {
  product : string;
  variant : option string;
  deductible : option Z
}.

Definition PriceKey_eqb (a b : PriceKey) : bool :=
  String.eqb (product a) (product b)
  && option_eqb String.eqb (variant a) (variant b)
  && option_eqb Z.eqb (deductible a) (deductible b).

Lemma PriceKey_eqb_spec (a b : PriceKey) : reflect (a = b) (PriceKey_eqb a b).
Proof.
  destruct a as [p v d], b as [p' v' d']; unfold PriceKey_eqb; simpl.
  destruct (String.eqb_spec p p'); simpl; [|constructor; congruence].
  destruct (option_eqb_spec _ String.eqb_spec v v'); simpl;
    [|constructor; congruence].
  destruct (option_eqb_spec _ Z.eqb_spec d d'); simpl; constructor; congruence.
Qed.

#[export] Instance Eqb_PriceKey : Eqb PriceKey :=
  {| eqb := PriceKey_eqb; eqb_spec := PriceKey_eqb_spec |}.

(** [PriceKey.from_str] *)
Definition from_str (raw_key : string) : result PriceKey :=
  if String.eqb raw_key "mtpl" then Ok (mkPriceKey "mtpl" None None)
  else if pystr.startswith raw_key "limited_casco_" then
    match pystr.split 3 raw_key with
    | [_; _; variant; deductible_str] =>
        match pystr.int deductible_str with
        | Ok n => Ok (mkPriceKey "limited_casco" (Some variant) (Some n))
        | Raise _ => Raise (ValueError "Unsupported limited_casco key format")
        end
    | _ => Raise (ValueError "Unsupported limited_casco key format")
    end
  else if pystr.startswith raw_key "casco_" then
    match pystr.split 2 raw_key with
    | [_; variant; deductible_str] =>
        match pystr.int deductible_str with
        | Ok n => Ok (mkPriceKey "casco" (Some variant) (Some n))
        | Raise _ => Raise (ValueError "Unsupported casco key format")
        end
    | _ => Raise (ValueError "Unsupported casco key format")
    end
  else Raise (ValueError "Unsupported key format").

(** [PriceKey.to_str] *)
Definition to_str (self : PriceKey) : result string :=
  if String.eqb (product self) "mtpl" then Ok "mtpl"
  else
    match variant self, deductible self with
    | Some v, Some d => Ok (product self ++ "_" ++ v ++ "_" ++ pystr.of_int d)
    | _, _ => Raise (ValueError "Incomplete key cannot be serialized")
    end.

(** [class Constraint(NamedTuple)]: [prices[left] < prices[right]] *)
Record Constraint : Type := mkConstraint {
  left : PriceKey;
  right : PriceKey;
  description : string
}.

Definition PRODUCT_RANK : dict string Z :=
  [("mtpl", 0); ("limited_casco", 1); ("casco", 2)].

Definition VARIANT_RANK : dict (option string) Z :=
  [(None, 0); (Some "compact", 1); (Some "basic", 1); (Some "comfort", 2);
   (Some "premium", 3)].

Definition DEDUCTIBLE_RANK : dict (option Z) Z :=
  [(None, 0); (Some 500, 1); (Some 200, 2); (Some 100, 3)].

(** [price_key_rank] *)
Definition price_key_rank (key : PriceKey) : result Z :=
  p <- dict_item PRODUCT_RANK (product key) ;;
  Ok (p * 100
      + dict_get_default VARIANT_RANK (variant key) 0 * 10
      + dict_get_default DEDUCTIBLE_RANK (deductible key) 0).

End pricing_model.

(** ** Floats and their conversions to and from integers *)

Module pyfloat.

Local Open Scope float_scope.

(** The integer nearest to [m * 2^e], a tie going to the even one. *)
Definition nearest_even (m : positive) (e : Z) : Z :=
  if (0 <=? e)%Z then (Zpos m * 2 ^ e)%Z
  else
    let d := (2 ^ (- e))%Z in
    let q := (Zpos m / d)%Z in
    let r := (Zpos m mod d)%Z in
    match (2 * r ?= d)%Z with
    | Lt => q
    | Gt => (q + 1)%Z
    | Eq => if Z.even q then q else (q + 1)%Z
    end.

(** [round(x)] with one argument: the nearest [int], half to even. *)
Definition round (x : float) : result Z :=
  match Prim2SF x with
  | S754_nan => Raise (ValueError "cannot convert float NaN to integer")
  | S754_infinity _ => Raise (OverflowError "cannot convert float infinity to integer")
  | S754_zero _ => Ok 0%Z
  | S754_finite s m e =>
      let n := nearest_even m e in Ok (if s then (- n)%Z else n)
  end.

(** [math.floor(x)] *)
Definition floor (x : float) : result Z :=
  match Prim2SF x with
  | S754_nan => Raise (ValueError "cannot convert float NaN to integer")
  | S754_infinity _ => Raise (OverflowError "cannot convert float infinity to integer")
  | S754_zero _ => Ok 0%Z
  | S754_finite s m e =>
      let n := (if s then Zneg m else Zpos m) in
      if (0 <=? e)%Z then Ok (n * 2 ^ e)%Z else Ok (n / 2 ^ (- e))%Z
  end.

(** [float(n)], also the conversion of the [int] operand of a mixed
    [float]/[int] operation: correctly rounded, an error past the
    largest float. *)
Definition of_int (n : Z) : result float :=
  let f := SF2Prim (binary_normalize prec emax n 0 false) in
  if is_infinity f then Raise (OverflowError "int too large to convert to float")
  else Ok f.

(** [x / y] *)
Definition div (x y : float) : result float :=
  if is_zero y then Raise (ZeroDivisionError "float division by zero")
  else Ok (x / y).

(** [a / b] on two [int]s: the quotient rounded once to the nearest float,
    a tie going to the even one; the sign of a zero quotient is the sign
    of the divisor.  The quotient is cut with more than 64 bits and one
    sticky bit for what is left, which rounds as the exact quotient. *)
Definition truediv (a b : Z) : result float :=
  if (b =? 0)%Z then Raise (ZeroDivisionError "division by zero")
  else
    let negate := xorb (a <? 0)%Z (b <? 0)%Z in
    if (a =? 0)%Z then Ok (if negate then -0 else 0)
    else
      let k := (Z.log2 (Z.abs b) + 64)%Z in
      let n := (Z.abs a * 2 ^ k)%Z in
      let q := (n / Z.abs b)%Z in
      let sticky := if (n mod Z.abs b =? 0)%Z then 0%Z else 1%Z in
      let m := (2 * q + sticky)%Z in
      let f :=
        SF2Prim (binary_normalize prec emax (if negate then (- m)%Z else m)
                   (- k - 1) false) in
      if is_infinity f then
        Raise (OverflowError "integer division result too large for a float")
      else Ok f.

(** [min(a, b)] and [max(a, b)] on floats: the first argument is kept
    unless the second is strictly smaller, respectively greater. *)
Definition min (a b : float) : float := if b <? a then b else a.
Definition max (a b : float) : float := if a <? b then b else a.

(** [min(xs)] and [max(xs)] on a list of [int]s *)
Definition min_int (xs : list Z) : result Z :=
  match xs with
  | [] => Raise (ValueError "min() arg is an empty sequence")
  | x :: xs' => Ok (fold_left Z.min xs' x)
  end.

Definition max_int (xs : list Z) : result Z :=
  match xs with
  | [] => Raise (ValueError "max() arg is an empty sequence")
  | x :: xs' => Ok (fold_left Z.max xs' x)
  end.

End pyfloat.

Import pricing_model.

(** ** pricing_rules.py *)

Module pricing_rules.

Local Open Scope list_scope.

Definition PRODUCTS_WITH_VARIANTS : list string := ["limited_casco"; "casco"].
Definition VARIANTS : list string := ["compact"; "basic"; "comfort"; "premium"].
Definition DEDUCTIBLES : list Z := [100; 200; 500].

(** [Dict[PriceKey, float]] *)
Definition price_table := dict PriceKey float.

(** [_add_product_level_constraints]: the list is extended in place, so
    the function maps the list before to the list after. *)
Definition _add_product_level_constraints
  (prices_by_key : price_table) (constraints : list Constraint) : list Constraint :=
  let mtpl_key := mkPriceKey "mtpl" None None in
  let constraints :=
    if dict_mem prices_by_key mtpl_key then
      fold_left
        (fun cs key =>
           if String.eqb (product key) "limited_casco" then
             cs ++ [mkConstraint mtpl_key key
                      "MTPL must be cheaper than Limited Casco"]
           else cs)
        (dict_keys prices_by_key) constraints
    else constraints in
  fold_left
    (fun cs key =>
       if negb (String.eqb (product key) "limited_casco") then cs
       else
         let casco_key := mkPriceKey "casco" (variant key) (deductible key) in
         if dict_mem prices_by_key casco_key then
           cs ++ [mkConstraint key casco_key
                    ("Casco must be more expensive than Limited Casco "
                     ++ "for the same variant and deductible")%string]
         else cs)
    (dict_keys prices_by_key) constraints.

(** The three checks of one (product, deductible) slice. *)
Definition variant_slice (prices_by_key : price_table) (product : string)
  (constraints : list Constraint) (deductible : Z) : list Constraint :=
  let pk_compact := mkPriceKey product (Some "compact") (Some deductible) in
  let pk_basic := mkPriceKey product (Some "basic") (Some deductible) in
  let pk_comfort := mkPriceKey product (Some "comfort") (Some deductible) in
  let pk_premium := mkPriceKey product (Some "premium") (Some deductible) in
  let suffix :=
    ("for " ++ product ++ " with deductible " ++ pystr.of_int deductible)%string in
  let constraints :=
    if dict_mem prices_by_key pk_compact && dict_mem prices_by_key pk_comfort then
      constraints ++ [mkConstraint pk_compact pk_comfort
                        ("Comfort must be more expensive than Compact " ++ suffix)%string]
    else constraints in
  let constraints :=
    if dict_mem prices_by_key pk_basic && dict_mem prices_by_key pk_comfort then
      constraints ++ [mkConstraint pk_basic pk_comfort
                        ("Comfort must be more expensive than Basic " ++ suffix)%string]
    else constraints in
  if dict_mem prices_by_key pk_comfort && dict_mem prices_by_key pk_premium then
    constraints ++ [mkConstraint pk_comfort pk_premium
                      ("Premium must be more expensive than Comfort " ++ suffix)%string]
  else constraints.

(** [_add_variant_level_constraints] *)
Definition _add_variant_level_constraints
  (prices_by_key : price_table) (constraints : list Constraint) : list Constraint :=
  fold_left
    (fun cs product => fold_left (variant_slice prices_by_key product) DEDUCTIBLES cs)
    PRODUCTS_WITH_VARIANTS constraints.

(** [build_constraints] *)
Definition build_constraints (prices_by_key : price_table) : list Constraint :=
  let constraints := [] in
  let constraints := _add_product_level_constraints prices_by_key constraints in
  let constraints := _add_variant_level_constraints prices_by_key constraints in
  constraints.

End pricing_rules.

(** ** pricing_validator.py *)

Module pricing_validator.

Import pricing_rules.
Local Open Scope list_scope.
Local Open Scope float_scope.

Definition PRODUCT_MARGIN : float := 0.10.
Definition VARIANT_MARGIN : float := 0.05.
Definition PRICE_ROUNDING_STEP : float := 10.0.

Definition DEDUCTIBLE_DISCOUNTS : dict Z float :=
  [(100%Z, 1.00); (200%Z, 0.90); (500%Z, 0.80)].

Inductive ConstraintKind : Type := kind_product | kind_variant.

(** [round_to_step]: [step * round(value / step)] *)
Definition round_to_step (value : float) (step : float) : result float :=
  q <- pyfloat.div value step ;;
  n <- pyfloat.round q ;;
  f <- pyfloat.of_int n ;;
  Ok (step * f).

(** A log message, as the values it is formatted from. *)
Inductive issue : Type :=
| Aligned (key : string) (old_price new_price : float)
          (base_key : string) (base_price : float)
| Adjusted (right_key : string) (right_price new_price : float)
           (description : string) (margin : float)
           (left_key : string) (left_price : float).

(** The key a message reports as changed. *)
Definition changed_key (i : issue) : string :=
  match i with
  | Aligned key _ _ _ _ => key
  | Adjusted right_key _ _ _ _ _ _ => right_key
  end.

(** The body of the innermost loop of [apply_deductible_structure]. *)
Definition align_deductible (product variant : string) (base_key : PriceKey)
  (base_price : float) (st : price_table * list issue) (deductible : Z)
  : result (price_table * list issue) :=
  let '(prices, change_log) := st in
  let key := mkPriceKey product (Some variant) (Some deductible) in
  if negb (dict_mem prices key) then Ok st
  else
    factor <- dict_item DEDUCTIBLE_DISCOUNTS deductible ;;
    old_price <- dict_item prices key ;;
    new_price <- round_to_step (base_price * factor) PRICE_ROUNDING_STEP ;;
    if 1e-6 <? abs (new_price - old_price) then
      key_str <- to_str key ;;
      base_str <- to_str base_key ;;
      Ok (dict_set prices key new_price,
          change_log ++ [Aligned key_str old_price new_price base_str base_price])
    else Ok st.

(** The body of the loop over the variants of one product. *)
Definition align_variant (product : string) (st : price_table * list issue)
  (variant : string) : result (price_table * list issue) :=
  let base_key := mkPriceKey product (Some variant) (Some 100%Z) in
  if negb (dict_mem (fst st) base_key) then Ok st
  else
    base_price <- dict_item (fst st) base_key ;;
    for_each (align_deductible product variant base_key base_price)
      [100%Z; 200%Z; 500%Z] st.

(** [apply_deductible_structure]: the dictionary after the in-place
    updates, and the returned change log. *)
Definition apply_deductible_structure (prices : price_table)
  : result (price_table * list issue) :=
  let change_log := [] in
  let products_with_variants := ["limited_casco"; "casco"]%string in
  let variants := ["compact"; "basic"; "comfort"; "premium"]%string in
  for_each
    (fun st product => for_each (align_variant product) variants st)
    products_with_variants (prices, change_log).

(** [classify_constraint] *)
Definition classify_constraint (description : string) : ConstraintKind :=
  let desc := pystr.lower description in
  if pystr.contains desc "mtpl must be cheaper"
     || pystr.contains desc "casco must be more expensive than limited casco"
  then kind_product
  else kind_variant.

(** Stable insertion by key: [x] goes before the first element whose key
    is not smaller. *)
Fixpoint insert_by_key {A : Type} (x : Z * A) (l : list (Z * A)) : list (Z * A) :=
  match l with
  | [] => [x]
  | y :: l' =>
      if (fst x <=? fst y)%Z then x :: y :: l' else y :: insert_by_key x l'
  end.

(** [sorted(xs, key=key)]: the keys are computed first, the sort is stable. *)
Definition sorted {A : Type} (key : A -> result Z) (xs : list A) : result (list A) :=
  keys <- map_result key xs ;;
  Ok (map snd (fold_right insert_by_key [] (combine keys xs))).

(** The body of the repair loop. *)
Definition repair_step (st : price_table * list issue) (c : Constraint)
  : result (price_table * list issue) :=
  let '(prices_by_key, issues) := st in
  let left_key := left c in
  let right_key := right c in
  left_price <- dict_item prices_by_key left_key ;;
  right_price <- dict_item prices_by_key right_key ;;
  let kind := classify_constraint (description c) in
  let margin :=
    match kind with kind_product => PRODUCT_MARGIN | kind_variant => VARIANT_MARGIN end in
  let required_min_price := left_price * (1.0 + margin) in
  if right_price <? required_min_price - 1e-6 then
    new_price <- round_to_step required_min_price PRICE_ROUNDING_STEP ;;
    right_str <- to_str right_key ;;
    left_str <- to_str left_key ;;
    Ok (dict_set prices_by_key right_key new_price,
        issues ++ [Adjusted right_str right_price new_price (description c)
                     margin left_str left_price])
  else Ok st.

(** Step 1: [{PriceKey.from_str(key): float(value) for key, value in raw_prices.items()}] *)
Definition parse_prices (raw_prices : dict string float) : result price_table :=
  for_each
    (fun d kv => key <- from_str (fst kv) ;; Ok (dict_set d key (snd kv)))
    raw_prices [].

(** Step 5: [{key.to_str(): value for key, value in prices_by_key.items()}] *)
Definition serialize_prices (prices_by_key : price_table) : result (dict string float) :=
  for_each
    (fun d kv => key <- to_str (fst kv) ;; Ok (dict_set d key (snd kv)))
    prices_by_key [].

(** Step 4 on its own: the constraints are sorted by the rank of their
    left key and walked once. *)
Definition repair (prices_by_key : price_table) (issues : list issue)
  : result (price_table * list issue) :=
  let constraints := build_constraints prices_by_key in
  constraints_sorted <- sorted (fun c => price_key_rank (left c)) constraints ;;
  for_each repair_step constraints_sorted (prices_by_key, issues).

(** [validate_and_fix_prices] *)
Definition validate_and_fix_prices (raw_prices : dict string float)
  : result (dict string float * list issue) :=
  prices_by_key <- parse_prices raw_prices ;;
  let issues := [] in
  '(prices_by_key, deductible_issues) <- apply_deductible_structure prices_by_key ;;
  let issues := issues ++ deductible_issues in
  '(prices_by_key, issues) <- repair prices_by_key issues ;;
  fixed_prices <- serialize_prices prices_by_key ;;
  Ok (fixed_prices, issues).

End pricing_validator.

(** ** geo_pricing.py (country level) *)

Module geo_pricing.

Local Open Scope list_scope.
Local Open Scope float_scope.

Definition AVERAGE_NET_WAGE_EUR : dict string float :=
  [("RS", 930.0); ("HU", 1113.0); ("ES", 2000.0)].

(** [round_to_step]: nearest multiple of [step], a tie going up. *)
Definition round_to_step (value : float) (step : float) : result float :=
  quotient <- pyfloat.div value step ;;
  lower <- pyfloat.floor quotient ;;
  lower_f <- pyfloat.of_int lower ;;
  let frac := quotient - lower_f in
  if frac <? 0.5 then Ok (lower_f * step)
  else
    upper_f <- pyfloat.of_int (lower + 1)%Z ;;
    Ok (upper_f * step).

Section CountryFactors.

(** [x ** y] on floats is the C library's [pow]; the development
    assumes of it only what [PowOne] states. *)
Variable float_pow : float -> float -> result float.

(** [compute_country_factors] *)
Definition compute_country_factors (average_net_wage_eur : dict string float)
  (reference_country : string) (alpha : float) : result (dict string float) :=
  reference_wage <- dict_item average_net_wage_eur reference_country ;;
  for_each
    (fun factors kv =>
       let '(country_code, wage) := kv in
       relativity <- pyfloat.div wage reference_wage ;;
       factor <- float_pow relativity alpha ;;
       Ok (dict_set factors country_code factor))
    average_net_wage_eur [].

End CountryFactors.

(** [adjust_prices_for_country] *)
Definition adjust_prices_for_country (base_prices : dict string float)
  (country_code : string) (country_factors : dict string float)
  : result (dict string float) :=
  let factor := dict_get_default country_factors country_code 1.0 in
  for_each
    (fun adjusted kv =>
       let '(key, price) := kv in
       new_price <- round_to_step (price * factor) 5.0 ;;
       Ok (dict_set adjusted key new_price))
    base_prices [].

(** ** geo_pricing.py (city level) *)

Definition CITY_POP_RS : dict string Z :=
  [("Beograd", 1685563%Z); ("Novi Sad", 368967%Z)].

Definition CITY_ACCIDENTS_RS_2020 : dict string Z :=
  [("Beograd", 9061%Z); ("Novi Sad", 1316%Z)].

Definition SERBIA_POP_2022 : Z := 6664449.
Definition SERBIA_ACCIDENTS_2020 : Z := 19481.

Definition BASE_DEDUCTIBLE_FACTORS : dict Z float :=
  [(100%Z, 1.00); (200%Z, 0.90); (500%Z, 0.80)].

Definition CITY_DEDUCTIBLE_FACTORS_RS : dict string (dict Z float) :=
  [("Beograd", [(100%Z, 1.00); (200%Z, 0.88); (500%Z, 0.76)]);
   ("Novi Sad", [(100%Z, 1.00); (200%Z, 0.9133); (500%Z, 0.8266)])].

(** [get_city_deductible_multiplier]; [not city_factors] holds of a
    missing entry and of an empty one. *)
Definition get_city_deductible_multiplier (city_name : string) (deductible : Z)
  : result float :=
  match dict_get CITY_DEDUCTIBLE_FACTORS_RS city_name with
  | None | Some [] => Ok 1.0
  | Some city_factors =>
      let base_factor := dict_get_default BASE_DEDUCTIBLE_FACTORS deductible 1.0 in
      let city_factor := dict_get_default city_factors deductible base_factor in
      if base_factor =? 0.0 then Ok 1.0
      else pyfloat.div city_factor base_factor
  end.

(** [{city: 1.0 for city in city_populations}] *)
Definition neutral_factors (city_populations : dict string Z) : dict string float :=
  fold_left (fun factors kv => dict_set factors (fst kv) 1.0) city_populations [].

(** The first loop of the branch with accident data: the rates and the
    local totals. *)
Definition city_rate (city_accidents : dict string Z)
  (st : dict string float * Z * Z) (kv : string * Z)
  : result (dict string float * Z * Z) :=
  let '(rates, total_pop_local, total_acc_local) := st in
  let '(city, pop) := kv in
  let accidents := dict_get_default city_accidents city 0%Z in
  if (0 <? pop)%Z && (0 <? accidents)%Z then
    rate <- pyfloat.truediv accidents pop ;;
    Ok (dict_set rates city rate,
        (total_pop_local + pop)%Z, (total_acc_local + accidents)%Z)
  else Ok (dict_set rates city 0.0, total_pop_local, total_acc_local).

(** The last loop: from a rate to a clamped price factor. *)
Definition city_factor (min_factor max_factor gamma avg_rate : float)
  (factors : dict string float) (kv : string * float)
  : result (dict string float) :=
  let '(city, rate) := kv in
  raw_risk <- (if rate =? 0.0 then Ok 1.0 else pyfloat.div rate avg_rate) ;;
  let price_factor := 1.0 + gamma * (raw_risk - 1.0) in
  let clamped := pyfloat.max min_factor (pyfloat.min max_factor price_factor) in
  Ok (dict_set factors city clamped).

(** [compute_city_factors]; an argument that defaults to [None] is an
    [option], and [not city_accidents] holds of [None] and of the empty
    dictionary. *)
Definition compute_city_factors (city_populations : dict string Z)
  (city_accidents : option (dict string Z))
  (min_factor max_factor gamma : float)
  (national_total_population national_total_accidents : option Z)
  : result (dict string float) :=
  match city_accidents with
  | None | Some [] =>
      let populations := map snd city_populations in
      pop_min <- pyfloat.min_int populations ;;
      pop_max <- pyfloat.max_int populations ;;
      let pop_range := (pop_max - pop_min)%Z in
      if (pop_range =? 0)%Z then Ok (neutral_factors city_populations)
      else
        for_each
          (fun factors kv =>
             let '(city, pop) := kv in
             fraction <- pyfloat.truediv (pop - pop_min)%Z pop_range ;;
             let factor := min_factor + fraction * (max_factor - min_factor) in
             Ok (dict_set factors city factor))
          city_populations []
  | Some city_accidents =>
      '(rates, total_pop_local, total_acc_local) <-
        for_each (city_rate city_accidents) city_populations ([], 0%Z, 0%Z) ;;
      match national_total_population, national_total_accidents with
      | Some population, Some accidents =>
          avg_rate <- pyfloat.truediv accidents population ;;
          for_each (city_factor min_factor max_factor gamma avg_rate) rates []
      | _, _ =>
          if (total_pop_local =? 0)%Z || (total_acc_local =? 0)%Z then
            Ok (neutral_factors city_populations)
          else
            avg_rate <- pyfloat.truediv total_acc_local total_pop_local ;;
            for_each (city_factor min_factor max_factor gamma avg_rate) rates []
      end
  end.

(** The deductible [adjust_prices_for_city] reads off a key: the last
    piece of the key, when [int] takes it and gives 100, 200 or 500. *)
Definition key_deductible (key : string) : result (option Z) :=
  let parts := pystr.split_all key in
  match pystr.int (last parts EmptyString) with
  | Ok maybe_deductible =>
      if (maybe_deductible =? 100)%Z || (maybe_deductible =? 200)%Z
         || (maybe_deductible =? 500)%Z
      then Ok (Some maybe_deductible)
      else Ok None
  | Raise e => if is_ValueError e then Ok None else Raise e
  end.

(** [adjust_prices_for_city] *)
Definition adjust_prices_for_city (country_prices : dict string float)
  (city_name : string) (city_factors : dict string float)
  : result (dict string float) :=
  let base_city_factor := dict_get_default city_factors city_name 1.0 in
  for_each
    (fun adjusted kv =>
       let '(key, base_price) := kv in
       let price := base_price * base_city_factor in
       deductible <- key_deductible key ;;
       price <- match deductible with
                | Some deductible =>
                    ded_mult <- get_city_deductible_multiplier city_name deductible ;;
                    Ok (price * ded_mult)
                | None => Ok price
                end ;;
       new_price <- round_to_step price 5.0 ;;
       Ok (dict_set adjusted key new_price))
    country_prices [].

End geo_pricing.

Import pricing_rules pricing_validator.

(** * Specification-side definitions *)

(** [s] holds the separator of the flat key format. *)
Fixpoint has_underscore (s : string) : bool :=
  match s with
  | EmptyString => false
  | String c rest => Ascii.eqb c pystr.underscore || has_underscore rest
  end.

(** The number a run of decimal digits denotes, read after [acc]. *)
Fixpoint uint_value (u : Decimal.uint) (acc : Z) : Z :=
  match u with
  | Decimal.Nil => acc
  | Decimal.D0 l => uint_value l (10 * acc + 0)
  | Decimal.D1 l => uint_value l (10 * acc + 1)
  | Decimal.D2 l => uint_value l (10 * acc + 2)
  | Decimal.D3 l => uint_value l (10 * acc + 3)
  | Decimal.D4 l => uint_value l (10 * acc + 4)
  | Decimal.D5 l => uint_value l (10 * acc + 5)
  | Decimal.D6 l => uint_value l (10 * acc + 6)
  | Decimal.D7 l => uint_value l (10 * acc + 7)
  | Decimal.D8 l => uint_value l (10 * acc + 8)
  | Decimal.D9 l => uint_value l (10 * acc + 9)
  end.

(** ** The keys [from_str] takes

    The predicates of this part describe the keys the code takes.  They
    are more than the three shapes the specification words, which come
    after them: the variant may be empty, and the deductible is any text
    [int()] takes. *)

(** A text [int()] takes: blanks, an optional sign, digits with single
    underscores allowed between them, blanks. *)
Fixpoint blanks (s : string) : bool :=
  match s with
  | EmptyString => true
  | String c rest => pystr.is_space c && blanks rest
  end.

Inductive digit_tail : string -> Prop :=
| tail_end : digit_tail EmptyString
| tail_digit c s :
    pystr.is_digit c = true -> digit_tail s -> digit_tail (String c s)
| tail_underscore c s :
    pystr.is_digit c = true -> digit_tail s ->
    digit_tail (String pystr.underscore (String c s)).

Definition digit_run (s : string) : Prop :=
  exists c tail, s = String c tail /\ pystr.is_digit c = true /\ digit_tail tail.

Definition int_literal (s : string) : Prop :=
  exists lead sign digits trail,
    s = (lead ++ sign ++ digits ++ trail)%string
    /\ blanks lead = true
    /\ (sign = EmptyString \/ sign = "+" \/ sign = "-")
    /\ digit_run digits
    /\ blanks trail = true.

(** Where the digit scan stops: at the end, or before a character that
    is neither a digit nor an underscore. *)
Definition scan_stop (rest : string) : Prop :=
  rest = EmptyString
  \/ exists c r, rest = String c r /\ pystr.is_digit c = false
                 /\ Ascii.eqb c pystr.underscore = false.

(** A key [from_str] cuts into a variant and a deductible after [prefix]:
    the variant is the text up to the next underscore (it may be empty),
    the deductible is whatever follows, and [int()] takes it. *)
Definition taken_segments (prefix raw : string) : Prop :=
  exists variant deductible_str,
    raw = (prefix ++ variant ++ "_" ++ deductible_str)%string
    /\ has_underscore variant = false
    /\ int_literal deductible_str.

(** The keys [from_str] takes: ["mtpl"], and the keys it cuts after
    ["limited_casco_"] or ["casco_"]. *)
Definition taken_shape (raw : string) : Prop :=
  raw = "mtpl" \/ taken_segments "limited_casco_" raw \/ taken_segments "casco_" raw.

(** The three ways a raw key is refused: its prefix is not recognized,
    nothing but one segment follows the prefix, or [int()] does not take
    what follows the variant. *)
Definition variant_prefix (prefix : string) : Prop :=
  prefix = "limited_casco_" \/ prefix = "casco_".

Definition refused_shape (raw : string) : Prop :=
  (raw <> "mtpl"
   /\ pystr.startswith raw "limited_casco_" = false
   /\ pystr.startswith raw "casco_" = false)
  \/ (exists prefix x,
        variant_prefix prefix /\ raw = (prefix ++ x)%string
        /\ has_underscore x = false)
  \/ (exists prefix variant deductible_str,
        variant_prefix prefix
        /\ raw = (prefix ++ variant ++ "_" ++ deductible_str)%string
        /\ has_underscore variant = false
        /\ ~ int_literal deductible_str).

(** ** The three shapes as the specification words them

    ["mtpl"], ["limited_casco_<variant>_<deductible>"] and
    ["casco_<variant>_<deductible>"], with a variant segment that is there
    (not empty, and one segment: no underscore in it) and a deductible
    that is an integer written out, nothing trimmed: an optional minus
    sign and decimal digits. *)
Fixpoint all_digits (s : string) : bool :=
  match s with
  | EmptyString => true
  | String c rest => pystr.is_digit c && all_digits rest
  end.

Definition written_integer (s : string) : Prop :=
  exists sign digits,
    s = (sign ++ digits)%string
    /\ (sign = EmptyString \/ sign = "-")
    /\ digits <> EmptyString
    /\ all_digits digits = true.

Definition worded_segments (prefix raw : string) : Prop :=
  exists variant deductible_str,
    raw = (prefix ++ variant ++ "_" ++ deductible_str)%string
    /\ variant <> EmptyString
    /\ has_underscore variant = false
    /\ written_integer deductible_str.

Definition worded_shape (raw : string) : Prop :=
  raw = "mtpl" \/ worded_segments "limited_casco_" raw
  \/ worded_segments "casco_" raw.

(** A structured key that some raw key parses to. *)
Definition producible (key : PriceKey) : Prop :=
  exists raw, from_str raw = Ok key.

(** The state of the pipeline: the price table and the messages so far. *)
Definition pipeline_state : Type := price_table * list issue.

(** What normalisation does to the state: the keys stay, messages are
    appended, and a key no new message is about keeps its price. *)
Definition aligns (st st' : pipeline_state) : Prop :=
  dict_keys (fst st') = dict_keys (fst st)
  /\ exists extra,
       snd st' = (snd st ++ extra)%list
       /\ forall key s,
            to_str key = Ok s -> ~ In s (map changed_key extra) ->
            dict_get (fst st') key = dict_get (fst st) key.

(** What the repair of constraints among [cs] does to the state: the keys
    stay, a key that is the right side of none of them keeps its price,
    and every new message is about the right side of one of them. *)
Definition repairs (cs : list Constraint) (st st' : pipeline_state) : Prop :=
  dict_keys (fst st') = dict_keys (fst st)
  /\ (forall key,
        (forall c, In c cs -> right c <> key) ->
        dict_get (fst st') key = dict_get (fst st) key)
  /\ exists extra,
       snd st' = (snd st ++ extra)%list
       /\ forall s, In s (map changed_key extra) ->
            exists c, In c cs /\ to_str (right c) = Ok s.

(** Both sides of a constraint are keys of the table. *)
Definition within (keys : list PriceKey) (c : Constraint) : Prop :=
  In (left c) keys /\ In (right c) keys.

(** The keys the rules speak of. *)
Definition mtpl_key : PriceKey := mkPriceKey "mtpl" None None.

Definition grid_key (product variant : string) (deductible : Z) : PriceKey :=
  mkPriceKey product (Some variant) (Some deductible).

Definition casco_twin (key : PriceKey) : PriceKey :=
  mkPriceKey "casco" (variant key) (deductible key).

Definition variant_steps : list (string * string * string) :=
  [("compact", "comfort", "Comfort must be more expensive than Compact ");
   ("basic", "comfort", "Comfort must be more expensive than Basic ");
   ("comfort", "premium", "Premium must be more expensive than Comfort ")].

(** The constraints the business rules ask for, given the keys present:
    MTPL below every Limited Casco key, a Limited Casco key below the Casco
    key of the same variant and deductible, and per product and deductible
    Compact and Basic below Comfort and Comfort below Premium. *)
Inductive generated (prices : price_table) : Constraint -> Prop :=
| generated_mtpl key :
    In mtpl_key (dict_keys prices) -> In key (dict_keys prices) ->
    product key = "limited_casco" ->
    generated prices
      (mkConstraint mtpl_key key "MTPL must be cheaper than Limited Casco")
| generated_casco key :
    In key (dict_keys prices) -> product key = "limited_casco" ->
    In (casco_twin key) (dict_keys prices) ->
    generated prices
      (mkConstraint key (casco_twin key)
         "Casco must be more expensive than Limited Casco for the same variant and deductible")
| generated_variant product deductible lower upper wording :
    In product PRODUCTS_WITH_VARIANTS -> In deductible DEDUCTIBLES ->
    In (lower, upper, wording) variant_steps ->
    In (grid_key product lower deductible) (dict_keys prices) ->
    In (grid_key product upper deductible) (dict_keys prices) ->
    generated prices
      (mkConstraint (grid_key product lower deductible)
         (grid_key product upper deductible)
         (wording ++ "for " ++ product ++ " with deductible "
          ++ pystr.of_int deductible)%string).

(** The constraints one (product, deductible) slice contributes. *)
Definition slice_constraints (prices : price_table) (product : string)
  (deductible : Z) : list Constraint :=
  flat_map
    (fun step : string * string * string =>
       let '(lower, upper, wording) := step in
       if dict_mem prices (grid_key product lower deductible)
          && dict_mem prices (grid_key product upper deductible)
       then [mkConstraint (grid_key product lower deductible)
               (grid_key product upper deductible)
               (wording ++ "for " ++ product ++ " with deductible "
                ++ pystr.of_int deductible)%string]
       else [])
    variant_steps.

(** The relative order of Compact and Basic is left open: no constraint
    has one of them on each side. *)
Definition relates_compact_and_basic (c : Constraint) : Prop :=
  (variant (left c) = Some "compact" /\ variant (right c) = Some "basic")
  \/ (variant (left c) = Some "basic" /\ variant (right c) = Some "compact").

(** The rank of the left key is below the rank of the right key. *)
Definition rank_increases (c : Constraint) : Prop :=
  exists rank_left rank_right,
    price_key_rank (left c) = Ok rank_left
    /\ price_key_rank (right c) = Ok rank_right
    /\ (rank_left < rank_right)%Z.

(** A stretch of the run that reports nothing changes nothing. *)
Definition quiet (st st' : pipeline_state) : Prop :=
  exists extra,
    snd st' = (snd st ++ extra)%list /\ (extra = [] -> fst st' = fst st).

(** The spelling [to_str] gives a key, and the key [from_str] reads from a
    spelling; the empty string and the MTPL key stand in where they fail. *)
Definition spelling (key : PriceKey) : string :=
  match to_str key with Ok s => s | Raise _ => EmptyString end.

Definition reading (raw : string) : PriceKey :=
  match from_str raw with Ok key => key | Raise _ => mtpl_key end.

(** A raw key is canonical when it is the spelling of what it parses to. *)
Definition canonical (raw : string) : Prop :=
  exists key, from_str raw = Ok key /\ to_str key = Ok raw.

(** A constraint between two products carries the product margin, one
    inside a product the variant margin. *)
Definition expected_kind (c : Constraint) : ConstraintKind :=
  if String.eqb (product (left c)) (product (right c)) then kind_variant
  else kind_product.

(** ** What normalisation, the messages and the errors are measured against *)

(** The price normalisation gives a key of a deductible ladder: the anchor
    price times the discount of the deductible, rounded to the grid, when
    that is further than the tolerance from the old price, and the old
    price otherwise. *)
Definition aligned_price (base_price old_price : float) (deductible : Z)
  : result float :=
  factor <- dict_item DEDUCTIBLE_DISCOUNTS deductible ;;
  new_price <- round_to_step (base_price * factor)%float PRICE_ROUNDING_STEP ;;
  Ok (if (1e-6 <? abs (new_price - old_price))%float then new_price else old_price).

(** A key normalisation may rewrite: the key of a product, a variant and
    a deductible it walks, whose 100 anchor is among [keys]. *)
Definition on_ladder (keys : list PriceKey) (key : PriceKey) : Prop :=
  exists product variant deductible,
    key = grid_key product variant deductible
    /\ In product PRODUCTS_WITH_VARIANTS
    /\ In variant VARIANTS
    /\ In deductible DEDUCTIBLES
    /\ In (grid_key product variant 100) keys.

(** The margin a rule is repaired with, by its description. *)
Definition margin_of (description : string) : float :=
  match classify_constraint description with
  | kind_product => PRODUCT_MARGIN
  | kind_variant => VARIANT_MARGIN
  end.

(** A message of normalisation that tells the truth: it names a ladder key
    and its anchor, the new price is the anchor price times the discount
    on the grid, and it is further than the tolerance from the old one. *)
Definition alignment (i : issue) : Prop :=
  exists product variant deductible factor old_price new_price base_price,
    In product PRODUCTS_WITH_VARIANTS
    /\ In variant VARIANTS
    /\ dict_get DEDUCTIBLE_DISCOUNTS deductible = Some factor
    /\ i = Aligned (spelling (grid_key product variant deductible))
             old_price new_price
             (spelling (grid_key product variant 100)) base_price
    /\ round_to_step (base_price * factor)%float PRICE_ROUNDING_STEP = Ok new_price
    /\ (1e-6 <? abs (new_price - old_price))%float = true.

(** A message of the repair pass that tells the truth: it names the two
    keys and the wording of a rule generated for the table, the margin of
    that rule, a right price below the required one, and as new price the
    required one on the grid. *)
Definition adjustment (prices : price_table) (i : issue) : Prop :=
  exists c left_price right_price new_price,
    generated prices c
    /\ i = Adjusted (spelling (right c)) right_price new_price (description c)
             (margin_of (description c)) (spelling (left c)) left_price
    /\ (right_price
        <? left_price * (1.0 + margin_of (description c)) - 1e-6)%float = true
    /\ round_to_step (left_price * (1.0 + margin_of (description c)))%float
         PRICE_ROUNDING_STEP = Ok new_price.

(** The two exceptions of a run: a [ValueError] (a key [from_str]
    refuses, a price that is not a number) and an [OverflowError] (a price
    that is infinite). *)
Definition value_or_overflow (e : exn) : bool :=
  match e with
  | ValueError _ | OverflowError _ => true
  | KeyError _ | ZeroDivisionError _ => false
  end.

(** The three ranks a key is ordered by, and their dictionary order. *)
Definition rank_parts (key : PriceKey) : result (Z * Z * Z) :=
  p <- dict_item PRODUCT_RANK (product key) ;;
  Ok (p, dict_get_default VARIANT_RANK (variant key) 0,
      dict_get_default DEDUCTIBLE_RANK (deductible key) 0).

Definition lex_lt (a b : Z * Z * Z) : Prop :=
  let '(p1, v1, d1) := a in
  let '(p2, v2, d2) := b in
  p1 < p2 \/ (p1 = p2 /\ (v1 < v2 \/ (v1 = v2 /\ d1 < d2))).

(** ** What the city adjustment is measured against *)

(** The deductible of a structured key that the city tables speak of. *)
Definition city_deductible (key : PriceKey) : option Z :=
  match deductible key with
  | Some d => if (d =? 100) || (d =? 200) || (d =? 500) then Some d else None
  | None => None
  end.

(** The city price of one entry, by its structured key: the country price
    times the city factor, times the deductible multiplier of the city
    when the key has a deductible of 100, 200 or 500, on the 5 EUR grid. *)
Definition city_price (city_name : string) (city_factors : dict string float)
  (key : PriceKey) (base_price : float) : result float :=
  let price := (base_price * dict_get_default city_factors city_name 1.0)%float in
  match city_deductible key with
  | Some d =>
      ded_mult <- geo_pricing.get_city_deductible_multiplier city_name d ;;
      geo_pricing.round_to_step (price * ded_mult)%float 5.0%float
  | None => geo_pricing.round_to_step price 5.0%float
  end.

(** A factor between the two bounds. *)
Definition clamped (min_factor max_factor factor : float) : Prop :=
  (min_factor <=? factor)%float = true /\ (factor <=? max_factor)%float = true.

(** The city price of one entry, by its raw key. *)
Definition city_entry (city_name : string) (city_factors : dict string float)
  (kv : string * float) : result float :=
  let price := (snd kv * dict_get_default city_factors city_name 1.0)%float in
  deductible <- geo_pricing.key_deductible (fst kv) ;;
  price <- match deductible with
           | Some deductible =>
               ded_mult <-
                 geo_pricing.get_city_deductible_multiplier city_name deductible ;;
               Ok (price * ded_mult)%float
           | None => Ok price
           end ;;
  geo_pricing.round_to_step price 5.0%float.

(** A price on the grid of [step]: the product of [step] and an integer. *)
Definition on_grid (step price : float) : Prop :=
  exists n f,
    pyfloat.of_int n = Ok f /\ (price = (step * f)%float \/ price = (f * step)%float).

(** * Properties of the key model *)

Section SplitFacts.

Lemma split_0 s : pystr.split 0 s = [s].
Proof. destruct s; reflexivity. Qed.

Lemma split_app a : forall m r,
  has_underscore a = false ->
  pystr.split (S m) (a ++ String "_" r) = a :: pystr.split m r.
Proof.
  induction a as [|c a IH]; intros m r Ha.
  - reflexivity.
  - simpl in Ha. apply orb_false_iff in Ha as [Hc Ha].
    cbn [append pystr.split]. rewrite Hc, IH by assumption. reflexivity.
Qed.

Lemma split_1_cases x :
  (has_underscore x = false /\ pystr.split 1 x = [x])
  \/ (exists v d, x = (v ++ String "_" d)%string
                 /\ has_underscore v = false
                 /\ pystr.split 1 x = [v; d]).
Proof.
  induction x as [|c x IH].
  - left. split; reflexivity.
  - cbn [pystr.split has_underscore].
    destruct (Ascii.eqb c pystr.underscore) eqn:Hc.
    + right. exists EmptyString, x. apply Ascii.eqb_eq in Hc. subst c.
      rewrite split_0. repeat split.
    + destruct IH as [[Hx Hs] | (v & d & Hx & Hv & Hs)].
      * left. rewrite Hs. split; [assumption | reflexivity].
      * right. exists (String c v), d. rewrite Hs. subst x.
        cbn [has_underscore]. rewrite Hc. repeat split. assumption.
Qed.

Lemma prefix_app p : forall s,
  String.prefix p s = true -> exists r, s = (p ++ r)%string.
Proof.
  induction p as [|a p IH]; intros s Hp.
  - exists s. reflexivity.
  - destruct s as [|b s]; [discriminate|]. simpl in Hp.
    destruct (ascii_dec a b) as [->|]; [|discriminate].
    destruct (IH _ Hp) as [r ->]. exists r. reflexivity.
Qed.

Lemma prefix_of_app p : forall r, String.prefix p (p ++ r) = true.
Proof.
  induction p as [|a p IH]; intros r; simpl.
  - destruct r; reflexivity.
  - destruct (ascii_dec a a); [apply IH | congruence].
Qed.

End SplitFacts.

Section IntFacts.

Lemma scan_digits_uint u : forall acc,
  pystr.scan_digits (NilEmpty.string_of_uint u) acc false
  = Some (uint_value u acc, EmptyString).
Proof.
  induction u; intros acc; cbn [NilEmpty.string_of_uint uint_value];
    [reflexivity | rewrite <- IHu; reflexivity ..].
Qed.

Lemma uint_value_pos u : forall p,
  uint_value u (Zpos p) = Zpos (Pos.of_uint_acc u p).
Proof.
  induction u; intros p; cbn [uint_value Pos.of_uint_acc];
    [reflexivity | rewrite <- IHu; f_equal; lia ..].
Qed.

Lemma uint_value_zero u : uint_value u 0 = Z.of_N (Pos.of_uint u).
Proof.
  induction u; cbn [uint_value Pos.of_uint]; try reflexivity;
    try assumption; apply (uint_value_pos u).
Qed.

Lemma digits_head u :
  u <> Decimal.Nil ->
  exists c r, NilEmpty.string_of_uint u = String c r
              /\ pystr.is_digit c = true
              /\ pystr.is_space c = false
              /\ Ascii.eqb c "+" = false
              /\ Ascii.eqb c "-" = false.
Proof.
  destruct u; intros Hu; [congruence | ..];
    eexists; eexists; repeat split.
Qed.

Lemma int_digits (negative : bool) p :
  pystr.int (if negative
             then String "-" (NilEmpty.string_of_uint (Pos.to_uint p))
             else NilEmpty.string_of_uint (Pos.to_uint p))
  = Ok (if negative then Zneg p else Zpos p).
Proof.
  destruct (digits_head (Pos.to_uint p) (Unsigned.to_uint_nonnil p))
    as (c & r & Hs & Hd & Hsp & Hplus & Hminus).
  assert (Hscan := scan_digits_uint (Pos.to_uint p) 0).
  rewrite uint_value_zero, Unsigned.of_to in Hscan. cbn [Z.of_N] in Hscan.
  assert (Hbody : forall negative,
             pystr.int_unsigned negative (NilEmpty.string_of_uint (Pos.to_uint p))
             = Ok (if negative then Zneg p else Zpos p)).
  { intros b. unfold pystr.int_unsigned. rewrite Hscan, Hs, Hd. destruct b; reflexivity. }
  unfold pystr.int. destruct negative.
  - cbn [pystr.skip_space]. change (pystr.is_space "-") with false. cbn iota.
    change (Ascii.eqb "-" "+") with false. change (Ascii.eqb "-" "-") with true.
    cbn iota. apply Hbody.
  - rewrite Hs. cbn [pystr.skip_space]. rewrite Hsp, Hplus, Hminus, <- Hs. apply Hbody.
Qed.

Lemma int_of_int n : pystr.int (pystr.of_int n) = Ok n.
Proof.
  destruct n as [|p|p]; [reflexivity | ..]; unfold pystr.of_int, NilZero.string_of_uint.
  - generalize (int_digits false p) (Unsigned.to_uint_nonnil p).
    destruct (Pos.to_uint p); intros H Hn; [congruence | exact H ..].
  - generalize (int_digits true p) (Unsigned.to_uint_nonnil p).
    destruct (Pos.to_uint p); intros H Hn; [congruence | exact H ..].
Qed.

Lemma digit_is_plain c :
  pystr.is_digit c = true ->
  pystr.is_space c = false /\ Ascii.eqb c "+" = false /\ Ascii.eqb c "-" = false
  /\ Ascii.eqb c pystr.underscore = false.
Proof.
  destruct c as [[] [] [] [] [] [] [] []]; intros Hd;
    first [discriminate Hd | repeat split].
Qed.

Lemma skip_space_blanks lead : forall x,
  blanks lead = true ->
  (x = EmptyString \/ exists c r, x = String c r /\ pystr.is_space c = false) ->
  pystr.skip_space (lead ++ x) = x.
Proof.
  induction lead as [|c lead IH]; intros x Hb Hx; cbn [append].
  - destruct Hx as [->|(c & r & -> & Hc)]; [reflexivity|].
    cbn [pystr.skip_space]. now rewrite Hc.
  - cbn [blanks] in Hb. apply andb_true_iff in Hb as [Hc Hb].
    cbn [pystr.skip_space]. rewrite Hc. auto.
Qed.

Lemma skip_space_split s :
  exists lead, s = (lead ++ pystr.skip_space s)%string /\ blanks lead = true.
Proof.
  induction s as [|c s (lead & Hs & Hb)]; [exists EmptyString; auto|].
  cbn [pystr.skip_space]. destruct (pystr.is_space c) eqn:Hc.
  - exists (String c lead). cbn [append blanks]. rewrite Hc, Hb. now rewrite <- Hs.
  - exists EmptyString. auto.
Qed.

Lemma skip_space_end s : pystr.skip_space s = EmptyString -> blanks s = true.
Proof.
  induction s as [|c s IH]; [reflexivity|]. cbn [pystr.skip_space blanks].
  destruct (pystr.is_space c); [auto | discriminate].
Qed.

Lemma blanks_skip_space s : blanks s = true -> pystr.skip_space s = EmptyString.
Proof.
  intros Hb. rewrite <- (skip_space_blanks s EmptyString Hb) by auto.
  f_equal. clear. induction s; cbn; congruence.
Qed.

Lemma scan_digits_tail t : digit_tail t -> forall acc rest,
  scan_stop rest ->
  exists n, pystr.scan_digits (t ++ rest) acc false = Some (n, rest).
Proof.
  induction 1 as [|c t Hc _ IH|c t Hc _ IH]; intros acc rest Hstop; cbn [append].
  - destruct Hstop as [->|(c & r & -> & Hd & Hu)]; cbn [pystr.scan_digits]; eauto.
    rewrite Hd, Hu. eauto.
  - cbn [pystr.scan_digits]. rewrite Hc. apply IH. assumption.
  - cbn [pystr.scan_digits]. change (pystr.is_digit pystr.underscore) with false.
    cbn iota. change (Ascii.eqb pystr.underscore pystr.underscore) with true.
    cbn iota. rewrite Hc. apply IH. assumption.
Qed.

Lemma scan_digits_inv s : forall acc prev n rest,
  pystr.scan_digits s acc prev = Some (n, rest) ->
  scan_stop rest
  /\ exists t, s = (t ++ rest)%string
               /\ if prev
                  then exists c t', t = String c t' /\ pystr.is_digit c = true
                                    /\ digit_tail t'
                  else digit_tail t.
Proof.
  induction s as [|c s IH]; intros acc prev n rest Hscan; cbn [pystr.scan_digits] in Hscan.
  - destruct prev; [discriminate|]. injection Hscan as <- <-.
    split; [left; reflexivity|]. exists EmptyString. split; [reflexivity | constructor].
  - destruct (pystr.is_digit c) eqn:Hd.
    + apply IH in Hscan as (Hstop & t & -> & Ht). split; [assumption|].
      exists (String c t). split; [reflexivity|].
      destruct prev; [exists c, t; auto | constructor; assumption].
    + destruct (Ascii.eqb c pystr.underscore) eqn:Hu.
      * destruct prev; [discriminate|].
        apply IH in Hscan as (Hstop & t & -> & c' & t' & -> & Hc' & Ht').
        split; [assumption|]. apply Ascii.eqb_eq in Hu. subst c.
        exists (String pystr.underscore (String c' t')).
        split; [reflexivity | constructor; assumption].
      * destruct prev; [discriminate|]. injection Hscan as <- <-.
        split; [right; eauto|]. exists EmptyString. split; [reflexivity | constructor].
Qed.

Lemma int_unsigned_inv negative s n :
  pystr.int_unsigned negative s = Ok n ->
  exists digits trail,
    s = (digits ++ trail)%string /\ digit_run digits /\ blanks trail = true.
Proof.
  unfold pystr.int_unsigned. destruct s as [|c r]; [discriminate|].
  destruct (pystr.is_digit c) eqn:Hc; [|discriminate].
  destruct (pystr.scan_digits (String c r) 0 false) as [[n' rest]|] eqn:Hscan;
    [|discriminate].
  destruct (pystr.skip_space rest) eqn:Hrest; [|discriminate]. intros _.
  apply scan_digits_inv in Hscan as (Hstop & t & Ht & Htail).
  exists t, rest. split; [assumption|]. split; [|apply skip_space_end; assumption].
  destruct Htail as [|c' t' Hc' Ht'|c' t' Hc' Ht'].
  - cbn [append] in Ht. subst rest.
    destruct Hstop as [[=]|(c0 & r0 & [= <- <-] & Hd & _)]. congruence.
  - exists c', t'. auto.
  - cbn [append] in Ht. injection Ht as -> _. discriminate.
Qed.

Lemma int_unsigned_run negative digits trail :
  digit_run digits -> blanks trail = true ->
  exists n, pystr.int_unsigned negative (digits ++ trail) = Ok n.
Proof.
  intros (c & t & -> & Hc & Ht) Htrail.
  assert (Hstop : scan_stop trail).
  { destruct trail as [|c0 r0]; [left; reflexivity|]. right. exists c0, r0.
    cbn [blanks] in Htrail. apply andb_true_iff in Htrail as [Hc0 _].
    split; [reflexivity|].
    destruct c0 as [[] [] [] [] [] [] [] []]; first [discriminate Hc0 | split; reflexivity]. }
  destruct (scan_digits_tail (String c t) (tail_digit c t Hc Ht) 0 trail Hstop)
    as [n Hscan].
  unfold pystr.int_unsigned. cbn [append] in *.
  rewrite Hc, Hscan, (blanks_skip_space _ Htrail). eauto.
Qed.

(** [int()] accepts exactly the texts of integers. *)
Lemma int_accepts s : (exists n, pystr.int s = Ok n) <-> int_literal s.
Proof.
  split.
  - intros [n Hn]. unfold pystr.int in Hn.
    destruct (skip_space_split s) as (lead & Hs & Hlead).
    destruct (pystr.skip_space s) as [|c rest]; [discriminate|].
    destruct (Ascii.eqb c "+") eqn:Hplus;
      [|destruct (Ascii.eqb c "-") eqn:Hminus];
      apply int_unsigned_inv in Hn as (digits & trail & Hd & Hrun & Htrail).
    + apply Ascii.eqb_eq in Hplus. subst c rest.
      exists lead, "+"%string, digits, trail. auto 6.
    + apply Ascii.eqb_eq in Hminus. subst c rest.
      exists lead, "-"%string, digits, trail. auto 6.
    + rewrite Hd in Hs. exists lead, EmptyString, digits, trail. auto 6.
  - intros (lead & sign & digits & trail & -> & Hlead & Hsign & Hrun & Htrail).
    destruct Hrun as (c & t & -> & Hc & Ht).
    destruct (digit_is_plain c Hc) as (Hsp & Hplus & Hminus & Hus).
    unfold pystr.int. rewrite skip_space_blanks; [|assumption|].
    2:{ right. destruct Hsign as [-> | [-> | ->]]; cbn [append]; eauto. }
    destruct Hsign as [-> | [-> | ->]]; cbn [append].
    + rewrite Hplus, Hminus.
      apply (int_unsigned_run false (String c t) trail); [exists c, t; auto | assumption].
    + change (Ascii.eqb "+" "+") with true. cbn iota.
      apply (int_unsigned_run false (String c t) trail); [exists c, t; auto | assumption].
    + change (Ascii.eqb "-" "+") with false. change (Ascii.eqb "-" "-") with true.
      cbn iota.
      apply (int_unsigned_run true (String c t) trail); [exists c, t; auto | assumption].
Qed.

Lemma int_rejects s : (exists e, pystr.int s = Raise e) <-> ~ int_literal s.
Proof.
  rewrite <- int_accepts. destruct (pystr.int s) as [n|e]; split.
  - intros [e He]. discriminate.
  - intros Hn. exfalso. apply Hn. eauto.
  - intros _ [n Hn]. discriminate.
  - eauto.
Qed.

End IntFacts.

Section KeyModel.

Lemma from_str_segments_limited x :
  from_str ("limited_casco_" ++ x) =
  match pystr.split 1 x with
  | [variant; deductible_str] =>
      match pystr.int deductible_str with
      | Ok n => Ok (mkPriceKey "limited_casco" (Some variant) (Some n))
      | Raise _ => Raise (ValueError "Unsupported limited_casco key format")
      end
  | _ => Raise (ValueError "Unsupported limited_casco key format")
  end.
Proof.
  unfold from_str, pystr.startswith. rewrite prefix_of_app.
  replace (("limited_casco_" ++ x =? "mtpl")%string) with false by reflexivity.
  change (pystr.split 3 ("limited_casco_" ++ x))
    with (pystr.split 3 ("limited" ++ String "_" ("casco" ++ String "_" x))).
  rewrite !split_app by reflexivity.
  destruct (pystr.split 1 x) as [|a [|b [|c l]]]; reflexivity.
Qed.

Lemma from_str_segments_casco x :
  from_str ("casco_" ++ x) =
  match pystr.split 1 x with
  | [variant; deductible_str] =>
      match pystr.int deductible_str with
      | Ok n => Ok (mkPriceKey "casco" (Some variant) (Some n))
      | Raise _ => Raise (ValueError "Unsupported casco key format")
      end
  | _ => Raise (ValueError "Unsupported casco key format")
  end.
Proof.
  unfold from_str, pystr.startswith. rewrite prefix_of_app.
  replace (("casco_" ++ x =? "mtpl")%string) with false by reflexivity.
  replace (String.prefix "limited_casco_" ("casco_" ++ x)) with false by reflexivity.
  change (pystr.split 2 ("casco_" ++ x))
    with (pystr.split 2 ("casco" ++ String "_" x)).
  rewrite !split_app by reflexivity.
  destruct (pystr.split 1 x) as [|a [|b [|c l]]]; reflexivity.
Qed.

(** What [from_str] returns on a key it cuts into segments. *)
Lemma from_str_limited v d n :
  has_underscore v = false -> pystr.int d = Ok n ->
  from_str ("limited_casco_" ++ v ++ "_" ++ d)
  = Ok (mkPriceKey "limited_casco" (Some v) (Some n)).
Proof.
  intros Hv Hd. rewrite from_str_segments_limited.
  change (v ++ "_" ++ d)%string with (v ++ String "_" d)%string.
  rewrite split_app, split_0, Hd by assumption. reflexivity.
Qed.

Lemma from_str_casco v d n :
  has_underscore v = false -> pystr.int d = Ok n ->
  from_str ("casco_" ++ v ++ "_" ++ d)
  = Ok (mkPriceKey "casco" (Some v) (Some n)).
Proof.
  intros Hv Hd. rewrite from_str_segments_casco.
  change (v ++ "_" ++ d)%string with (v ++ String "_" d)%string.
  rewrite split_app, split_0, Hd by assumption. reflexivity.
Qed.

(** What a successful [from_str] tells about the raw key and the result. *)
Lemma from_str_inv raw key :
  from_str raw = Ok key ->
  (raw = "mtpl" /\ key = mkPriceKey "mtpl" None None)
  \/ (exists v d n, raw = ("limited_casco_" ++ v ++ "_" ++ d)%string
                    /\ has_underscore v = false /\ pystr.int d = Ok n
                    /\ key = mkPriceKey "limited_casco" (Some v) (Some n))
  \/ (exists v d n, raw = ("casco_" ++ v ++ "_" ++ d)%string
                    /\ has_underscore v = false /\ pystr.int d = Ok n
                    /\ key = mkPriceKey "casco" (Some v) (Some n)).
Proof.
  intros Hk.
  destruct (String.eqb_spec raw "mtpl") as [->|Hm].
  { left. split; [reflexivity|]. cbv in Hk. congruence. }
  destruct (pystr.startswith raw "limited_casco_") eqn:Hl.
  { right; left. apply prefix_app in Hl as [x ->].
    rewrite from_str_segments_limited in Hk.
    destruct (split_1_cases x) as [[_ Hs] | (v & d & -> & Hv & Hs)];
      rewrite Hs in Hk; [discriminate|].
    destruct (pystr.int d) as [n|] eqn:Hd; [|discriminate].
    exists v, d, n. repeat split; congruence. }
  destruct (pystr.startswith raw "casco_") eqn:Hc.
  { right; right. apply prefix_app in Hc as [x ->].
    rewrite from_str_segments_casco in Hk.
    destruct (split_1_cases x) as [[_ Hs] | (v & d & -> & Hv & Hs)];
      rewrite Hs in Hk; [discriminate|].
    destruct (pystr.int d) as [n|] eqn:Hd; [|discriminate].
    exists v, d, n. repeat split; congruence. }
  unfold from_str in Hk.
  apply String.eqb_neq in Hm. rewrite Hm, Hl, Hc in Hk. discriminate.
Qed.

(** [from_str] raises nothing but [ValueError]. *)
Lemma from_str_raises_ValueError raw e :
  from_str raw = Raise e -> is_ValueError e = true.
Proof.
  unfold from_str.
  destruct (String.eqb raw "mtpl"); [discriminate|].
  destruct (pystr.startswith raw "limited_casco_").
  { destruct (pystr.split 3 raw) as [|a [|b [|c [|d [|? ?]]]]];
      try (intros [= <-]; reflexivity).
    destruct (pystr.int d); intros [= <-]; reflexivity. }
  destruct (pystr.startswith raw "casco_").
  { destruct (pystr.split 2 raw) as [|a [|b [|c [|? ?]]]];
      try (intros [= <-]; reflexivity).
    destruct (pystr.int c); intros [= <-]; reflexivity. }
  intros [= <-]; reflexivity.
Qed.

Lemma from_str_accepts raw :
  taken_shape raw <-> exists key, from_str raw = Ok key.
Proof.
  split.
  - intros [-> | [(v & d & -> & Hv & Hd) | (v & d & -> & Hv & Hd)]].
    + eexists; reflexivity.
    + apply int_accepts in Hd as [n Hd].
      eexists; apply from_str_limited; eassumption.
    + apply int_accepts in Hd as [n Hd].
      eexists; apply from_str_casco; eassumption.
  - intros [key Hk].
    destruct (from_str_inv _ _ Hk)
      as [[-> _] | [(v & d & n & -> & Hv & Hd & _) | (v & d & n & -> & Hv & Hd & _)]].
    + left; reflexivity.
    + right; left. exists v, d. split; [reflexivity|]. split; [assumption|].
      apply int_accepts. eauto.
    + right; right. exists v, d. split; [reflexivity|]. split; [assumption|].
      apply int_accepts. eauto.
Qed.

Lemma to_str_from_str key raw :
  from_str raw = Ok key ->
  exists s, to_str key = Ok s /\ from_str s = Ok key.
Proof.
  intros Hk.
  destruct (from_str_inv _ _ Hk)
    as [[_ ->] | [(v & d & n & _ & Hv & _ & ->) | (v & d & n & _ & Hv & _ & ->)]].
  - exists "mtpl". split; reflexivity.
  - exists ("limited_casco_" ++ v ++ "_" ++ pystr.of_int n)%string.
    split; [reflexivity|]. apply from_str_limited; [assumption | apply int_of_int].
  - exists ("casco_" ++ v ++ "_" ++ pystr.of_int n)%string.
    split; [reflexivity|]. apply from_str_casco; [assumption | apply int_of_int].
Qed.

End KeyModel.

Section KeyErrors.

Lemma refused_shape_raises raw :
  refused_shape raw -> exists e, from_str raw = Raise e.
Proof.
  intros [(Hm & Hl & Hc) | [(p & x & Hp & -> & Hx) | (p & v & d & Hp & -> & Hv & Hd)]].
  - unfold from_str. apply String.eqb_neq in Hm. rewrite Hm, Hl, Hc. eauto.
  - assert (Hs : pystr.split 1 x = [x]).
    { destruct (split_1_cases x) as [[_ Hs] | (v & d & -> & Hv & _)]; [exact Hs|].
      exfalso. clear -Hx. induction v as [|c v IH]; simpl in Hx.
      - discriminate.
      - apply orb_false_iff in Hx as [_ Hx]. auto. }
    destruct Hp as [-> | ->].
    + rewrite from_str_segments_limited, Hs. eauto.
    + rewrite from_str_segments_casco, Hs. eauto.
  - change (v ++ "_" ++ d)%string with (v ++ String "_" d)%string.
    apply int_rejects in Hd as [e Hd].
    destruct Hp as [-> | ->].
    + rewrite from_str_segments_limited, split_app, split_0, Hd by assumption. eauto.
    + rewrite from_str_segments_casco, split_app, split_0, Hd by assumption. eauto.
Qed.

Lemma raises_refused_shape raw e :
  from_str raw = Raise e -> refused_shape raw.
Proof.
  intros He.
  destruct (String.eqb_spec raw "mtpl") as [->|Hm]; [discriminate|].
  destruct (pystr.startswith raw "limited_casco_") eqn:Hl.
  { right. apply prefix_app in Hl as [x ->].
    rewrite from_str_segments_limited in He.
    destruct (split_1_cases x) as [[Hx Hs] | (v & d & -> & Hv & Hs)].
    - left. exists "limited_casco_", x.
      split; [left; reflexivity | split; [reflexivity | assumption]].
    - right. rewrite Hs in He. destruct (pystr.int d) as [n|e'] eqn:Hd; [discriminate|].
      exists "limited_casco_", v, d.
      split; [left; reflexivity | split; [reflexivity | split; [assumption|]]].
      apply int_rejects. eauto. }
  destruct (pystr.startswith raw "casco_") eqn:Hc.
  { right. apply prefix_app in Hc as [x ->].
    rewrite from_str_segments_casco in He.
    destruct (split_1_cases x) as [[Hx Hs] | (v & d & -> & Hv & Hs)].
    - left. exists "casco_", x.
      split; [right; reflexivity | split; [reflexivity | assumption]].
    - right. rewrite Hs in He. destruct (pystr.int d) as [n|e'] eqn:Hd; [discriminate|].
      exists "casco_", v, d.
      split; [right; reflexivity | split; [reflexivity | split; [assumption|]]].
      apply int_rejects. eauto. }
  left. auto.
Qed.

Lemma not_accepted_raises raw :
  ~ taken_shape raw <-> exists e, from_str raw = Raise e /\ is_ValueError e = true.
Proof.
  split.
  - intros Hn. destruct (from_str raw) as [key|e] eqn:Hk.
    + exfalso. apply Hn, from_str_accepts. eauto.
    + exists e. split; [reflexivity|]. eapply from_str_raises_ValueError; eassumption.
  - intros (e & He & _) Ha. apply from_str_accepts in Ha as [key Hk]. congruence.
Qed.

(** The first key that does not parse ends [parse_prices]. *)
Lemma parse_prices_raises (raw_prices : dict string float) :
  forall (d : price_table) raw price,
  In (raw, price) raw_prices -> ~ taken_shape raw ->
  exists e,
    for_each (fun d kv => key <- from_str (fst kv) ;; Ok (dict_set d key (snd kv)))
      raw_prices d = Raise e
    /\ is_ValueError e = true.
Proof.
  induction raw_prices as [|[k0 v0] l IH]; intros d raw price Hin Hn; [destruct Hin|].
  cbn [for_each fst snd]. destruct (from_str k0) as [key0|e0] eqn:Hk0; cbn [bind].
  - destruct Hin as [[= -> ->] | Hin].
    + exfalso. apply Hn, from_str_accepts. eauto.
    + eapply IH; eassumption.
  - exists e0. split; [reflexivity|]. eapply from_str_raises_ValueError; eassumption.
Qed.

End KeyErrors.

Section WordedShapes.

Lemma append_empty_r s : (s ++ EmptyString)%string = s.
Proof. induction s as [|c s IH]; cbn; [reflexivity | now rewrite IH]. Qed.

Lemma append_inv_head p : forall a b, (p ++ a)%string = (p ++ b)%string -> a = b.
Proof.
  induction p as [|c p IH]; intros a b Hab; [exact Hab|].
  cbn in Hab. injection Hab as Hab. apply IH. exact Hab.
Qed.

Lemma all_digits_tail s : all_digits s = true -> digit_tail s.
Proof.
  induction s as [|c s IH]; cbn [all_digits]; [constructor|].
  intros H. apply andb_true_iff in H as [Hc Hs]. constructor; auto.
Qed.

Lemma written_integer_literal s : written_integer s -> int_literal s.
Proof.
  intros (sign & digits & -> & Hsign & Hne & Hd).
  exists EmptyString, sign, digits, EmptyString.
  split; [cbn [append]; now rewrite append_empty_r|].
  split; [reflexivity|]. split; [tauto|]. split; [|reflexivity].
  destruct digits as [|c tail]; [contradiction|]. cbn [all_digits] in Hd.
  apply andb_true_iff in Hd as [Hc Ht].
  exists c, tail. split; [reflexivity|]. split; [exact Hc|].
  apply all_digits_tail. exact Ht.
Qed.

Lemma worded_shape_taken raw : worded_shape raw -> taken_shape raw.
Proof.
  intros [-> | [(v & d & -> & _ & Hv & Hd) | (v & d & -> & _ & Hv & Hd)]].
  - left. reflexivity.
  - right; left. exists v, d. split; [reflexivity|]. split; [exact Hv|].
    apply written_integer_literal. exact Hd.
  - right; right. exists v, d. split; [reflexivity|]. split; [exact Hv|].
    apply written_integer_literal. exact Hd.
Qed.

(** The cut of what follows the prefix is the one [split] makes. *)
Lemma worded_cut x v d :
  has_underscore v = false -> x = (v ++ "_" ++ d)%string ->
  pystr.split 1 x = [v; d].
Proof.
  intros Hv ->. change (v ++ "_" ++ d)%string with (v ++ String "_" d)%string.
  rewrite split_app by exact Hv. rewrite split_0. reflexivity.
Qed.

Lemma worded_casco_cut x v d :
  ("casco_" ++ x)%string = ("casco_" ++ v ++ "_" ++ d)%string ->
  has_underscore v = false ->
  pystr.split 1 x = [v; d].
Proof.
  intros H Hv. apply append_inv_head in H. eapply worded_cut; eassumption.
Qed.

End WordedShapes.

(** * Properties of dictionaries and loops *)

Local Open Scope list_scope.

Section DictFacts.
Context {K V : Type} `{Eqb K}.
Implicit Types (d : dict K V) (k : K) (v : V).

Lemma eqb_refl k : eqb k k = true.
Proof. destruct (eqb_spec k k); congruence. Qed.

Lemma eqb_neq k k' : k <> k' -> eqb k k' = false.
Proof. destruct (eqb_spec k k'); congruence. Qed.

Lemma dict_get_set_same d k v : dict_get (dict_set d k v) k = Some v.
Proof.
  induction d as [|[k' v'] d IH]; simpl.
  - now rewrite eqb_refl.
  - destruct (eqb_spec k' k) as [->|Hn]; simpl.
    + now rewrite eqb_refl.
    + now rewrite (eqb_neq _ _ Hn).
Qed.

Lemma dict_get_set_other d k k' v :
  k <> k' -> dict_get (dict_set d k v) k' = dict_get d k'.
Proof.
  intros Hn. induction d as [|[k0 v0] d IH]; simpl.
  - now rewrite (eqb_neq _ _ Hn).
  - destruct (eqb_spec k0 k) as [->|Hn0]; simpl.
    + now rewrite (eqb_neq _ _ Hn).
    + now rewrite IH.
Qed.

Lemma dict_mem_keys d k : dict_mem d k = true <-> In k (dict_keys d).
Proof.
  unfold dict_mem. induction d as [|[k0 v0] d IH]; simpl.
  - split; [discriminate | tauto].
  - destruct (eqb_spec k0 k) as [->|Hn].
    + split; auto.
    + rewrite IH. split; [auto | intros [?|?]; congruence].
Qed.

Lemma dict_get_keys d k v : dict_get d k = Some v -> In k (dict_keys d).
Proof. intros Hg. apply dict_mem_keys. unfold dict_mem. now rewrite Hg. Qed.

Lemma dict_keys_set_present d k v :
  In k (dict_keys d) -> dict_keys (dict_set d k v) = dict_keys d.
Proof.
  induction d as [|[k0 v0] d IH]; simpl; [tauto|].
  intros Hin. destruct (eqb_spec k0 k) as [->|Hn]; simpl; [reflexivity|].
  f_equal. apply IH. destruct Hin; congruence.
Qed.

Lemma dict_keys_set_absent d k v :
  ~ In k (dict_keys d) -> dict_keys (dict_set d k v) = dict_keys d ++ [k].
Proof.
  induction d as [|[k0 v0] d IH]; simpl; [reflexivity|].
  intros Hin. destruct (eqb_spec k0 k) as [->|Hn]; simpl; [tauto|].
  f_equal. apply IH. tauto.
Qed.

Lemma dict_keys_set_incl d k v k' :
  In k' (dict_keys (dict_set d k v)) -> k' = k \/ In k' (dict_keys d).
Proof.
  induction d as [|[k0 v0] d IH]; simpl.
  - intros [<-|[]]; auto.
  - destruct (eqb_spec k0 k) as [->|Hn]; simpl; intros [<-|Hin]; auto.
    destruct (IH Hin); auto.
Qed.

Lemma dict_set_NoDup d k v :
  NoDup (dict_keys d) -> NoDup (dict_keys (dict_set d k v)).
Proof.
  induction d as [|[k0 v0] d IH]; simpl; intros Hnd.
  - repeat constructor. simpl. tauto.
  - inversion Hnd as [|? ? Hnot Hnd']; subst.
    destruct (eqb_spec k0 k) as [->|Hn]; simpl.
    + constructor; assumption.
    + constructor; [|auto]. intros Hin.
      destruct (dict_keys_set_incl _ _ _ _ Hin); congruence.
Qed.

Lemma dict_get_NoDup d k v :
  NoDup (dict_keys d) -> In (k, v) d -> dict_get d k = Some v.
Proof.
  induction d as [|[k0 v0] d IH]; simpl; intros Hnd Hin; [tauto|].
  inversion Hnd as [|? ? Hnot Hnd']; subst.
  destruct Hin as [[= -> ->]|Hin].
  - now rewrite eqb_refl.
  - destruct (eqb_spec k0 k) as [->|Hn]; [|auto].
    exfalso. apply Hnot. change k with (fst (k, v)). now apply in_map.
Qed.

Lemma dict_get_In d k v : dict_get d k = Some v -> In (k, v) d.
Proof.
  induction d as [|[k0 v0] d IH]; simpl; [discriminate|].
  destruct (eqb_spec k0 k) as [->|Hn]; [intros [= ->]; auto | auto].
Qed.

End DictFacts.

Section LoopFacts.
Context {A S : Type}.

(** A relation between the state before and after that every iteration
    establishes, and that is reflexive and transitive, holds across the
    whole loop. *)
Lemma for_each_rel (R : S -> S -> Prop) (body : S -> A -> result S) (xs : list A) :
  (forall s, R s s) ->
  (forall a b c, R a b -> R b c -> R a c) ->
  (forall s x s', In x xs -> body s x = Ok s' -> R s s') ->
  forall s s', for_each body xs s = Ok s' -> R s s'.
Proof.
  intros Hrefl Htrans. induction xs as [|x xs IH]; intros Hbody s s' Hrun.
  - injection Hrun as <-. apply Hrefl.
  - cbn [for_each] in Hrun. destruct (body s x) as [s1|e] eqn:Hb; [|discriminate].
    cbn [bind] in Hrun. eapply Htrans.
    + eapply Hbody; [left; reflexivity | eassumption].
    + apply IH; [|assumption]. intros ? ? ? Hin. apply Hbody. right; assumption.
Qed.

(** An invariant of the state that every iteration keeps holds at the end. *)
Lemma for_each_inv (P : S -> Prop) (body : S -> A -> result S) (xs : list A) :
  (forall s x s', In x xs -> P s -> body s x = Ok s' -> P s') ->
  forall s s', P s -> for_each body xs s = Ok s' -> P s'.
Proof.
  induction xs as [|x xs IH]; intros Hbody s s' Hs Hrun.
  - injection Hrun as <-. assumption.
  - cbn [for_each] in Hrun. destruct (body s x) as [s1|e] eqn:Hb; [|discriminate].
    cbn [bind] in Hrun. eapply IH; [| |eassumption].
    + intros ? ? ? Hin. apply Hbody. right; assumption.
    + eapply Hbody; [left; reflexivity | eassumption | eassumption].
Qed.

End LoopFacts.

(** * The constraint generator meets the business rules *)

Section Generator.

Lemma fold_left_ext {A B : Type} (f g : A -> B -> A) (l : list B) :
  (forall a b, f a b = g a b) -> forall a, fold_left f l a = fold_left g l a.
Proof.
  intros Hfg. induction l as [|b l IH]; intros a; simpl; [reflexivity|].
  rewrite Hfg. apply IH.
Qed.

Lemma fold_left_flat_map {A B : Type} (g : B -> list A) (l : list B) :
  forall acc, fold_left (fun acc x => acc ++ g x) l acc = acc ++ flat_map g l.
Proof.
  induction l as [|b l IH]; intros acc; simpl.
  - now rewrite app_nil_r.
  - rewrite IH. symmetry. apply app_assoc.
Qed.

Lemma add_product_level_eq (prices : price_table) cs :
  _add_product_level_constraints prices cs
  = cs
    ++ (if dict_mem prices mtpl_key then
          flat_map
            (fun key =>
               if String.eqb (product key) "limited_casco" then
                 [mkConstraint mtpl_key key "MTPL must be cheaper than Limited Casco"]
               else [])
            (dict_keys prices)
        else [])
    ++ flat_map
         (fun key =>
            if String.eqb (product key) "limited_casco"
               && dict_mem prices (casco_twin key)
            then [mkConstraint key (casco_twin key)
                    "Casco must be more expensive than Limited Casco for the same variant and deductible"]
            else [])
         (dict_keys prices).
Proof.
  unfold _add_product_level_constraints.
  rewrite fold_left_ext with
    (g := fun cs key =>
            cs ++ (if String.eqb (product key) "limited_casco"
                      && dict_mem prices (casco_twin key)
                   then [mkConstraint key (casco_twin key)
                           "Casco must be more expensive than Limited Casco for the same variant and deductible"]
                   else [])).
  2:{ intros a key. unfold casco_twin.
      destruct (String.eqb (product key) "limited_casco"); cbn [negb andb];
        [|now rewrite app_nil_r].
      destruct (dict_mem prices _); [reflexivity | now rewrite app_nil_r]. }
  rewrite fold_left_flat_map. rewrite app_assoc. f_equal.
  change (mkPriceKey "mtpl" None None) with mtpl_key.
  destruct (dict_mem prices mtpl_key); [|now rewrite app_nil_r].
  rewrite fold_left_ext with
    (g := fun cs key =>
            cs ++ (if String.eqb (product key) "limited_casco" then
                     [mkConstraint mtpl_key key "MTPL must be cheaper than Limited Casco"]
                   else [])).
  2:{ intros a key. destruct (String.eqb (product key) "limited_casco");
        [reflexivity | now rewrite app_nil_r]. }
  apply fold_left_flat_map.
Qed.

Lemma variant_slice_eq (prices : price_table) product cs deductible :
  variant_slice prices product cs deductible
  = cs ++ slice_constraints prices product deductible.
Proof.
  unfold variant_slice, slice_constraints, variant_steps, grid_key. cbv zeta.
  cbn [flat_map].
  destruct (dict_mem prices (mkPriceKey product (Some "compact") (Some deductible)));
  destruct (dict_mem prices (mkPriceKey product (Some "basic") (Some deductible)));
  destruct (dict_mem prices (mkPriceKey product (Some "comfort") (Some deductible)));
  destruct (dict_mem prices (mkPriceKey product (Some "premium") (Some deductible)));
  cbn [andb app]; rewrite <- ?app_assoc; cbn [app]; rewrite ?app_nil_r; reflexivity.
Qed.

Lemma build_constraints_eq (prices : price_table) :
  build_constraints prices
  = _add_product_level_constraints prices []
    ++ flat_map
         (fun product => flat_map (slice_constraints prices product) DEDUCTIBLES)
         PRODUCTS_WITH_VARIANTS.
Proof.
  unfold build_constraints, _add_variant_level_constraints.
  generalize (_add_product_level_constraints prices []). intros cs.
  rewrite fold_left_ext with
    (g := fun cs product =>
            cs ++ flat_map (slice_constraints prices product) DEDUCTIBLES).
  - apply fold_left_flat_map.
  - intros a product.
    rewrite fold_left_ext with
      (g := fun cs d => cs ++ slice_constraints prices product d).
    + apply fold_left_flat_map.
    + intros. apply variant_slice_eq.
Qed.

Lemma slice_constraints_In (prices : price_table) product deductible c :
  In c (slice_constraints prices product deductible) <->
  exists lower upper wording,
    In (lower, upper, wording) variant_steps
    /\ In (grid_key product lower deductible) (dict_keys prices)
    /\ In (grid_key product upper deductible) (dict_keys prices)
    /\ c = mkConstraint (grid_key product lower deductible)
             (grid_key product upper deductible)
             (wording ++ "for " ++ product ++ " with deductible "
              ++ pystr.of_int deductible)%string.
Proof.
  unfold slice_constraints. rewrite in_flat_map. split.
  - intros ([[lower upper] wording] & Hstep & Hc).
    destruct (dict_mem prices (grid_key product lower deductible)) eqn:Hl;
      [|destruct Hc].
    destruct (dict_mem prices (grid_key product upper deductible)) eqn:Hu;
      [|destruct Hc].
    destruct Hc as [<-|[]]. exists lower, upper, wording.
    rewrite <- !dict_mem_keys. auto.
  - intros (lower & upper & wording & Hstep & Hl & Hu & ->).
    exists (lower, upper, wording). split; [assumption|].
    apply dict_mem_keys in Hl, Hu. rewrite Hl, Hu. left. reflexivity.
Qed.

Lemma build_constraints_generated (prices : price_table) c :
  In c (build_constraints prices) <-> generated prices c.
Proof.
  rewrite build_constraints_eq, add_product_level_eq. cbn [app].
  rewrite !in_app_iff, !in_flat_map. split.
  - intros [[Hm | (key & Hkey & Hc)] | (product & Hp & Hc)].
    + destruct (dict_mem prices mtpl_key) eqn:Hmem; [|destruct Hm].
      apply in_flat_map in Hm as (key & Hkey & Hc).
      destruct (String.eqb_spec (product key) "limited_casco") as [Hlc|];
        [|destruct Hc].
      destruct Hc as [<-|[]]. apply generated_mtpl; auto.
      apply dict_mem_keys; assumption.
    + destruct (String.eqb_spec (product key) "limited_casco") as [Hlc|];
        [|destruct Hc].
      destruct (dict_mem prices (casco_twin key)) eqn:Hmem; [|destruct Hc].
      destruct Hc as [<-|[]]. apply generated_casco; auto.
      apply dict_mem_keys; assumption.
    + apply in_flat_map in Hc as (deductible & Hd & Hc).
      apply slice_constraints_In in Hc as (lower & upper & wording & Hs & Hl & Hu & ->).
      eapply generated_variant; eassumption.
  - intros [key Hm Hkey Hlc | key Hkey Hlc Htwin
           | product deductible lower upper wording Hp Hd Hs Hl Hu].
    + left; left. apply dict_mem_keys in Hm. rewrite Hm.
      apply in_flat_map. exists key. split; [assumption|].
      rewrite Hlc. left. reflexivity.
    + left; right. exists key. split; [assumption|].
      apply dict_mem_keys in Htwin. rewrite Hlc, Htwin. left. reflexivity.
    + right. exists product. split; [assumption|].
      apply in_flat_map. exists deductible. split; [assumption|].
      apply slice_constraints_In. exists lower, upper, wording. auto.
Qed.

End Generator.

Section GeneratorFacts.

Lemma variant_rank_bounds v :
  (0 <= dict_get_default VARIANT_RANK v 0 <= 3)%Z.
Proof.
  unfold dict_get_default, VARIANT_RANK. cbn [dict_get].
  repeat (destruct (eqb _ v); [lia|]). lia.
Qed.

Lemma deductible_rank_bounds d :
  (0 <= dict_get_default DEDUCTIBLE_RANK d 0 <= 3)%Z.
Proof.
  unfold dict_get_default, DEDUCTIBLE_RANK. cbn [dict_get].
  repeat (destruct (eqb _ d); [lia|]). lia.
Qed.

Lemma price_key_rank_of key p :
  dict_get PRODUCT_RANK (product key) = Some p ->
  price_key_rank key
  = Ok (p * 100
        + dict_get_default VARIANT_RANK (variant key) 0 * 10
        + dict_get_default DEDUCTIBLE_RANK (deductible key) 0)%Z.
Proof. intros Hp. unfold price_key_rank, dict_item. rewrite Hp. reflexivity. Qed.

Lemma generated_rank_increases prices c : generated prices c -> rank_increases c.
Proof.
  intros [key _ _ Hlc | key _ Hlc _
         | product deductible lower upper wording Hp Hd Hs _ _];
    unfold rank_increases; cbn [left right].
  - pose proof (variant_rank_bounds (variant key)).
    pose proof (deductible_rank_bounds (deductible key)).
    exists 0%Z. eexists. split; [reflexivity|].
    split; [apply (price_key_rank_of key 1); rewrite Hlc; reflexivity | lia].
  - do 2 eexists.
    split; [apply (price_key_rank_of key 1); rewrite Hlc; reflexivity|].
    split; [apply (price_key_rank_of (casco_twin key) 2); reflexivity|].
    cbn [casco_twin variant deductible]. lia.
  - unfold PRODUCTS_WITH_VARIANTS, DEDUCTIBLES, variant_steps in *.
    cbn [In] in Hp, Hd, Hs.
    destruct Hp as [<-|[<-|[]]];
      destruct Hd as [<-|[<-|[<-|[]]]];
      destruct Hs as [[= <- <- <-]|[[= <- <- <-]|[[= <- <- <-]|[]]]];
      do 2 eexists; (split; [reflexivity|]); (split; [reflexivity|]); reflexivity.
Qed.

Lemma generated_leaves_compact_and_basic prices c :
  generated prices c -> ~ relates_compact_and_basic c.
Proof.
  intros [key _ _ Hlc | key _ Hlc _
         | product deductible lower upper wording _ _ Hs _ _];
    unfold relates_compact_and_basic; cbn [left right variant mtpl_key casco_twin grid_key].
  - intros [[H _]|[H _]]; discriminate.
  - intros [[H1 H2]|[H1 H2]]; congruence.
  - unfold variant_steps in Hs. cbn [In] in Hs.
    destruct Hs as [[= <- <- <-]|[[= <- <- <-]|[[= <- <- <-]|[]]]];
      intros [[_ H]|[_ H]]; discriminate.
Qed.

Lemma build_constraints_within (prices : price_table) :
  Forall (within (dict_keys prices)) (build_constraints prices).
Proof.
  apply Forall_forall. intros c Hc. apply build_constraints_generated in Hc.
  destruct Hc; split; cbn [left right]; assumption.
Qed.

End GeneratorFacts.

(** * Properties of the pipeline *)

Section Normalisation.

Lemma aligns_refl st : aligns st st.
Proof.
  split; [reflexivity|]. exists []. split; [now rewrite app_nil_r | reflexivity].
Qed.

Lemma aligns_trans a b c : aligns a b -> aligns b c -> aligns a c.
Proof.
  intros (Hk1 & e1 & Hl1 & Hv1) (Hk2 & e2 & Hl2 & Hv2). split; [congruence|].
  exists (e1 ++ e2). split; [rewrite Hl2, Hl1; symmetry; apply app_assoc|].
  intros key s Hs Hn. rewrite map_app, in_app_iff in Hn.
  rewrite (Hv2 key s), (Hv1 key s); tauto.
Qed.

Lemma align_deductible_aligns product variant base_key base_price st d st' :
  align_deductible product variant base_key base_price st d = Ok st' ->
  aligns st st'.
Proof.
  unfold align_deductible. destruct st as [prices change_log].
  set (key := mkPriceKey product (Some variant) (Some d)).
  destruct (dict_mem prices key) eqn:Hmem; cbn [negb];
    [|intros [= <-]; apply aligns_refl].
  destruct (dict_item DEDUCTIBLE_DISCOUNTS d) as [factor|]; [|discriminate].
  cbn [bind]. destruct (dict_item prices key) as [old_price|]; [|discriminate].
  cbn [bind].
  destruct (round_to_step _ _) as [new_price|]; [|discriminate]. cbn [bind].
  destruct (PrimFloat.ltb _ _); [|intros [= <-]; apply aligns_refl].
  destruct (to_str key) as [key_str|] eqn:Hks; [|discriminate]. cbn [bind].
  destruct (to_str base_key) as [base_str|]; [|discriminate]. cbn [bind].
  intros [= <-]. split; cbn [fst snd].
  - apply dict_keys_set_present, dict_mem_keys, Hmem.
  - eexists. split; [reflexivity|]. intros key0 s Hs Hn.
    apply dict_get_set_other. intros ->. apply Hn. left. cbn. congruence.
Qed.

Lemma align_variant_aligns product st variant st' :
  align_variant product st variant = Ok st' -> aligns st st'.
Proof.
  unfold align_variant. destruct (dict_mem _ _); cbn [negb];
    [|intros [= <-]; apply aligns_refl].
  destruct (dict_item _ _) as [base_price|]; [|discriminate]. cbn [bind].
  apply for_each_rel; [apply aligns_refl | apply aligns_trans|].
  intros ? ? ? _. apply align_deductible_aligns.
Qed.

Lemma apply_deductible_structure_aligns prices normalized change_log :
  apply_deductible_structure prices = Ok (normalized, change_log) ->
  aligns (prices, []) (normalized, change_log).
Proof.
  unfold apply_deductible_structure.
  apply for_each_rel; [apply aligns_refl | apply aligns_trans|].
  intros s product s' _.
  apply for_each_rel; [apply aligns_refl | apply aligns_trans|].
  intros ? ? ? _. apply align_variant_aligns.
Qed.

End Normalisation.

Section Repair.

Lemma repairs_refl cs st : repairs cs st st.
Proof.
  split; [reflexivity|]. split; [reflexivity|].
  exists []. split; [now rewrite app_nil_r | intros ? []].
Qed.

Lemma repairs_trans cs a b c : repairs cs a b -> repairs cs b c -> repairs cs a c.
Proof.
  intros (Hk1 & Hv1 & e1 & Hl1 & Hm1) (Hk2 & Hv2 & e2 & Hl2 & Hm2).
  split; [congruence|]. split.
  - intros key Hkey. rewrite Hv2, Hv1 by assumption. reflexivity.
  - exists (e1 ++ e2). split; [rewrite Hl2, Hl1; symmetry; apply app_assoc|].
    intros s Hs. rewrite map_app, in_app_iff in Hs. destruct Hs; auto.
Qed.

Lemma repair_step_repairs cs st c st' :
  In c cs -> repair_step st c = Ok st' -> repairs cs st st'.
Proof.
  intros Hc. unfold repair_step. destruct st as [prices issues].
  destruct (dict_item prices (left c)) as [left_price|]; [|discriminate].
  cbn [bind]. unfold dict_item at 1.
  destruct (dict_get prices (right c)) as [right_price|] eqn:Hr; [|discriminate].
  cbn [bind]. destruct (PrimFloat.ltb _ _); [|intros [= <-]; apply repairs_refl].
  destruct (round_to_step _ _) as [new_price|]; [|discriminate]. cbn [bind].
  destruct (to_str (right c)) as [right_str|] eqn:Hrs; [|discriminate]. cbn [bind].
  destruct (to_str (left c)) as [left_str|]; [|discriminate]. cbn [bind].
  intros [= <-]. split; cbn [fst snd]; [|split].
  - eapply dict_keys_set_present, dict_get_keys, Hr.
  - intros key Hkey. apply dict_get_set_other. apply Hkey, Hc.
  - eexists. split; [reflexivity|]. intros s Hs. cbn in Hs.
    destruct Hs as [<-|[]]. exists c. auto.
Qed.

Lemma insert_by_key_In {A : Type} (x y : Z * A) l :
  In y (insert_by_key x l) -> y = x \/ In y l.
Proof.
  induction l as [|z l IH]; simpl.
  - intros [<-|[]]; auto.
  - destruct (fst x <=? fst z)%Z; simpl; intros [<-|Hin]; auto.
    destruct (IH Hin); auto.
Qed.

Lemma sorted_In {A : Type} (key : A -> result Z) xs ys x :
  sorted key xs = Ok ys -> In x ys -> In x xs.
Proof.
  unfold sorted. destruct (map_result key xs) as [keys|]; [|discriminate].
  cbn [bind]. intros [= <-] Hin. apply in_map_iff in Hin as ([k x'] & <- & Hin).
  assert (Hsub : forall l, In (k, x') (fold_right insert_by_key [] l) -> In (k, x') l).
  { induction l as [|z l IH]; simpl; [tauto|]. intros H.
    destruct (insert_by_key_In _ _ _ H); auto. }
  apply Hsub in Hin. eapply in_combine_r, Hin.
Qed.

Lemma repair_repairs prices issues st' :
  repair prices issues = Ok st' ->
  repairs (build_constraints prices) (prices, issues) st'.
Proof.
  unfold repair. destruct (sorted _ _) as [cs|] eqn:Hs; [|discriminate]. cbn [bind].
  apply for_each_rel; [apply repairs_refl | apply repairs_trans|].
  intros s c s' Hin. apply repair_step_repairs. eapply sorted_In; eassumption.
Qed.

End Repair.

Section ParseAndSerialize.

Lemma to_str_inj k1 k2 s :
  producible k1 -> producible k2 ->
  to_str k1 = Ok s -> to_str k2 = Ok s -> k1 = k2.
Proof.
  intros [r1 H1] [r2 H2] Hs1 Hs2.
  destruct (to_str_from_str _ _ H1) as (s1 & Hs1' & Hf1).
  destruct (to_str_from_str _ _ H2) as (s2 & Hs2' & Hf2).
  congruence.
Qed.

Lemma parse_prices_keys raw_prices parsed :
  parse_prices raw_prices = Ok parsed ->
  NoDup (dict_keys parsed) /\ Forall producible (dict_keys parsed).
Proof.
  unfold parse_prices.
  apply (for_each_inv
           (fun d : price_table => NoDup (dict_keys d) /\ Forall producible (dict_keys d))).
  - intros d [raw price] d' _ [Hnd Hp]. cbn [fst snd].
    destruct (from_str raw) as [key|] eqn:Hk; [|discriminate]. cbn [bind].
    intros [= <-]. split; [now apply dict_set_NoDup|].
    apply Forall_forall. intros k Hin.
    destruct (dict_keys_set_incl _ _ _ _ Hin) as [->|Hin'].
    + exists raw. assumption.
    + rewrite Forall_forall in Hp. auto.
  - split; constructor.
Qed.

(** Serialising leaves alone a string no key of the table is written as. *)
Lemma serialize_other (l : price_table) : forall (d r : dict string float) s,
  for_each (fun d kv => key <- to_str (fst kv) ;; Ok (dict_set d key (snd kv))) l d
  = Ok r ->
  (forall k, In k (dict_keys l) -> to_str k <> Ok s) ->
  dict_get r s = dict_get d s.
Proof.
  induction l as [|[k0 v0] l IH]; intros d r s Hrun Hno.
  - injection Hrun as <-. reflexivity.
  - cbn [for_each fst snd] in Hrun.
    destruct (to_str k0) as [s0|] eqn:Hs0; [|discriminate]. cbn [bind] in Hrun.
    rewrite (IH _ _ _ Hrun) by (intros k Hk; apply Hno; right; exact Hk).
    apply dict_get_set_other. intros ->. apply (Hno k0); [left; reflexivity | assumption].
Qed.

(** Serialising a table whose keys are written differently keeps every price. *)
Lemma serialize_get (l : price_table) : forall (d r : dict string float) key v s,
  for_each (fun d kv => key <- to_str (fst kv) ;; Ok (dict_set d key (snd kv))) l d
  = Ok r ->
  NoDup (dict_keys l) -> Forall producible (dict_keys l) ->
  In (key, v) l -> to_str key = Ok s ->
  dict_get r s = Some v.
Proof.
  induction l as [|[k0 v0] l IH]; intros d r key v s Hrun Hnd Hp Hin Hs; [destruct Hin|].
  cbn [for_each fst snd] in Hrun. cbn [dict_keys map fst] in Hnd, Hp.
  inversion Hnd as [|? ? Hnot Hnd']; subst. inversion Hp as [|? ? Hp0 Hp']; subst.
  destruct (to_str k0) as [s0|] eqn:Hs0; [|discriminate]. cbn [bind] in Hrun.
  destruct Hin as [[= -> ->]|Hin].
  - rewrite (serialize_other _ _ _ s Hrun).
    + replace s0 with s by congruence. apply dict_get_set_same.
    + intros k Hk Hks. apply Hnot. rewrite Forall_forall in Hp'.
      replace key with k; [assumption|]. eapply to_str_inj; eauto.
  - eapply IH; eassumption.
Qed.

Lemma serialize_prices_get prices fixed key v s :
  serialize_prices prices = Ok fixed ->
  NoDup (dict_keys prices) -> Forall producible (dict_keys prices) ->
  dict_get prices key = Some v -> to_str key = Ok s ->
  dict_get fixed s = Some v.
Proof.
  intros Hrun Hnd Hp Hg Hs.
  eapply serialize_get; eauto using dict_get_In.
Qed.

End ParseAndSerialize.

Section Frame.

(** The frame of one run, on the structured table: a key that neither
    normalisation reports nor any constraint has on its right keeps its
    price to the end, and no message reports it as changed. *)
Lemma run_frame parsed normalized change_log final issues key s v :
  NoDup (dict_keys parsed) -> Forall producible (dict_keys parsed) ->
  apply_deductible_structure parsed = Ok (normalized, change_log) ->
  repair normalized ([] ++ change_log) = Ok (final, issues) ->
  dict_get parsed key = Some v ->
  to_str key = Ok s ->
  ~ In s (map changed_key change_log) ->
  (forall c, In c (build_constraints normalized) -> right c <> key) ->
  dict_keys final = dict_keys parsed
  /\ dict_get final key = Some v
  /\ ~ In s (map changed_key issues).
Proof.
  intros Hnd Hp Hnorm Hrep Hget Hs Hlog Hright.
  apply apply_deductible_structure_aligns in Hnorm as (Hk1 & e1 & Hl1 & Hv1).
  apply repair_repairs in Hrep as (Hk2 & Hv2 & e2 & Hl2 & Hm2).
  cbn [fst snd] in *. subst change_log. subst issues.
  split; [congruence|]. split.
  - rewrite Hv2 by assumption. rewrite (Hv1 key s) by assumption. assumption.
  - rewrite map_app, in_app_iff. intros [Hin|Hin]; [contradiction|].
    destruct (Hm2 _ Hin) as (c & Hc & Hcs).
    apply (Hright c Hc).
    pose proof (build_constraints_within normalized) as Hw.
    rewrite Forall_forall in Hw, Hp. destruct (Hw c Hc) as [_ Hr].
    eapply to_str_inj; eauto.
    + apply Hp. rewrite <- Hk1. assumption.
    + apply Hp. eapply dict_get_keys. eassumption.
Qed.

End Frame.

Section Geo.

Local Open Scope float_scope.

Variable float_pow : float -> float -> result float.

(** Raising to the power one returns the base. *)
Hypothesis PowOne : forall x, float_pow x 1.0 = Ok x.

Lemma country_factors_loop reference_wage (wages : dict string float) :
  is_zero reference_wage = false ->
  NoDup (dict_keys wages) ->
  forall d : dict string float, exists factors,
    for_each
      (fun factors kv =>
         let '(country_code, wage) := kv in
         relativity <- pyfloat.div wage reference_wage ;;
         factor <- float_pow relativity 1.0 ;;
         Ok (dict_set factors country_code factor))
      wages d = Ok factors
    /\ (forall c, ~ In c (dict_keys wages) -> dict_get factors c = dict_get d c)
    /\ (forall c w, In (c, w) wages -> dict_get factors c = Some (w / reference_wage)).
Proof.
  intros Hz. induction wages as [|[c0 w0] l IH]; intros Hnd d.
  - exists d. repeat split; intros ? ? []. 
  - inversion Hnd as [|? ? Hnot Hnd']; subst.
    cbn [for_each]. unfold pyfloat.div at 1. rewrite Hz. cbn [bind].
    rewrite PowOne. cbn [bind].
    destruct (IH Hnd' (dict_set d c0 (w0 / reference_wage)))
      as (factors & Hrun & Hout & Hin).
    exists factors. split; [exact Hrun|]. split.
    + intros c Hc. rewrite Hout by (intros ?; apply Hc; right; assumption).
      apply dict_get_set_other. intros ->. apply Hc. left. reflexivity.
    + intros c w [[= -> ->]|Hcw]; [|auto].
      rewrite Hout by assumption. apply dict_get_set_same.
Qed.

Lemma country_factor_of wages reference_country target reference_wage wage :
  NoDup (dict_keys wages) ->
  dict_get wages reference_country = Some reference_wage ->
  is_zero reference_wage = false ->
  dict_get wages target = Some wage ->
  exists factors,
    geo_pricing.compute_country_factors float_pow wages reference_country 1.0
    = Ok factors
    /\ dict_get factors target = Some (wage / reference_wage).
Proof.
  intros Hnd Href Hz Ht. unfold geo_pricing.compute_country_factors, dict_item.
  rewrite Href. cbn [bind].
  destruct (country_factors_loop reference_wage wages Hz Hnd [])
    as (factors & Hrun & _ & Hin).
  exists factors. split; [exact Hrun|]. apply Hin. apply dict_get_In. assumption.
Qed.

End Geo.

(** * Every change is reported *)

Section Reporting.

Lemma repair_step_aligns st c st' : repair_step st c = Ok st' -> aligns st st'.
Proof.
  unfold repair_step. destruct st as [prices issues].
  destruct (dict_item prices (left c)) as [left_price|]; [|discriminate].
  cbn [bind]. unfold dict_item at 1.
  destruct (dict_get prices (right c)) as [right_price|] eqn:Hr; [|discriminate].
  cbn [bind]. destruct (PrimFloat.ltb _ _); [|intros [= <-]; apply aligns_refl].
  destruct (round_to_step _ _) as [new_price|]; [|discriminate]. cbn [bind].
  destruct (to_str (right c)) as [right_str|] eqn:Hrs; [|discriminate]. cbn [bind].
  destruct (to_str (left c)) as [left_str|]; [|discriminate]. cbn [bind].
  intros [= <-]. split; cbn [fst snd].
  - eapply dict_keys_set_present, dict_get_keys, Hr.
  - eexists. split; [reflexivity|]. intros key s Hs Hn.
    apply dict_get_set_other. intros <-. apply Hn. left. cbn. congruence.
Qed.

Lemma repair_aligns prices issues st' :
  repair prices issues = Ok st' -> aligns (prices, issues) st'.
Proof.
  unfold repair. destruct (sorted _ _) as [cs|]; [|discriminate]. cbn [bind].
  apply for_each_rel; [apply aligns_refl | apply aligns_trans|].
  intros s c s' _. apply repair_step_aligns.
Qed.

Lemma quiet_refl st : quiet st st.
Proof. exists []. split; [now rewrite app_nil_r | reflexivity]. Qed.

Lemma quiet_trans a b c : quiet a b -> quiet b c -> quiet a c.
Proof.
  intros (e1 & Hl1 & Hq1) (e2 & Hl2 & Hq2). exists (e1 ++ e2).
  split; [rewrite Hl2, Hl1; symmetry; apply app_assoc|].
  intros He. apply app_eq_nil in He as [-> ->]. rewrite Hq2, Hq1; reflexivity.
Qed.

Lemma quiet_report (st : pipeline_state) prices' (i : issue) :
  quiet st (prices', snd st ++ [i]).
Proof. exists [i]. split; [reflexivity | discriminate]. Qed.

Lemma align_deductible_quiet product variant base_key base_price st d st' :
  align_deductible product variant base_key base_price st d = Ok st' ->
  quiet st st'.
Proof.
  unfold align_deductible. destruct st as [prices change_log].
  destruct (dict_mem prices _); cbn [negb]; [|intros [= <-]; apply quiet_refl].
  destruct (dict_item DEDUCTIBLE_DISCOUNTS d) as [factor|]; [|discriminate].
  cbn [bind]. destruct (dict_item prices _) as [old_price|]; [|discriminate].
  cbn [bind].
  destruct (round_to_step _ _) as [new_price|]; [|discriminate]. cbn [bind].
  destruct (PrimFloat.ltb _ _); [|intros [= <-]; apply quiet_refl].
  destruct (to_str _) as [key_str|]; [|discriminate]. cbn [bind].
  destruct (to_str base_key) as [base_str|]; [|discriminate]. cbn [bind].
  intros [= <-]. apply (quiet_report (prices, change_log)).
Qed.

Lemma apply_deductible_structure_quiet prices normalized change_log :
  apply_deductible_structure prices = Ok (normalized, change_log) ->
  quiet (prices, []) (normalized, change_log).
Proof.
  unfold apply_deductible_structure.
  apply for_each_rel; [apply quiet_refl | apply quiet_trans|].
  intros s product s' _.
  apply for_each_rel; [apply quiet_refl | apply quiet_trans|].
  intros st variant st' _. unfold align_variant.
  destruct (dict_mem _ _); cbn [negb]; [|intros [= <-]; apply quiet_refl].
  destruct (dict_item _ _) as [base_price|]; [|discriminate]. cbn [bind].
  apply for_each_rel; [apply quiet_refl | apply quiet_trans|].
  intros ? ? ? _. apply align_deductible_quiet.
Qed.

Lemma repair_quiet prices issues st' :
  repair prices issues = Ok st' -> quiet (prices, issues) st'.
Proof.
  unfold repair. destruct (sorted _ _) as [cs|]; [|discriminate]. cbn [bind].
  apply for_each_rel; [apply quiet_refl | apply quiet_trans|].
  intros [prices0 issues0] c s' _. unfold repair_step.
  destruct (dict_item prices0 (left c)) as [left_price|]; [|discriminate].
  cbn [bind]. destruct (dict_item prices0 (right c)) as [right_price|]; [|discriminate].
  cbn [bind]. destruct (PrimFloat.ltb _ _); [|intros [= <-]; apply quiet_refl].
  destruct (round_to_step _ _) as [new_price|]; [|discriminate]. cbn [bind].
  destruct (to_str (right c)) as [right_str|]; [|discriminate]. cbn [bind].
  destruct (to_str (left c)) as [left_str|]; [|discriminate]. cbn [bind].
  intros [= <-]. apply (quiet_report (prices0, issues0)).
Qed.

(** The stages of a successful run. *)
Lemma validate_stages raw_prices fixed issues :
  validate_and_fix_prices raw_prices = Ok (fixed, issues) ->
  exists parsed normalized change_log final,
    parse_prices raw_prices = Ok parsed
    /\ apply_deductible_structure parsed = Ok (normalized, change_log)
    /\ repair normalized ([] ++ change_log) = Ok (final, issues)
    /\ serialize_prices final = Ok fixed.
Proof.
  unfold validate_and_fix_prices. intros Hrun.
  destruct (parse_prices raw_prices) as [parsed|] eqn:Hparse; [|discriminate].
  cbn [bind] in Hrun.
  destruct (apply_deductible_structure parsed) as [[normalized change_log]|] eqn:Hnorm;
    [|discriminate]. cbn [bind] in Hrun.
  destruct (repair normalized ([] ++ change_log)) as [[final issues']|] eqn:Hrep;
    [|discriminate]. cbn [bind] in Hrun.
  destruct (serialize_prices final) as [fixed'|] eqn:Hser; [|discriminate].
  cbn [bind] in Hrun. injection Hrun as <- <-.
  exists parsed, normalized, change_log, final.
  split; [reflexivity|]. split; [assumption|]. split; assumption.
Qed.

Lemma run_aligns parsed normalized change_log final issues :
  apply_deductible_structure parsed = Ok (normalized, change_log) ->
  repair normalized ([] ++ change_log) = Ok (final, issues) ->
  aligns (parsed, []) (final, issues).
Proof.
  intros Hnorm Hrep. eapply aligns_trans.
  - apply apply_deductible_structure_aligns. eassumption.
  - apply repair_aligns in Hrep. exact Hrep.
Qed.

Lemma run_quiet parsed normalized change_log final issues :
  apply_deductible_structure parsed = Ok (normalized, change_log) ->
  repair normalized ([] ++ change_log) = Ok (final, issues) ->
  quiet (parsed, []) (final, issues).
Proof.
  intros Hnorm Hrep. eapply quiet_trans.
  - apply apply_deductible_structure_quiet. eassumption.
  - apply repair_quiet in Hrep. exact Hrep.
Qed.

End Reporting.

(** * The table as a list: what parsing and serialising build *)

Section Shapes.

Lemma dict_set_fresh {K V : Type} `{Eqb K} (d : dict K V) k v :
  ~ In k (dict_keys d) -> dict_set d k v = d ++ [(k, v)].
Proof.
  induction d as [|[k0 v0] d IH]; simpl; intros Hk; [reflexivity|].
  destruct (eqb_spec k0 k) as [->|Hn]; [tauto|]. f_equal. apply IH. tauto.
Qed.

(** Inserting, in order, items whose keys are new and pairwise different
    appends them in that order. *)
Lemma for_each_fresh {K1 K2 V : Type} `{Eqb K2}
  (f : K1 -> result K2) (g : K1 -> K2) (l : list (K1 * V)) :
  forall d : dict K2 V,
    (forall k, In k (map fst l) -> f k = Ok (g k)) ->
    NoDup (dict_keys d ++ map g (map fst l)) ->
    for_each (fun d kv => key <- f (fst kv) ;; Ok (dict_set d key (snd kv))) l d
    = Ok (d ++ map (fun kv => (g (fst kv), snd kv)) l).
Proof.
  induction l as [|[k v] l IH]; intros d Hf Hnd.
  - cbn. now rewrite app_nil_r.
  - cbn [for_each fst snd map]. rewrite (Hf k) by (left; reflexivity). cbn [bind].
    cbn [map fst] in Hnd.
    rewrite dict_set_fresh.
    2:{ intros Hin. apply NoDup_remove_2 in Hnd. apply Hnd, in_or_app. auto. }
    rewrite IH.
    + rewrite <- app_assoc. reflexivity.
    + intros k' Hk'. apply Hf. right. assumption.
    + unfold dict_keys in *. rewrite map_app, <- app_assoc. exact Hnd.
Qed.

Lemma producible_spelling key :
  producible key ->
  to_str key = Ok (spelling key) /\ from_str (spelling key) = Ok key.
Proof.
  intros [raw Hraw]. destruct (to_str_from_str _ _ Hraw) as (s & Hs & Hf).
  unfold spelling. rewrite Hs. auto.
Qed.

Lemma reading_spelling key : producible key -> reading (spelling key) = key.
Proof.
  intros Hp. apply producible_spelling in Hp as [_ Hf]. unfold reading. now rewrite Hf.
Qed.

Lemma canonical_reading raw :
  canonical raw ->
  from_str raw = Ok (reading raw) /\ spelling (reading raw) = raw.
Proof.
  intros (key & Hk & Hs). unfold reading, spelling. rewrite Hk, Hs. auto.
Qed.

Lemma NoDup_map_on {A B : Type} (f : A -> B) (l : list A) :
  (forall x y, In x l -> In y l -> f x = f y -> x = y) ->
  NoDup l -> NoDup (map f l).
Proof.
  induction l as [|a l IH]; intros Hinj Hnd; [constructor|].
  inversion Hnd as [|? ? Hnot Hnd']; subst. cbn [map]. constructor.
  - intros Hin. apply in_map_iff in Hin as (b & Hfb & Hb).
    apply Hnot. replace a with b; [assumption|].
    apply Hinj; [right; assumption | left; reflexivity | assumption].
  - apply IH; [|assumption]. intros x y Hx Hy. apply Hinj; right; assumption.
Qed.

Lemma serialize_prices_shape (prices : price_table) :
  NoDup (dict_keys prices) -> Forall producible (dict_keys prices) ->
  serialize_prices prices
  = Ok (map (fun kv => (spelling (fst kv), snd kv)) prices).
Proof.
  intros Hnd Hp. rewrite Forall_forall in Hp.
  unfold serialize_prices. rewrite (for_each_fresh to_str spelling); [reflexivity| |].
  - intros k Hk. apply producible_spelling, Hp, Hk.
  - cbn [dict_keys map app]. apply NoDup_map_on; [|assumption].
    intros x y Hx Hy Hxy.
    rewrite <- (reading_spelling x), <- (reading_spelling y) by auto. now rewrite Hxy.
Qed.

Lemma parse_prices_serialized (prices : price_table) :
  NoDup (dict_keys prices) -> Forall producible (dict_keys prices) ->
  parse_prices (map (fun kv => (spelling (fst kv), snd kv)) prices) = Ok prices.
Proof.
  intros Hnd Hp. rewrite Forall_forall in Hp.
  unfold parse_prices. rewrite (for_each_fresh from_str reading).
  - cbn [app]. rewrite map_map. cbn [fst snd]. apply f_equal.
    rewrite <- (map_id prices) at 2. apply map_ext_in.
    intros [k v] Hin. cbn [fst snd]. rewrite reading_spelling; [reflexivity|].
    apply Hp. change k with (fst (k, v)). apply in_map. assumption.
  - intros k Hk. rewrite map_map in Hk. cbn [fst] in Hk.
    apply in_map_iff in Hk as ([k0 v0] & <- & Hin). cbn [fst].
    unfold reading. destruct (producible_spelling k0) as [_ ->]; [|reflexivity].
    apply Hp. change k0 with (fst (k0, v0)). apply in_map. assumption.
  - cbn [dict_keys map app]. rewrite !map_map. cbn [fst].
    replace (map (fun x : PriceKey * float => reading (spelling (fst x))) prices)
      with (dict_keys prices); [assumption|].
    unfold dict_keys. apply map_ext_in. intros [k v] Hin. cbn [fst].
    rewrite reading_spelling; [reflexivity|].
    apply Hp. change k with (fst (k, v)). apply in_map. assumption.
Qed.

Lemma parse_prices_canonical (raw_prices : dict string float) :
  NoDup (dict_keys raw_prices) -> Forall canonical (dict_keys raw_prices) ->
  parse_prices raw_prices
  = Ok (map (fun kv => (reading (fst kv), snd kv)) raw_prices).
Proof.
  intros Hnd Hc. rewrite Forall_forall in Hc.
  unfold parse_prices. rewrite (for_each_fresh from_str reading); [reflexivity| |].
  - intros k Hk. apply canonical_reading, Hc, Hk.
  - cbn [dict_keys map app]. apply NoDup_map_on; [|assumption].
    intros x y Hx Hy Hxy.
    destruct (canonical_reading x (Hc x Hx)) as [_ <-].
    destruct (canonical_reading y (Hc y Hy)) as [_ <-]. now rewrite Hxy.
Qed.

End Shapes.

(** * The processing order *)

Section Order.

Lemma generated_kind prices c :
  generated prices c -> classify_constraint (description c) = expected_kind c.
Proof.
  intros [key _ _ Hlc | key _ Hlc _
         | product deductible lower upper wording Hp Hd Hs _ _];
    unfold expected_kind; cbn [left right description].
  - rewrite Hlc. reflexivity.
  - rewrite Hlc. reflexivity.
  - unfold PRODUCTS_WITH_VARIANTS, DEDUCTIBLES, variant_steps in *.
    cbn [In] in Hp, Hd, Hs.
    destruct Hp as [<-|[<-|[]]];
      destruct Hd as [<-|[<-|[<-|[]]]];
      destruct Hs as [[= <- <- <-]|[[= <- <- <-]|[[= <- <- <-]|[]]]];
      vm_compute; reflexivity.
Qed.

Lemma insert_by_key_sorted {A : Type} (x : Z * A) l :
  StronglySorted (fun a b => (fst a <= fst b)%Z) l ->
  StronglySorted (fun a b => (fst a <= fst b)%Z) (insert_by_key x l).
Proof.
  induction l as [|y l IH]; intros Hs; cbn [insert_by_key].
  - constructor; constructor.
  - inversion Hs as [|? ? Hl Hy]; subst.
    destruct (Z.leb_spec (fst x) (fst y)) as [Hle|Hgt].
    + constructor; [assumption|]. constructor; [assumption|].
      rewrite Forall_forall in *. intros z Hz. specialize (Hy z Hz). lia.
    + constructor; [auto|]. rewrite Forall_forall in *. intros z Hz.
      destruct (insert_by_key_In _ _ _ Hz) as [->|Hz']; [lia | auto].
Qed.

Lemma insert_by_key_perm {A : Type} (x : Z * A) l :
  Permutation (x :: l) (insert_by_key x l).
Proof.
  induction l as [|y l IH]; cbn [insert_by_key]; [reflexivity|].
  destruct (fst x <=? fst y)%Z; [reflexivity|].
  rewrite perm_swap. constructor. exact IH.
Qed.

Lemma map_result_Forall2 {A B : Type} (f : A -> result B) xs : forall ys,
  map_result f xs = Ok ys -> Forall2 (fun x y => f x = Ok y) xs ys.
Proof.
  induction xs as [|x xs IH]; intros ys Hm; cbn [map_result] in Hm.
  - injection Hm as <-. constructor.
  - destruct (f x) as [y|] eqn:Hy; [|discriminate]. cbn [bind] in Hm.
    destruct (map_result f xs) as [ys'|]; [|discriminate]. cbn [bind] in Hm.
    injection Hm as <-. constructor; auto.
Qed.

Lemma combine_Forall2 {A B : Type} (R : A -> B -> Prop) xs ks :
  Forall2 R xs ks ->
  map snd (combine ks xs) = xs /\ Forall (fun kx => R (snd kx) (fst kx)) (combine ks xs).
Proof.
  induction 1 as [|x k xs ks Hxk _ [IH1 IH2]]; cbn [combine map snd]; [split; constructor|].
  split; [now rewrite IH1 | constructor; assumption].
Qed.

Lemma insertion_sort_perm {A : Type} (l : list (Z * A)) :
  Permutation l (fold_right insert_by_key [] l).
Proof.
  induction l as [|p l IH]; cbn [fold_right]; [reflexivity|].
  rewrite <- insert_by_key_perm. constructor. exact IH.
Qed.

Lemma insertion_sort_sorted {A : Type} (l : list (Z * A)) :
  StronglySorted (fun a b => (fst a <= fst b)%Z) (fold_right insert_by_key [] l).
Proof.
  induction l as [|p l IH]; cbn [fold_right]; [constructor|].
  apply insert_by_key_sorted, IH.
Qed.

Lemma keyed_Forall2 {A : Type} (key : A -> result Z) (l : list (Z * A)) :
  Forall (fun kx => key (snd kx) = Ok (fst kx)) l ->
  Forall2 (fun x k => key x = Ok k) (map snd l) (map fst l).
Proof. induction 1; cbn [map]; constructor; assumption. Qed.

Lemma keyed_sorted {A : Type} (l : list (Z * A)) :
  StronglySorted (fun a b => (fst a <= fst b)%Z) l ->
  StronglySorted Z.le (map fst l).
Proof.
  induction 1 as [|a l Hl IH Ha]; cbn [map]; constructor; [assumption|].
  rewrite Forall_forall in *. intros k Hin.
  apply in_map_iff in Hin as (b & <- & Hb). auto.
Qed.

(** [sorted] returns a permutation of its argument whose keys ascend. *)
Lemma sorted_spec {A : Type} (key : A -> result Z) xs ys :
  sorted key xs = Ok ys ->
  Permutation xs ys
  /\ exists ks, Forall2 (fun x k => key x = Ok k) ys ks
                /\ StronglySorted Z.le ks.
Proof.
  unfold sorted. destruct (map_result key xs) as [keys|] eqn:Hk; [|discriminate].
  cbn [bind]. intros [= <-].
  apply map_result_Forall2 in Hk. apply combine_Forall2 in Hk as [Hsnd Hall].
  pose proof (insertion_sort_perm (combine keys xs)) as Hperm.
  pose proof (insertion_sort_sorted (combine keys xs)) as Hsort.
  split.
  - rewrite <- Hsnd at 1. apply Permutation_map. exact Hperm.
  - exists (map fst (fold_right insert_by_key [] (combine keys xs))). split.
    + apply keyed_Forall2. rewrite Forall_forall in *. intros kx Hin. apply Hall.
      eapply Permutation_in; [symmetry; exact Hperm | exact Hin].
    + apply keyed_sorted. exact Hsort.
Qed.

Lemma StronglySorted_suffix {A : Type} (R : A -> A -> Prop) (l1 l2 : list A) :
  StronglySorted R (l1 ++ l2) -> StronglySorted R l2.
Proof.
  induction l1 as [|a l1 IH]; cbn [app]; [trivial|].
  intros Hs. apply StronglySorted_inv in Hs as [Hs _]. auto.
Qed.

(** Once the repair loop has read the left price of a constraint, neither
    that step nor a later one writes that key. *)
Lemma sorted_constraints_order (prices : price_table) cs before c after :
  sorted (fun c => price_key_rank (left c)) (build_constraints prices) = Ok cs ->
  cs = before ++ c :: after ->
  Forall (fun c' => right c' <> left c) (c :: after).
Proof.
  intros Hs ->. apply sorted_spec in Hs as (Hperm & ks & Hks & Hsorted).
  apply Forall2_app_inv_l in Hks as (ks1 & ks2 & _ & Hks2 & ->).
  inversion Hks2 as [|? k ? ks3 Hk Hks3]; subst.
  apply StronglySorted_suffix in Hsorted.
  inversion Hsorted as [|? ? _ Hle]; subst.
  assert (Hup : forall c', In c' (c :: after) -> rank_increases c').
  { intros c' Hin. eapply generated_rank_increases, build_constraints_generated.
    eapply Permutation_in; [symmetry; exact Hperm|]. apply in_or_app. right. exact Hin. }
  assert (Hge : forall c' rl, In c' (c :: after) ->
                              price_key_rank (left c') = Ok rl -> (k <= rl)%Z).
  { intros c' rl [<-|Hin] Hrl; [rewrite Hk in Hrl; injection Hrl as <-; lia|].
    clear -Hin Hrl Hks3 Hle. induction Hks3 as [|x k' xs ks' Hxk _ IH].
    - destruct Hin.
    - inversion Hle as [|? ? Hk' Hle']; subst. destruct Hin as [<-|Hin].
      + rewrite Hxk in Hrl. injection Hrl as <-. assumption.
      + apply IH; assumption. }
  apply Forall_forall. intros c' Hin Heq.
  destruct (Hup c' Hin) as (rl & rr & Hrl & Hrr & Hlt).
  rewrite Heq, Hk in Hrr. injection Hrr as <-.
  specialize (Hge c' rl Hin Hrl). lia.
Qed.

End Order.

(** * The properties the specification states *)

Section Stated.

Local Open Scope float_scope.

(** C1 (not met by the code). After the pass every generated constraint
    should hold with its margin, [fixed[right] >= (1 + margin) * fixed[left]].
    On [{"mtpl": 500, "limited_casco_basic_100": 450, "casco_basic_100": 480}]
    (the input of the repository's product-level unit test) the product
    constraint limited_casco_basic_100 < casco_basic_100 is generated and
    repaired: the left price is 550, the required price [550 * 1.1] is 605,
    and the price written is [round_to_step(605) = 10 * round(60.5) = 600],
    below the margin. *)
Theorem repair_rounds_below_margin :
  let raw :=
    [("mtpl", 500); ("limited_casco_basic_100", 450); ("casco_basic_100", 480)] in
  let limited := mkPriceKey "limited_casco" (Some "basic") (Some 100%Z) in
  let casco := mkPriceKey "casco" (Some "basic") (Some 100%Z) in
  let rule :=
    mkConstraint limited casco
      "Casco must be more expensive than Limited Casco for the same variant and deductible" in
  (exists parsed normalized change_log,
      parse_prices raw = Ok parsed
      /\ apply_deductible_structure parsed = Ok (normalized, change_log)
      /\ In rule (build_constraints normalized))
  /\ classify_constraint (description rule) = kind_product
  /\ validate_and_fix_prices raw
     = Ok ([("mtpl", 500); ("limited_casco_basic_100", 550); ("casco_basic_100", 600)],
           [Adjusted "limited_casco_basic_100" 450 550
              "MTPL must be cheaper than Limited Casco" PRODUCT_MARGIN "mtpl" 500;
            Adjusted "casco_basic_100" 480 600
              "Casco must be more expensive than Limited Casco for the same variant and deductible"
              PRODUCT_MARGIN "limited_casco_basic_100" 550])
  /\ (600 <? (1.0 + PRODUCT_MARGIN) * 550) = true
  /\ (1.0 + PRODUCT_MARGIN) * 550 = 605.
Proof.
  cbv zeta. split; [|repeat split; vm_compute; reflexivity].
  do 3 eexists. split; [vm_compute; reflexivity|].
  split; [vm_compute; reflexivity|]. vm_compute. auto.
Qed.

(** C2 (not met by the code). After the pass every generated constraint
    should hold strictly, [fixed[left] < fixed[right]]. On
    [{"limited_casco_basic_100": 100, "limited_casco_comfort_100": 50}]
    the variant constraint basic < comfort is generated, comfort is
    raised to [round_to_step(105.0) = 100] (the tie 10.5 goes to the even
    10), and the two prices end equal. *)
Theorem repair_leaves_equal_prices :
  let raw := [("limited_casco_basic_100", 100); ("limited_casco_comfort_100", 50)] in
  let basic := mkPriceKey "limited_casco" (Some "basic") (Some 100%Z) in
  let comfort := mkPriceKey "limited_casco" (Some "comfort") (Some 100%Z) in
  (exists parsed normalized change_log,
      parse_prices raw = Ok parsed
      /\ apply_deductible_structure parsed = Ok (normalized, change_log)
      /\ map (fun c => (left c, right c)) (build_constraints normalized)
         = [(basic, comfort)])
  /\ (exists issues,
        validate_and_fix_prices raw
        = Ok ([("limited_casco_basic_100", 100); ("limited_casco_comfort_100", 100)],
              issues))
  /\ (100 <? 100) = false.
Proof.
  cbv zeta. split; [|split; [eexists|]; vm_compute; reflexivity].
  do 3 eexists. repeat split; vm_compute; reflexivity.
Qed.

(** C3 (not met by the code). Running the validator on its own output
    should return that output and no issues. The output of the first run
    on [{"limited_casco_basic_100": 1000, "casco_basic_100": 500,
    "casco_basic_200": 450}] has casco_basic_100 raised to 1100; the
    second run re-aligns casco_basic_200 from 450 to 990 and reports it. *)
Theorem second_run_changes_fixed_table :
  let raw :=
    [("limited_casco_basic_100", 1000); ("casco_basic_100", 500);
     ("casco_basic_200", 450)] in
  let fixed :=
    [("limited_casco_basic_100", 1000); ("casco_basic_100", 1100);
     ("casco_basic_200", 450)] in
  (exists issues, validate_and_fix_prices raw = Ok (fixed, issues))
  /\ validate_and_fix_prices fixed
     = Ok ([("limited_casco_basic_100", 1000); ("casco_basic_100", 1100);
            ("casco_basic_200", 990)],
           [Aligned "casco_basic_200" 450 990 "casco_basic_100" 1100])
  /\ (450 =? 990) = false.
Proof.
  cbv zeta. split; [eexists|split]; vm_compute; reflexivity.
Qed.

(** C4 (not met by the code). With a 100-deductible anchor the final
    prices should fall strictly with the deductible. On
    [{"mtpl": 1000, "limited_casco_basic_100": 800,
    "limited_casco_basic_200": 700}] normalisation sets the 200 price to
    720, then the repair pass lifts both limited_casco prices to 1100 for
    the MTPL rule, and the ladder is flat in the output. *)
Theorem repair_flattens_deductible_ladder :
  let raw :=
    [("mtpl", 1000); ("limited_casco_basic_100", 800);
     ("limited_casco_basic_200", 700)] in
  exists fixed issues,
    validate_and_fix_prices raw = Ok (fixed, issues)
    /\ dict_get fixed "limited_casco_basic_100" = Some 1100
    /\ dict_get fixed "limited_casco_basic_200" = Some 1100
    /\ (1100 <? 1100) = false.
Proof.
  cbv zeta. do 2 eexists. repeat split; vm_compute; reflexivity.
Qed.

(** C5 (not met by the code). Every update of the repair pass should
    raise the price it replaces. On
    [{"mtpl": 404, "limited_casco_basic_200": 444}] the key has no
    100-deductible anchor, so normalisation leaves 444; the MTPL rule
    requires 444.4, and the repair writes [round_to_step(444.4) = 440],
    which is lower than the 444 it replaces. *)
Theorem repair_lowers_a_price :
  validate_and_fix_prices [("mtpl", 404); ("limited_casco_basic_200", 444)]
  = Ok ([("mtpl", 404); ("limited_casco_basic_200", 440)],
        [Adjusted "limited_casco_basic_200" 444 440
           "MTPL must be cheaper than Limited Casco" PRODUCT_MARGIN "mtpl" 404])
  /\ (440 <? 444) = true.
Proof. split; vm_compute; reflexivity. Qed.

(** C6. Round trip of the key model: a key that [from_str] returns for
    some raw string is serialised by [to_str], and parsing the
    serialisation gives the same key. *)
Theorem from_str_to_str_round_trip raw key :
  from_str raw = Ok key ->
  exists s, to_str key = Ok s /\ from_str s = Ok key.
Proof. apply to_str_from_str. Qed.

Lemma from_str_to_str_round_trip_witness :
  exists s,
    to_str (mkPriceKey "casco" (Some "basic") (Some 1000%Z)) = Ok s
    /\ from_str s = Ok (mkPriceKey "casco" (Some "basic") (Some 1000%Z)).
Proof.
  apply (from_str_to_str_round_trip "casco_basic_1_000"). reflexivity.
Defined.

(** C7 (amended). [from_str] succeeds on a raw key exactly when the key
    is one of those it takes, and otherwise raises a [ValueError]; a key is
    refused exactly when its prefix is not recognized, nothing but one
    segment follows the prefix, or [int()] does not take what follows the
    variant; every key of the three shapes as the specification words
    them is taken; and [validate_and_fix_prices] raises a [ValueError],
    and so returns no table, on any input that holds a refused key.  The
    keys taken are more than the three shapes as worded: see the theorem
    that follows. *)
Theorem from_str_raises_exactly_outside_what_it_takes (raw : string) :
  ((exists key, from_str raw = Ok key) <-> taken_shape raw)
  /\ ((exists e, from_str raw = Raise e /\ is_ValueError e = true)
      <-> ~ taken_shape raw)
  /\ (~ taken_shape raw <-> refused_shape raw)
  /\ (worded_shape raw -> exists key, from_str raw = Ok key)
  /\ (forall (raw_prices : dict string float) price,
        In (raw, price) raw_prices -> ~ taken_shape raw ->
        exists e, validate_and_fix_prices raw_prices = Raise e
                  /\ is_ValueError e = true).
Proof.
  split; [symmetry; apply from_str_accepts|].
  split; [symmetry; apply not_accepted_raises|]. split; [|split].
  - split.
    + intros Hn. apply not_accepted_raises in Hn as (e & He & _).
      eapply raises_refused_shape; eassumption.
    + intros Hr. apply refused_shape_raises in Hr as [e He].
      apply not_accepted_raises. exists e. split; [assumption|].
      eapply from_str_raises_ValueError; eassumption.
  - intros Hw. apply from_str_accepts, worded_shape_taken, Hw.
  - intros raw_prices price Hin Hn.
    destruct (parse_prices_raises raw_prices [] raw price Hin Hn) as (e & He & Hv).
    exists e. split; [|assumption].
    unfold validate_and_fix_prices, parse_prices. rewrite He. reflexivity.
Qed.

(** C7, as worded, is not met: [from_str] raises on fewer keys than those
    outside the three shapes.  It returns a key for
    ["casco_basic_ 100 "], where [int()] trims the blanks around the
    deductible, and for ["casco__100"], where the variant segment is
    empty; neither is of a worded shape. *)
Theorem from_str_takes_keys_outside_the_worded_shapes :
  from_str "casco_basic_ 100 "
  = Ok (mkPriceKey "casco" (Some "basic") (Some 100%Z))
  /\ ~ worded_shape "casco_basic_ 100 "
  /\ from_str "casco__100"
     = Ok (mkPriceKey "casco" (Some EmptyString) (Some 100%Z))
  /\ ~ worded_shape "casco__100".
Proof.
  split; [reflexivity|]. split; [|split; [reflexivity|]].
  - intros [H | [(v & d & H & _ & _ & _) | (v & d & H & Hne & Hv & Hd)]];
      [discriminate | cbn in H; discriminate |].
    apply (worded_casco_cut "basic_ 100 ") in H; [|exact Hv].
    vm_compute in H. injection H as <- <-.
    destruct Hd as (sign & digits & Hs & [-> | ->] & _ & Hall).
    + cbn [append] in Hs. subst digits. discriminate.
    + cbn [append] in Hs. discriminate.
  - intros [H | [(v & d & H & _ & _ & _) | (v & d & H & Hne & Hv & Hd)]];
      [discriminate | cbn in H; discriminate |].
    apply (worded_casco_cut "_100") in H; [|exact Hv].
    vm_compute in H. injection H as <- <-. apply Hne. reflexivity.
Qed.

(** C8 (not met by the code). The output should have the key set of the
    input, and an empty issue list should mean the output is the input.
    On [{"casco_basic_0100": 500.0}] the key parses ([int("0100")] is 100),
    nothing is changed or reported, and the output holds the key
    ["casco_basic_100"] instead. *)
Theorem fixed_table_respells_keys :
  let raw := [("casco_basic_0100", 500)] in
  validate_and_fix_prices raw = Ok ([("casco_basic_100", 500)], [])
  /\ dict_keys raw = ["casco_basic_0100"%string]
  /\ String.eqb "casco_basic_0100" "casco_basic_100" = false.
Proof. cbv zeta. repeat split; vm_compute; reflexivity. Qed.

(** C9 (not met by the code). A key that normalisation does not rewrite
    and that is the right side of no generated constraint should have in
    the output the price it has in the input.  On
    [{"casco_basic_100": 10.0, "casco_basic_0100": 20.0}] both keys parse
    to the same structured key ([int("0100")] is 100) and the second
    price replaces the first; normalisation rewrites nothing, no
    constraint is generated and nothing is reported, yet the output holds
    20 under ["casco_basic_100"], where the input has 10. *)
Theorem colliding_spelling_replaces_an_untouched_price :
  let raw := [("casco_basic_100", 10); ("casco_basic_0100", 20)] in
  let key := mkPriceKey "casco" (Some "basic") (Some 100%Z) in
  parse_prices raw = Ok [(key, 20)]
  /\ apply_deductible_structure [(key, 20)] = Ok ([(key, 20)], [])
  /\ build_constraints [(key, 20)] = []
  /\ validate_and_fix_prices raw = Ok ([("casco_basic_100", 20)], [])
  /\ dict_get raw "casco_basic_100" = Some 10
  /\ (10 =? 20)%float = false.
Proof. cbv zeta. repeat split; vm_compute; reflexivity. Qed.

(** C10. Geo scenario: in a wage table that gives the reference country
    2000 and the target country 930, [compute_country_factors] with
    [alpha = 1] gives the target the factor [930 / 2000], which is the
    float 0.465; [adjust_prices_for_country] with these factors turns a
    price of 400 into 185, the multiple of 5 nearest to 186. *)
Theorem geo_scenario_wage_ratio
  (float_pow : float -> float -> result float)
  (wages : dict string float) (reference_country target : string) :
  (forall x, float_pow x 1.0 = Ok x) ->
  NoDup (dict_keys wages) ->
  dict_get wages reference_country = Some 2000 ->
  dict_get wages target = Some 930 ->
  exists factors,
    geo_pricing.compute_country_factors float_pow wages reference_country 1.0
    = Ok factors
    /\ dict_get factors target = Some 0.465
    /\ forall key : string,
         geo_pricing.adjust_prices_for_country [(key, 400)] target factors
         = Ok [(key, 185)].
Proof.
  intros PowOne Hnd Href Ht.
  destruct (country_factor_of float_pow PowOne wages reference_country target
              2000 930 Hnd Href eq_refl Ht) as (factors & Hrun & Hget).
  exists factors. split; [exact Hrun|]. split; [exact Hget|].
  intros key. unfold geo_pricing.adjust_prices_for_country, dict_get_default.
  rewrite Hget. reflexivity.
Qed.

Lemma geo_scenario_wage_ratio_witness :
  exists factors,
    geo_pricing.compute_country_factors (fun x _ => Ok x)
      geo_pricing.AVERAGE_NET_WAGE_EUR "ES" 1.0 = Ok factors
    /\ dict_get factors "RS" = Some 0.465
    /\ forall key : string,
         geo_pricing.adjust_prices_for_country [(key, 400)] "RS" factors
         = Ok [(key, 185)].
Proof.
  apply (geo_scenario_wage_ratio (fun x _ => Ok x)
           geo_pricing.AVERAGE_NET_WAGE_EUR "ES" "RS").
  - reflexivity.
  - repeat constructor; simpl; intuition discriminate.
  - reflexivity.
  - reflexivity.
Defined.

End Stated.

(** * One iteration owns a key *)

Section LoopOwner.
Context {A S : Type}.

(** When one element [x] of a loop over distinct elements is the only one
    whose iteration touches what [P] and [Q] speak of, the loop takes a
    state where [P] holds to one where [Q] holds, provided the iteration
    of [x] does. *)
Lemma for_each_owner (body : S -> A -> result S) (P Q : S -> Prop)
  (x : A) (xs : list A) :
  NoDup xs -> In x xs ->
  (forall s y s', y <> x -> P s -> body s y = Ok s' -> P s') ->
  (forall s s', P s -> body s x = Ok s' -> Q s') ->
  (forall s y s', y <> x -> Q s -> body s y = Ok s' -> Q s') ->
  forall s s', P s -> for_each body xs s = Ok s' -> Q s'.
Proof.
  intros Hnd Hin Hpre Hown Hpost. induction xs as [|y xs IH]; [destruct Hin|].
  inversion Hnd as [|? ? Hnot Hnd']; subst. intros s s' Hs Hrun.
  cbn [for_each] in Hrun. destruct (body s y) as [s1|e] eqn:Hb; [|discriminate].
  cbn [bind] in Hrun. destruct Hin as [->|Hin].
  - eapply (for_each_inv Q body xs); [| |exact Hrun].
    + intros s0 z s0' Hz Hq Hbz. eapply Hpost; [|exact Hq|exact Hbz].
      intros ->. contradiction.
    + eapply Hown; eassumption.
  - eapply IH; [assumption|assumption| |exact Hrun].
    eapply Hpre; [|exact Hs|exact Hb]. intros ->. contradiction.
Qed.

(** An exception of a loop is an exception of one of its iterations, taken
    in a state the invariant holds in. *)
Lemma for_each_raises (I : S -> Prop) (P : exn -> Prop)
  (body : S -> A -> result S) (xs : list A) :
  (forall s x s', In x xs -> I s -> body s x = Ok s' -> I s') ->
  (forall s x e, In x xs -> I s -> body s x = Raise e -> P e) ->
  forall s e, I s -> for_each body xs s = Raise e -> P e.
Proof.
  induction xs as [|x xs IH]; intros Hkeep Hraise s e Hs Hrun; [discriminate|].
  cbn [for_each] in Hrun. destruct (body s x) as [s1|e1] eqn:Hb; cbn [bind] in Hrun.
  - eapply IH; [| | |exact Hrun].
    + intros ? ? ? Hin. apply Hkeep. right; assumption.
    + intros ? ? ? Hin. apply Hraise. right; assumption.
    + eapply Hkeep; [left; reflexivity | exact Hs | exact Hb].
  - injection Hrun as <-. eapply Hraise; [left; reflexivity | exact Hs | exact Hb].
Qed.

End LoopOwner.

(** * What normalisation computes *)

Section Ladder.

Local Open Scope float_scope.

Lemma grid_key_inj p v d p' v' d' :
  grid_key p v d = grid_key p' v' d' -> p = p' /\ v = v' /\ d = d'.
Proof. intros [= -> -> ->]. auto. Qed.

Lemma align_deductible_other product variant base_key base_price st d st' key :
  align_deductible product variant base_key base_price st d = Ok st' ->
  key <> grid_key product variant d ->
  dict_get (fst st') key = dict_get (fst st) key.
Proof.
  unfold align_deductible. destruct st as [prices change_log].
  destruct (dict_mem prices _); cbn [negb]; [|intros [= <-]; reflexivity].
  destruct (dict_item DEDUCTIBLE_DISCOUNTS d) as [factor|]; [|discriminate].
  cbn [bind]. destruct (dict_item prices _) as [old_price|]; [|discriminate].
  cbn [bind].
  destruct (round_to_step _ _) as [new_price|]; [|discriminate]. cbn [bind].
  destruct (PrimFloat.ltb _ _); [|intros [= <-]; reflexivity].
  destruct (to_str _) as [key_str|]; [|discriminate]. cbn [bind].
  destruct (to_str base_key) as [base_str|]; [|discriminate]. cbn [bind].
  intros [= <-] Hn. cbn [fst]. apply dict_get_set_other.
  intros Heq. apply Hn. symmetry. exact Heq.
Qed.

Lemma align_deductible_at product variant base_key base_price st d st' old :
  align_deductible product variant base_key base_price st d = Ok st' ->
  dict_get (fst st) (grid_key product variant d) = Some old ->
  exists new,
    aligned_price base_price old d = Ok new
    /\ dict_get (fst st') (grid_key product variant d) = Some new.
Proof.
  unfold align_deductible, aligned_price. destruct st as [prices change_log].
  cbn [fst]. intros Hrun Hold.
  change (mkPriceKey product (Some variant) (Some d))
    with (grid_key product variant d) in Hrun.
  unfold dict_mem in Hrun. rewrite Hold in Hrun. cbn [negb] in Hrun.
  destruct (dict_item DEDUCTIBLE_DISCOUNTS d) as [factor|]; [|discriminate].
  cbn [bind] in *. unfold dict_item in Hrun. rewrite Hold in Hrun. cbn [bind] in Hrun.
  destruct (round_to_step _ _) as [new_price|]; [|discriminate]. cbn [bind] in *.
  destruct (PrimFloat.ltb _ _).
  - destruct (to_str _) as [key_str|]; [|discriminate]. cbn [bind] in Hrun.
    destruct (to_str base_key) as [base_str|]; [|discriminate]. cbn [bind] in Hrun.
    injection Hrun as <-. exists new_price. split; [reflexivity|].
    cbn [fst]. apply dict_get_set_same.
  - injection Hrun as <-. exists old. split; [reflexivity | exact Hold].
Qed.

Lemma align_variant_other product st variant st' key :
  align_variant product st variant = Ok st' ->
  (forall d, key <> grid_key product variant d) ->
  dict_get (fst st') key = dict_get (fst st) key.
Proof.
  unfold align_variant. destruct (dict_mem _ _); cbn [negb];
    [|intros [= <-]; reflexivity].
  destruct (dict_item _ _) as [base_price|]; [|discriminate]. cbn [bind].
  intros Hrun Hn. revert Hrun.
  apply (for_each_rel
           (fun s s' : pipeline_state => dict_get (fst s') key = dict_get (fst s) key)).
  - reflexivity.
  - intros a b c H1 H2. congruence.
  - intros s d s' _ Hb. eapply align_deductible_other; [exact Hb | apply Hn].
Qed.

Lemma align_variant_at product st variant st' d base old :
  In d DEDUCTIBLES ->
  align_variant product st variant = Ok st' ->
  dict_get (fst st) (grid_key product variant 100) = Some base ->
  dict_get (fst st) (grid_key product variant d) = Some old ->
  exists new,
    aligned_price base old d = Ok new
    /\ dict_get (fst st') (grid_key product variant d) = Some new.
Proof.
  intros Hd. unfold align_variant.
  change (mkPriceKey product (Some variant) (Some 100%Z))
    with (grid_key product variant 100).
  intros Hrun Hbase Hold. unfold dict_mem, dict_item in Hrun.
  rewrite Hbase in Hrun. cbn [negb bind] in Hrun. revert Hold Hrun.
  apply (for_each_owner
           (align_deductible product variant (grid_key product variant 100) base)
           (fun s : pipeline_state =>
              dict_get (fst s) (grid_key product variant d) = Some old)
           (fun s : pipeline_state =>
              exists new,
                aligned_price base old d = Ok new
                /\ dict_get (fst s) (grid_key product variant d) = Some new)
           d).
  - repeat constructor; cbn [In]; intuition discriminate.
  - exact Hd.
  - intros s y s' Hy Hs Hb.
    rewrite (align_deductible_other _ _ _ _ _ _ _ _ Hb); [exact Hs|].
    intros H. apply grid_key_inj in H as (_ & _ & H). congruence.
  - intros s s' Hs Hb. eapply align_deductible_at; eassumption.
  - intros s y s' Hy (new & Hnew & Hs) Hb. exists new. split; [exact Hnew|].
    rewrite (align_deductible_other _ _ _ _ _ _ _ _ Hb); [exact Hs|].
    intros H. apply grid_key_inj in H as (_ & _ & H). congruence.
Qed.

Lemma align_variants_other product variants st st' key :
  for_each (align_variant product) variants st = Ok st' ->
  (forall v d, key <> grid_key product v d) ->
  dict_get (fst st') key = dict_get (fst st) key.
Proof.
  intros Hrun Hn. revert Hrun.
  apply (for_each_rel
           (fun s s' : pipeline_state => dict_get (fst s') key = dict_get (fst s) key)).
  - reflexivity.
  - intros a b c H1 H2. congruence.
  - intros s v s' _ Hb. eapply align_variant_other; [exact Hb | apply Hn].
Qed.

Lemma align_variants_at product st st' variant d base old :
  In variant VARIANTS -> In d DEDUCTIBLES ->
  for_each (align_variant product) VARIANTS st = Ok st' ->
  dict_get (fst st) (grid_key product variant 100) = Some base ->
  dict_get (fst st) (grid_key product variant d) = Some old ->
  exists new,
    aligned_price base old d = Ok new
    /\ dict_get (fst st') (grid_key product variant d) = Some new.
Proof.
  intros Hv Hd Hrun Hbase Hold. revert Hrun.
  apply (for_each_owner (align_variant product)
           (fun s : pipeline_state =>
              dict_get (fst s) (grid_key product variant 100) = Some base
              /\ dict_get (fst s) (grid_key product variant d) = Some old)
           (fun s : pipeline_state =>
              exists new,
                aligned_price base old d = Ok new
                /\ dict_get (fst s) (grid_key product variant d) = Some new)
           variant).
  - repeat constructor; cbn [In]; intuition discriminate.
  - exact Hv.
  - intros s y s' Hy [Hb Ho] Hrun.
    rewrite !(align_variant_other _ _ _ _ _ Hrun); [auto| |];
      intros d' H; apply grid_key_inj in H as (_ & H & _); congruence.
  - intros s s' [Hb Ho] Hrun. eapply align_variant_at; eassumption.
  - intros s y s' Hy (new & Hnew & Hs) Hrun. exists new. split; [exact Hnew|].
    rewrite (align_variant_other _ _ _ _ _ Hrun); [exact Hs|].
    intros d' H. apply grid_key_inj in H as (_ & H & _). congruence.
  - auto.
Qed.

(** The price normalisation leaves at a ladder key whose anchor is in the
    table: the one rebuilt from the anchor price of the input. *)
Lemma normalisation_at prices normalized change_log product variant d base old :
  In product PRODUCTS_WITH_VARIANTS -> In variant VARIANTS -> In d DEDUCTIBLES ->
  apply_deductible_structure prices = Ok (normalized, change_log) ->
  dict_get prices (grid_key product variant 100) = Some base ->
  dict_get prices (grid_key product variant d) = Some old ->
  exists new,
    aligned_price base old d = Ok new
    /\ dict_get normalized (grid_key product variant d) = Some new.
Proof.
  intros Hp Hv Hd Hrun Hbase Hold. unfold apply_deductible_structure in Hrun.
  revert Hrun.
  change (for_each
            (fun st product => for_each (align_variant product) VARIANTS st)
            PRODUCTS_WITH_VARIANTS (prices, [])
          = Ok (normalized, change_log) ->
          (fun s : pipeline_state =>
             exists new,
               aligned_price base old d = Ok new
               /\ dict_get (fst s) (grid_key product variant d) = Some new)
            (normalized, change_log)).
  apply (for_each_owner
           (fun st product => for_each (align_variant product) VARIANTS st)
           (fun s : pipeline_state =>
              dict_get (fst s) (grid_key product variant 100) = Some base
              /\ dict_get (fst s) (grid_key product variant d) = Some old)
           _ product).
  - repeat constructor; cbn [In]; intuition discriminate.
  - exact Hp.
  - intros s y s' Hy [Hb Ho] Hrun.
    rewrite !(align_variants_other _ _ _ _ _ Hrun); [auto| |];
      intros v' d' H; apply grid_key_inj in H as (H & _ & _); congruence.
  - intros s s' [Hb Ho] Hrun. eapply align_variants_at; eassumption.
  - intros s y s' Hy (new & Hnew & Hs) Hrun. exists new. split; [exact Hnew|].
    rewrite (align_variants_other _ _ _ _ _ Hrun); [exact Hs|].
    intros v' d' H. apply grid_key_inj in H as (H & _ & _). congruence.
  - auto.
Qed.

(** Off the ladders nothing moves. *)
Lemma align_variant_frame product st variant st' key :
  In product PRODUCTS_WITH_VARIANTS -> In variant VARIANTS ->
  align_variant product st variant = Ok st' ->
  ~ on_ladder (dict_keys (fst st)) key ->
  dict_get (fst st') key = dict_get (fst st) key.
Proof.
  intros Hp Hv. unfold align_variant.
  change (mkPriceKey product (Some variant) (Some 100%Z))
    with (grid_key product variant 100).
  destruct (dict_mem (fst st) (grid_key product variant 100)) eqn:Hmem; cbn [negb];
    [|intros [= <-]; reflexivity].
  destruct (dict_item _ _) as [base_price|]; [|discriminate]. cbn [bind].
  intros Hrun Hoff. revert Hrun.
  apply (for_each_rel
           (fun s s' : pipeline_state => dict_get (fst s') key = dict_get (fst s) key)).
  - reflexivity.
  - intros a b c H1 H2. congruence.
  - intros s d s' Hd Hb. eapply align_deductible_other; [exact Hb|].
    intros ->. apply Hoff. exists product, variant, d.
    repeat split; try assumption. apply dict_mem_keys. exact Hmem.
Qed.

Lemma normalisation_frame prices normalized change_log key :
  apply_deductible_structure prices = Ok (normalized, change_log) ->
  ~ on_ladder (dict_keys prices) key ->
  dict_get normalized key = dict_get prices key.
Proof.
  intros Hrun Hoff. unfold apply_deductible_structure in Hrun.
  pose (R := fun s s' : pipeline_state =>
               dict_keys (fst s') = dict_keys (fst s)
               /\ (~ on_ladder (dict_keys (fst s)) key ->
                   dict_get (fst s') key = dict_get (fst s) key)).
  assert (Hrefl : forall s, R s s) by (intros s; split; reflexivity).
  assert (Htrans : forall a b c, R a b -> R b c -> R a c).
  { intros a b c [Hk1 Hg1] [Hk2 Hg2]. split; [congruence|].
    intros Ha. rewrite Hg2, Hg1; [reflexivity | assumption|].
    rewrite Hk1. assumption. }
  assert (HR : R (prices, []) (normalized, change_log)).
  { revert Hrun. apply for_each_rel; [exact Hrefl | exact Htrans|].
    intros s product s' Hp.
    apply for_each_rel; [exact Hrefl | exact Htrans|].
    intros st variant st' Hv Hb. split.
    - apply align_variant_aligns in Hb as [Hk _]. exact Hk.
    - intros Ha. eapply align_variant_frame; eassumption. }
  destruct HR as [_ Hg]. apply Hg. exact Hoff.
Qed.

End Ladder.

(** * The messages tell the truth *)

Section Messages.

Local Open Scope float_scope.

Lemma to_str_spelling key s : to_str key = Ok s -> spelling key = s.
Proof. intros Hs. unfold spelling. now rewrite Hs. Qed.

Lemma generated_keys (prices prices' : price_table) c :
  dict_keys prices' = dict_keys prices -> generated prices c -> generated prices' c.
Proof.
  intros Hk Hc. destruct Hc; constructor; try rewrite Hk; assumption.
Qed.

Lemma align_deductible_log product variant base_price st d st' :
  In product PRODUCTS_WITH_VARIANTS -> In variant VARIANTS ->
  align_deductible product variant (grid_key product variant 100) base_price st d
  = Ok st' ->
  Forall alignment (snd st) -> Forall alignment (snd st').
Proof.
  intros Hp Hv. unfold align_deductible. destruct st as [prices change_log].
  destruct (dict_mem prices _); cbn [negb]; [|intros [= <-]; auto].
  unfold dict_item at 1.
  destruct (dict_get DEDUCTIBLE_DISCOUNTS d) as [factor|] eqn:Hf; [|discriminate].
  cbn [bind]. destruct (dict_item prices _) as [old_price|]; [|discriminate].
  cbn [bind].
  destruct (round_to_step _ _) as [new_price|] eqn:Hnew; [|discriminate]. cbn [bind].
  destruct (PrimFloat.ltb _ _) eqn:Hfar; [|intros [= <-]; auto].
  destruct (to_str _) as [key_str|] eqn:Hks; [|discriminate]. cbn [bind].
  destruct (to_str (grid_key _ _ _)) as [base_str|] eqn:Hbs; [|discriminate].
  cbn [bind]. intros [= <-] Hall. cbn [snd] in *.
  apply Forall_app. split; [exact Hall|]. constructor; [|constructor].
  exists product, variant, d, factor, old_price, new_price, base_price.
  repeat split; try assumption.
  rewrite <- (to_str_spelling _ _ Hks), <- (to_str_spelling _ _ Hbs). reflexivity.
Qed.

Lemma normalisation_log prices normalized change_log :
  apply_deductible_structure prices = Ok (normalized, change_log) ->
  Forall alignment change_log.
Proof.
  unfold apply_deductible_structure. intros Hrun.
  change (Forall alignment (snd (normalized, change_log))). revert Hrun.
  apply (for_each_inv (fun s : pipeline_state => Forall alignment (snd s)));
    [|constructor].
  intros s product s' Hp Hs.
  apply (for_each_inv (fun s : pipeline_state => Forall alignment (snd s)));
    [|exact Hs].
  intros st variant st' Hv Hst. unfold align_variant.
  destruct (dict_mem _ _); cbn [negb]; [|intros [= <-]; exact Hst].
  destruct (dict_item _ _) as [base_price|]; [|discriminate]. cbn [bind].
  apply (for_each_inv (fun s : pipeline_state => Forall alignment (snd s)));
    [|exact Hst].
  intros ? d ? _ Hall Hb. eapply align_deductible_log; eassumption.
Qed.

Lemma repair_step_log prices log st c st' :
  generated prices c ->
  repair_step st c = Ok st' ->
  (exists adjustments,
     snd st = log ++ adjustments /\ Forall (adjustment prices) adjustments) ->
  exists adjustments,
    snd st' = log ++ adjustments /\ Forall (adjustment prices) adjustments.
Proof.
  intros Hc. unfold repair_step. destruct st as [table issues].
  destruct (dict_item table (left c)) as [left_price|]; [|discriminate].
  cbn [bind]. destruct (dict_item table (right c)) as [right_price|]; [|discriminate].
  cbn [bind]. destruct (PrimFloat.ltb _ _) eqn:Hlow; [|intros [= <-]; auto].
  destruct (round_to_step _ _) as [new_price|] eqn:Hnew; [|discriminate]. cbn [bind].
  destruct (to_str (right c)) as [right_str|] eqn:Hrs; [|discriminate]. cbn [bind].
  destruct (to_str (left c)) as [left_str|] eqn:Hls; [|discriminate]. cbn [bind].
  intros [= <-] (adjustments & Hlog & Hall). cbn [snd] in *.
  eexists. split; [rewrite Hlog, <- app_assoc; reflexivity|].
  apply Forall_app. split; [exact Hall|]. constructor; [|constructor].
  exists c, left_price, right_price, new_price.
  split; [exact Hc|].
  rewrite <- (to_str_spelling _ _ Hrs), <- (to_str_spelling _ _ Hls).
  split; [reflexivity|]. split; assumption.
Qed.

Lemma repair_log prices issues final issues' :
  repair prices issues = Ok (final, issues') ->
  exists adjustments,
    issues' = issues ++ adjustments /\ Forall (adjustment prices) adjustments.
Proof.
  unfold repair. destruct (sorted _ _) as [cs|] eqn:Hs; [|discriminate].
  cbn [bind]. intros Hrun.
  change (exists adjustments,
            snd (final, issues') = issues ++ adjustments
            /\ Forall (adjustment prices) adjustments).
  revert Hrun.
  apply (for_each_inv
           (fun s : pipeline_state =>
              exists adjustments,
                snd s = issues ++ adjustments
                /\ Forall (adjustment prices) adjustments)).
  - intros s c s' Hin Hinv Hb. eapply repair_step_log; [|exact Hb|exact Hinv].
    apply build_constraints_generated. eapply sorted_In; eassumption.
  - exists []. split; [now rewrite app_nil_r | constructor].
Qed.

End Messages.

(** * The exceptions of a run *)

Section Errors.

Local Open Scope float_scope.

Lemma round_to_step_raises value e :
  round_to_step value PRICE_ROUNDING_STEP = Raise e -> value_or_overflow e = true.
Proof.
  unfold round_to_step, pyfloat.div.
  change (is_zero PRICE_ROUNDING_STEP) with false. cbn [bind].
  destruct (pyfloat.round _) as [n|e1] eqn:Hr; cbn [bind].
  - unfold pyfloat.of_int. destruct (is_infinity _); cbn [bind];
      [intros [= <-]; reflexivity | discriminate].
  - intros [= <-]. unfold pyfloat.round in Hr.
    destruct (Prim2SF _); try discriminate; injection Hr as <-; reflexivity.
Qed.

Lemma to_str_grid_key product variant d :
  exists s, to_str (grid_key product variant d) = Ok s.
Proof.
  unfold to_str, grid_key. cbn [pricing_model.product pricing_model.variant deductible].
  destruct (String.eqb product "mtpl"); eexists; reflexivity.
Qed.

Lemma align_deductible_raises product variant base_price st d e :
  In d DEDUCTIBLES ->
  align_deductible product variant (grid_key product variant 100) base_price st d
  = Raise e ->
  value_or_overflow e = true.
Proof.
  intros Hd. unfold align_deductible. destruct st as [prices change_log].
  change (mkPriceKey product (Some variant) (Some d))
    with (grid_key product variant d).
  unfold dict_mem, dict_item.
  destruct (dict_get prices _) as [old_price|]; cbn [negb]; [|discriminate].
  destruct (dict_get DEDUCTIBLE_DISCOUNTS d) as [factor|] eqn:Hf.
  2:{ exfalso. unfold DEDUCTIBLES in Hd. cbn [In] in Hd.
      destruct Hd as [<-|[<-|[<-|[]]]]; discriminate. }
  cbn [bind].
  destruct (round_to_step _ _) as [new_price|e1] eqn:Hnew; cbn [bind].
  2:{ intros [= <-]. eapply round_to_step_raises. exact Hnew. }
  destruct (PrimFloat.ltb _ _); [|discriminate].
  destruct (to_str_grid_key product variant d) as [s ->].
  destruct (to_str_grid_key product variant 100) as [s0 ->].
  discriminate.
Qed.

Lemma normalisation_raises prices e :
  apply_deductible_structure prices = Raise e -> value_or_overflow e = true.
Proof.
  unfold apply_deductible_structure.
  apply (for_each_raises (fun _ => True) (fun e => value_or_overflow e = true));
    [auto| |exact I].
  intros s product e1 _ _.
  apply (for_each_raises (fun _ => True) (fun e => value_or_overflow e = true));
    [auto| |exact I].
  intros st variant e2 _ _. unfold align_variant, dict_mem, dict_item.
  destruct (dict_get _ _) as [base_price|]; cbn [negb bind]; [|discriminate].
  apply (for_each_raises (fun _ => True) (fun e => value_or_overflow e = true));
    [auto| |exact I].
  intros ? d ? Hd _. apply align_deductible_raises. exact Hd.
Qed.

Lemma map_result_raises {A B : Type} (f : A -> result B) xs e :
  map_result f xs = Raise e -> exists x, In x xs /\ f x = Raise e.
Proof.
  induction xs as [|x xs IH]; [discriminate|]. cbn [map_result].
  destruct (f x) as [y|e1] eqn:Hx; cbn [bind].
  - destruct (map_result f xs) as [ys|e2]; cbn [bind]; [discriminate|].
    intros [= <-]. destruct (IH eq_refl) as (x' & Hin & Hx').
    exists x'. split; [right; exact Hin | exact Hx'].
  - intros [= <-]. exists x. split; [left; reflexivity | exact Hx].
Qed.

Lemma sorted_constraints_total (prices : price_table) :
  exists cs,
    sorted (fun c => price_key_rank (left c)) (build_constraints prices) = Ok cs.
Proof.
  unfold sorted.
  destruct (map_result _ _) as [keys|e] eqn:Hm; cbn [bind]; [eexists; reflexivity|].
  exfalso. apply map_result_raises in Hm as (c & Hc & Hr).
  apply build_constraints_generated, generated_rank_increases in Hc
    as (rl & rr & Hl & _). congruence.
Qed.

Lemma repair_step_raises (keys : list PriceKey) st c e :
  Forall producible keys -> within keys c ->
  dict_keys (fst st) = keys ->
  repair_step st c = Raise e -> value_or_overflow e = true.
Proof.
  intros Hp [Hl Hr] Hk. unfold repair_step. destruct st as [table issues].
  cbn [fst] in Hk. subst keys. rewrite Forall_forall in Hp.
  unfold dict_item.
  apply dict_mem_keys in Hl, Hr. unfold dict_mem in Hl, Hr.
  destruct (dict_get table (left c)) as [left_price|] eqn:Hgl; [|discriminate].
  destruct (dict_get table (right c)) as [right_price|] eqn:Hgr; [|discriminate].
  cbn [bind]. destruct (PrimFloat.ltb _ _); [|discriminate].
  destruct (round_to_step _ _) as [new_price|e1] eqn:Hnew; cbn [bind].
  2:{ intros [= <-]. eapply round_to_step_raises. exact Hnew. }
  destruct (producible_spelling (right c)) as [-> _].
  { apply Hp. eapply dict_get_keys. exact Hgr. }
  destruct (producible_spelling (left c)) as [-> _].
  { apply Hp. eapply dict_get_keys. exact Hgl. }
  discriminate.
Qed.

Lemma repair_raises prices issues e :
  Forall producible (dict_keys prices) ->
  repair prices issues = Raise e -> value_or_overflow e = true.
Proof.
  intros Hp. unfold repair.
  destruct (sorted_constraints_total prices) as [cs Hs]. rewrite Hs. cbn [bind].
  apply (for_each_raises
           (fun s : pipeline_state => dict_keys (fst s) = dict_keys prices)
           (fun e => value_or_overflow e = true)); [| |reflexivity].
  - intros s c s' _ Hk Hb. apply repair_step_aligns in Hb as [Hk' _]. congruence.
  - intros s c e1 Hin Hk. apply (repair_step_raises (dict_keys prices)); auto.
    pose proof (build_constraints_within prices) as Hw. rewrite Forall_forall in Hw.
    apply Hw. eapply sorted_In; eassumption.
Qed.

Lemma parse_prices_raises_ValueError (raw_prices : dict string float) e :
  parse_prices raw_prices = Raise e -> is_ValueError e = true.
Proof.
  unfold parse_prices.
  apply (for_each_raises (fun _ => True) (fun e => is_ValueError e = true));
    [auto| |exact I].
  intros d [raw price] e1 _ _. cbn [fst snd].
  destruct (from_str raw) as [key|e2] eqn:Hk; cbn [bind]; [discriminate|].
  intros [= <-]. eapply from_str_raises_ValueError. exact Hk.
Qed.

End Errors.

(** * The MTPL price *)

Section Mtpl.

(** Filling a dictionary from a list of items: a key none of them maps to
    is left alone, and a key exactly one of them maps to gets its value. *)
Lemma fill_other {K1 K2 V : Type} `{Eqb K2} (f : K1 -> result K2)
  (l : list (K1 * V)) : forall (d r : dict K2 V) k,
  for_each (fun d kv => key <- f (fst kv) ;; Ok (dict_set d key (snd kv))) l d = Ok r ->
  (forall k1, In k1 (map fst l) -> f k1 <> Ok k) ->
  dict_get r k = dict_get d k.
Proof.
  induction l as [|[k0 v0] l IH]; intros d r k Hrun Hno.
  - injection Hrun as <-. reflexivity.
  - cbn [for_each fst snd] in Hrun.
    destruct (f k0) as [k2|] eqn:Hk0; [|discriminate]. cbn [bind] in Hrun.
    rewrite (IH _ _ _ Hrun) by (intros k1 Hk1; apply Hno; right; exact Hk1).
    apply dict_get_set_other. intros ->.
    apply (Hno k0); [left; reflexivity | assumption].
Qed.

Lemma fill_get {K1 K2 V : Type} `{Eqb K2} (f : K1 -> result K2)
  (l : list (K1 * V)) : forall (d r : dict K2 V) k1 k v,
  for_each (fun d kv => key <- f (fst kv) ;; Ok (dict_set d key (snd kv))) l d = Ok r ->
  NoDup (map fst l) -> In (k1, v) l -> f k1 = Ok k ->
  (forall k1', In k1' (map fst l) -> f k1' = Ok k -> k1' = k1) ->
  dict_get r k = Some v.
Proof.
  induction l as [|[k0 v0] l IH]; intros d r k1 k v Hrun Hnd Hin Hk Huniq;
    [destruct Hin|].
  cbn [for_each fst snd] in Hrun. cbn [map fst] in Hnd, Huniq.
  inversion Hnd as [|? ? Hnot Hnd']; subst.
  destruct (f k0) as [k2|] eqn:Hk0; [|discriminate]. cbn [bind] in Hrun.
  destruct Hin as [[= -> ->]|Hin].
  - rewrite (fill_other _ _ _ _ k Hrun).
    + replace k2 with k by congruence. apply dict_get_set_same.
    + intros k1' Hin' Hk'. apply Hnot.
      rewrite <- (Huniq k1') by (auto using in_cons). exact Hin'.
  - eapply IH; try eassumption.
    intros k1' Hin' Hk'. apply Huniq; [right; exact Hin' | exact Hk'].
Qed.

Lemma from_str_mtpl raw : from_str raw = Ok mtpl_key -> raw = "mtpl".
Proof.
  intros Hk.
  destruct (from_str_inv _ _ Hk)
    as [[-> _] | [(v & d & n & _ & _ & _ & H) | (v & d & n & _ & _ & _ & H)]];
    [reflexivity | discriminate | discriminate].
Qed.

Lemma alignment_not_mtpl i : alignment i -> changed_key i <> "mtpl".
Proof.
  intros (product & variant & d & factor & old & new & base & Hp & _ & _ & -> & _).
  cbn [changed_key]. unfold PRODUCTS_WITH_VARIANTS in Hp. cbn [In] in Hp.
  destruct Hp as [<-|[<-|[]]]; cbv [spelling to_str grid_key]; cbn; discriminate.
Qed.

Lemma generated_right_not_mtpl prices c : generated prices c -> right c <> mtpl_key.
Proof.
  intros [key _ _ Hlc | key _ Hlc _
         | product deductible lower upper wording _ _ _ _ _]; cbn [right].
  - intros ->. discriminate.
  - discriminate.
  - discriminate.
Qed.

End Mtpl.

(** * The rank is a dictionary order *)

Section Rank.

Lemma product_rank_bounds p r : dict_get PRODUCT_RANK p = Some r -> (0 <= r <= 2)%Z.
Proof.
  unfold PRODUCT_RANK. cbn [dict_get].
  repeat (destruct (eqb _ p); [intros [= <-]; lia|]). discriminate.
Qed.

End Rank.

(** * Loops that build a dictionary *)

Section BuildLoop.
Context {A S K V : Type} `{Eqb K}.
Variable proj : S -> dict K V.
Variable key : A -> K.
Variable R : A -> V -> Prop.
Variable body : S -> A -> result S.

(** Every iteration stores, under the key of its element, a value that
    [R] relates to the element. *)
Hypothesis Hbody : forall s x s',
  body s x = Ok s' -> exists v, proj s' = dict_set (proj s) (key x) v /\ R x v.

Lemma build_keys (l : list A) : forall s s',
  NoDup (dict_keys (proj s) ++ map key l) ->
  for_each body l s = Ok s' ->
  dict_keys (proj s') = dict_keys (proj s) ++ map key l.
Proof.
  induction l as [|x l IH]; intros s s' Hnd Hrun.
  - injection Hrun as <-. cbn. now rewrite app_nil_r.
  - cbn [for_each] in Hrun. destruct (body s x) as [s1|] eqn:Hb; [|discriminate].
    cbn [bind] in Hrun. destruct (Hbody _ _ _ Hb) as (v & Hs1 & _).
    cbn [map] in Hnd.
    assert (Hk : dict_keys (proj s1) = dict_keys (proj s) ++ [key x]).
    { rewrite Hs1. apply dict_keys_set_absent. intros Hin.
      apply NoDup_remove_2 in Hnd. apply Hnd, in_or_app. auto. }
    rewrite (IH s1 s');
      [rewrite Hk, <- app_assoc; reflexivity
      |rewrite Hk, <- app_assoc; exact Hnd
      |exact Hrun].
Qed.

Lemma build_other (l : list A) : forall s s' k,
  ~ In k (map key l) ->
  for_each body l s = Ok s' ->
  dict_get (proj s') k = dict_get (proj s) k.
Proof.
  induction l as [|x l IH]; intros s s' k Hk Hrun.
  - injection Hrun as <-. reflexivity.
  - cbn [for_each] in Hrun. destruct (body s x) as [s1|] eqn:Hb; [|discriminate].
    cbn [bind] in Hrun. destruct (Hbody _ _ _ Hb) as (v & Hs1 & _).
    cbn [map In] in Hk. rewrite (IH _ _ _ (fun Hin => Hk (or_intror Hin)) Hrun).
    rewrite Hs1. apply dict_get_set_other. intros Heq. apply Hk. left. exact Heq.
Qed.

Lemma build_value (l : list A) : forall s s' x,
  NoDup (map key l) -> In x l ->
  for_each body l s = Ok s' ->
  exists v, dict_get (proj s') (key x) = Some v /\ R x v.
Proof.
  induction l as [|y l IH]; intros s s' x Hnd Hin Hrun; [destruct Hin|].
  cbn [for_each] in Hrun. destruct (body s y) as [s1|] eqn:Hb; [|discriminate].
  cbn [bind] in Hrun. cbn [map] in Hnd. inversion Hnd as [|? ? Hnot Hnd']; subst.
  destruct Hin as [->|Hin]; [|eapply IH; eassumption].
  destruct (Hbody _ _ _ Hb) as (v & Hs1 & Hv). exists v. split; [|exact Hv].
  rewrite (build_other _ _ _ _ Hnot Hrun), Hs1. apply dict_get_set_same.
Qed.

Lemma build_all (P : V -> Prop) (l : list A) : forall s s',
  (forall x v, In x l -> R x v -> P v) ->
  (forall k v, dict_get (proj s) k = Some v -> P v) ->
  for_each body l s = Ok s' ->
  forall k v, dict_get (proj s') k = Some v -> P v.
Proof.
  induction l as [|x l IH]; intros s s' HR Hs Hrun.
  - injection Hrun as <-. exact Hs.
  - cbn [for_each] in Hrun. destruct (body s x) as [s1|] eqn:Hb; [|discriminate].
    cbn [bind] in Hrun. destruct (Hbody _ _ _ Hb) as (v & Hs1 & Hv).
    apply (IH s1 s'); [intros ? ? Hin; apply HR; right; exact Hin| |exact Hrun].
    intros k v0. rewrite Hs1. destruct (eqb_spec (key x) k) as [<-|Hn].
    + rewrite dict_get_set_same. intros [= <-]. apply (HR x); [left; reflexivity|exact Hv].
    + rewrite dict_get_set_other by exact Hn. apply Hs.
Qed.

End BuildLoop.

(** * The order of floats *)

Section FloatOrder.

Local Open Scope float_scope.

Lemma SFcompare_refl a : a <> S754_nan -> SFcompare a a = Some Eq.
Proof.
  destruct a as [s| s| |s m e]; cbn; intros Hn; try congruence.
  - destruct s; reflexivity.
  - destruct s; rewrite Z.compare_refl, Pos.compare_cont_refl; reflexivity.
Qed.

Lemma SFcompare_defined a b c :
  SFcompare a b = Some c -> a <> S754_nan /\ b <> S754_nan.
Proof.
  destruct a, b; cbn; intros Hc; split; congruence.
Qed.

Lemma ltb_leb x y : (x <? y) = true -> (x <=? y) = true.
Proof.
  rewrite ltb_spec, leb_spec. unfold SFltb, SFleb.
  destruct (SFcompare _ _) as [[]|]; congruence.
Qed.

Lemma leb_refl_of x y : (x <=? y) = true -> (x <=? x) = true /\ (y <=? y) = true.
Proof.
  rewrite !leb_spec. unfold SFleb.
  destruct (SFcompare (Prim2SF x) (Prim2SF y)) as [c|] eqn:Hc; [|discriminate].
  apply SFcompare_defined in Hc as [Hx Hy]. intros _.
  rewrite !SFcompare_refl by assumption. auto.
Qed.

(** [max(lo, min(hi, x))] lies between the bounds, whatever [x] is, when
    the bounds are in order. *)
Lemma clamp_bounds lo hi x :
  (lo <=? hi) = true -> clamped lo hi (pyfloat.max lo (pyfloat.min hi x)).
Proof.
  intros Hb. destruct (leb_refl_of _ _ Hb) as [Hlo Hhi].
  unfold clamped, pyfloat.max, pyfloat.min.
  destruct (x <? hi) eqn:Hx.
  - destruct (lo <? x) eqn:Hl; [split; apply ltb_leb; assumption | auto].
  - destruct (lo <? hi) eqn:Hl; auto.
Qed.

End FloatOrder.

(** * The city adjustment *)

Section City.

Local Open Scope float_scope.

Lemma split_all_nonempty s : pystr.split_all s <> [].
Proof.
  destruct s as [|c rest]; cbn [pystr.split_all]; [discriminate|].
  destruct (Ascii.eqb c pystr.underscore); [discriminate|].
  destruct (pystr.split_all rest); discriminate.
Qed.

Lemma split_all_plain s : has_underscore s = false -> pystr.split_all s = [s].
Proof.
  induction s as [|c rest IH]; cbn [pystr.split_all has_underscore]; [reflexivity|].
  destruct (Ascii.eqb c pystr.underscore); cbn [orb]; [discriminate|].
  intros Hr. rewrite (IH Hr). reflexivity.
Qed.

Lemma split_all_app a b :
  pystr.split_all (a ++ String pystr.underscore b)
  = (pystr.split_all a ++ pystr.split_all b)%list.
Proof.
  induction a as [|c a IH]; cbn [append pystr.split_all].
  - rewrite Ascii.eqb_refl. reflexivity.
  - destruct (Ascii.eqb c pystr.underscore); rewrite IH; [reflexivity|].
    destruct (pystr.split_all a) as [|piece pieces] eqn:Ha; [|reflexivity].
    exfalso. eapply split_all_nonempty. exact Ha.
Qed.

Lemma last_app_nonempty {A : Type} (l l' : list A) d :
  l' <> [] -> last (l ++ l') d = last l' d.
Proof.
  intros Hl'. induction l as [|x l IH]; [reflexivity|].
  cbn [app last]. rewrite IH. destruct (l ++ l') eqn:Hll; [|reflexivity].
  apply app_eq_nil in Hll as [_ ?]. contradiction.
Qed.

Lemma last_split a b :
  has_underscore b = false ->
  last (pystr.split_all (a ++ String pystr.underscore b)) EmptyString = b.
Proof.
  intros Hb. rewrite split_all_app, last_app_nonempty by apply split_all_nonempty.
  rewrite (split_all_plain _ Hb). reflexivity.
Qed.

Lemma string_of_uint_plain u : has_underscore (NilEmpty.string_of_uint u) = false.
Proof. induction u; cbn; assumption || reflexivity. Qed.

Lemma of_int_plain n : has_underscore (pystr.of_int n) = false.
Proof.
  destruct n as [|p|p]; cbn [pystr.of_int]; [reflexivity| |];
    unfold NilZero.string_of_uint;
    destruct (Pos.to_uint p) eqn:Hp; try reflexivity;
    rewrite <- Hp; cbn [has_underscore]; try apply string_of_uint_plain;
    rewrite string_of_uint_plain; reflexivity.
Qed.

(** The city adjustment reads off a serialised key the deductible of the
    structured key. *)
Lemma key_deductible_spelling key s :
  producible key -> to_str key = Ok s ->
  geo_pricing.key_deductible s = Ok (city_deductible key).
Proof.
  intros [raw Hraw] Hs.
  assert (Hseg : forall prefix v n,
             geo_pricing.key_deductible
               ((prefix ++ v) ++ String pystr.underscore (pystr.of_int n))
             = Ok (if (n =? 100)%Z || (n =? 200)%Z || (n =? 500)%Z
                   then Some n else None)).
  { intros prefix v n. unfold geo_pricing.key_deductible.
    rewrite last_split by apply of_int_plain. rewrite int_of_int.
    destruct ((n =? 100)%Z || (n =? 200)%Z || (n =? 500)%Z); reflexivity. }
  destruct (from_str_inv _ _ Hraw)
    as [[_ ->] | [(v & d & n & _ & _ & _ & ->) | (v & d & n & _ & _ & _ & ->)]].
  - injection Hs as <-. reflexivity.
  - injection Hs as <-. apply (Hseg "limited_casco_" v n).
  - injection Hs as <-. apply (Hseg "casco_" v n).
Qed.

Lemma geo_round_to_step_raises value e :
  geo_pricing.round_to_step value 5.0 = Raise e -> value_or_overflow e = true.
Proof.
  unfold geo_pricing.round_to_step, pyfloat.div.
  change (is_zero 5.0) with false. cbn [bind].
  destruct (pyfloat.floor _) as [n|e1] eqn:Hr; cbn [bind].
  - unfold pyfloat.of_int at 1. destruct (is_infinity _); cbn [bind];
      [intros [= <-]; reflexivity|].
    destruct (PrimFloat.ltb _ _); [discriminate|].
    unfold pyfloat.of_int. destruct (is_infinity _); cbn [bind];
      [intros [= <-]; reflexivity | discriminate].
  - intros [= <-]. unfold pyfloat.floor in Hr.
    destruct (Prim2SF _) as [| | |s m ex]; try discriminate;
      try (injection Hr as <-; reflexivity).
    destruct (0 <=? ex)%Z; discriminate.
Qed.

Lemma city_multiplier_cases city d :
  (exists m, geo_pricing.get_city_deductible_multiplier city d = Ok m)
  /\ ((city <> "Beograd" /\ city <> "Novi Sad") \/ (d <> 200 /\ d <> 500)%Z ->
      geo_pricing.get_city_deductible_multiplier city d = Ok 1.0).
Proof.
  unfold geo_pricing.get_city_deductible_multiplier,
    geo_pricing.CITY_DEDUCTIBLE_FACTORS_RS, geo_pricing.BASE_DEDUCTIBLE_FACTORS,
    dict_get_default.
  cbn [dict_get eqb Eqb_string Eqb_Z].
  destruct (String.eqb_spec "Beograd" city) as [<-|HB];
    [|destruct (String.eqb_spec "Novi Sad" city) as [<-|HN]];
    cbn [dict_get eqb Eqb_string Eqb_Z];
    (destruct (Z.eqb_spec 100 d) as [<-|H1];
     [|destruct (Z.eqb_spec 200 d) as [<-|H2];
       [|destruct (Z.eqb_spec 500 d) as [<-|H5]]]);
    (split; [eexists; vm_compute; reflexivity|]);
    intros [[HnB HnN]|[Hn2 Hn5]]; try congruence; vm_compute; reflexivity.
Qed.

Lemma adjust_city_body city_name city_factors
  (adjusted : dict string float) (kv : string * float) adjusted' :
  (let '(key, base_price) := kv in
   let price := base_price * dict_get_default city_factors city_name 1.0 in
   deductible <- geo_pricing.key_deductible key ;;
   price <- match deductible with
            | Some deductible =>
                ded_mult <-
                  geo_pricing.get_city_deductible_multiplier city_name deductible ;;
                Ok (price * ded_mult)
            | None => Ok price
            end ;;
   new_price <- geo_pricing.round_to_step price 5.0 ;;
   Ok (dict_set adjusted key new_price)) = Ok adjusted' ->
  exists v,
    adjusted' = dict_set adjusted (fst kv) v
    /\ city_entry city_name city_factors kv = Ok v.
Proof.
  destruct kv as [key base_price]. unfold city_entry. cbn [fst snd].
  destruct (geo_pricing.key_deductible key) as [deductible|]; [|discriminate].
  cbn [bind].
  destruct (match deductible with Some _ => _ | None => _ end) as [price|];
    [|discriminate].
  cbn [bind].
  destruct (geo_pricing.round_to_step price 5.0) as [new_price|]; [|discriminate].
  cbn [bind]. intros [= <-]. exists new_price. auto.
Qed.

(** The factors of a table of cities *)

Lemma neutral_factors_loop (l : dict string Z) : forall d : dict string float,
  NoDup (dict_keys d ++ dict_keys l) ->
  dict_keys (fold_left (fun factors kv => dict_set factors (fst kv) 1.0) l d)
  = (dict_keys d ++ dict_keys l)%list.
Proof.
  induction l as [|[c p] l IH]; intros d Hnd.
  - cbn. now rewrite app_nil_r.
  - change (dict_keys ((c, p) :: l)) with (c :: dict_keys l) in *.
    cbn [fold_left fst].
    assert (Hk : dict_keys (dict_set d c 1.0) = (dict_keys d ++ [c])%list).
    { apply dict_keys_set_absent. intros Hin.
      apply NoDup_remove_2 in Hnd. apply Hnd, in_or_app. auto. }
    rewrite IH; rewrite Hk, <- app_assoc; [reflexivity | exact Hnd].
Qed.

Lemma neutral_factors_keys (city_populations : dict string Z) :
  NoDup (dict_keys city_populations) ->
  dict_keys (geo_pricing.neutral_factors city_populations)
  = dict_keys city_populations.
Proof. intros Hnd. apply (neutral_factors_loop city_populations []). exact Hnd. Qed.

Lemma city_rate_body city_accidents st kv st' :
  geo_pricing.city_rate city_accidents st kv = Ok st' ->
  exists v, fst (fst st') = dict_set (fst (fst st)) (fst kv) v /\ True.
Proof.
  unfold geo_pricing.city_rate. destruct st as [[rates tp] ta], kv as [city pop].
  destruct (_ && _).
  - destruct (pyfloat.truediv _ _) as [rate|]; [|discriminate]. cbn [bind].
    intros [= <-]. eexists. split; [reflexivity | exact I].
  - intros [= <-]. eexists. split; [reflexivity | exact I].
Qed.

Lemma city_factor_body min_factor max_factor gamma avg_rate factors kv factors' :
  geo_pricing.city_factor min_factor max_factor gamma avg_rate factors kv
  = Ok factors' ->
  exists v,
    factors' = dict_set factors (fst kv) v
    /\ exists x, v = pyfloat.max min_factor (pyfloat.min max_factor x).
Proof.
  unfold geo_pricing.city_factor. destruct kv as [city rate].
  destruct (if rate =? 0.0 then _ else _) as [raw_risk|]; [|discriminate].
  cbn [bind]. intros [= <-]. eexists. split; [reflexivity|]. eexists. reflexivity.
Qed.

Lemma population_factor_body min_factor max_factor pop_min pop_range
  (factors : dict string float) (kv : string * Z) factors' :
  (let '(city, pop) := kv in
   fraction <- pyfloat.truediv (pop - pop_min)%Z pop_range ;;
   let factor := min_factor + fraction * (max_factor - min_factor) in
   Ok (dict_set factors city factor)) = Ok factors' ->
  exists v, factors' = dict_set factors (fst kv) v /\ True.
Proof.
  destruct kv as [city pop].
  destruct (pyfloat.truediv _ _) as [fraction|]; [|discriminate]. cbn [bind].
  intros [= <-]. eexists. split; [reflexivity | exact I].
Qed.

End City.

Section CityErrors.

Local Open Scope float_scope.

Lemma int_raises_invalid_literal s e :
  pystr.int s = Raise e -> e = pystr.invalid_literal.
Proof.
  assert (Hu : forall negative t,
             pystr.int_unsigned negative t = Raise e -> e = pystr.invalid_literal).
  { intros negative t. unfold pystr.int_unsigned.
    destruct t as [|c r]; [congruence|].
    destruct (pystr.is_digit c); [|congruence].
    destruct (pystr.scan_digits _ _ _) as [[n rest]|]; [|congruence].
    destruct (pystr.skip_space rest); congruence. }
  unfold pystr.int. destruct (pystr.skip_space s) as [|c rest]; [congruence|].
  destruct (Ascii.eqb c "+"); [apply Hu|].
  destruct (Ascii.eqb c "-"); apply Hu.
Qed.

Lemma key_deductible_total key : exists d, geo_pricing.key_deductible key = Ok d.
Proof.
  unfold geo_pricing.key_deductible.
  destruct (pystr.int _) as [n|e] eqn:Hi.
  - destruct (_ || _); eexists; reflexivity.
  - apply int_raises_invalid_literal in Hi as ->. eexists. reflexivity.
Qed.

Lemma city_entry_raises city_name city_factors kv e :
  city_entry city_name city_factors kv = Raise e -> value_or_overflow e = true.
Proof.
  unfold city_entry. destruct (key_deductible_total (fst kv)) as [d ->]. cbn [bind].
  destruct d as [d|]; cbn [bind].
  - destruct (city_multiplier_cases city_name d) as [[m ->] _]. cbn [bind].
    apply geo_round_to_step_raises.
  - apply geo_round_to_step_raises.
Qed.

End CityErrors.

(** * The price grids *)

Section Grid.

Local Open Scope float_scope.


Lemma geo_round_to_step_on_grid value step price :
  geo_pricing.round_to_step value step = Ok price -> on_grid step price.
Proof.
  unfold geo_pricing.round_to_step.
  destruct (pyfloat.div value step) as [q|]; [|discriminate]. cbn [bind].
  destruct (pyfloat.floor q) as [lower|]; [|discriminate]. cbn [bind].
  destruct (pyfloat.of_int lower) as [lower_f|] eqn:Hl; [|discriminate]. cbn [bind].
  destruct (PrimFloat.ltb _ _).
  - intros [= <-]. exists lower, lower_f. auto.
  - destruct (pyfloat.of_int (lower + 1)) as [upper_f|] eqn:Hu; [|discriminate].
    cbn [bind]. intros [= <-]. exists (lower + 1)%Z, upper_f. auto.
Qed.





End Grid.

(** * Further properties of the rule generator and of a run *)

Section Further.

Local Open Scope float_scope.

(** X1. The generated constraints are exactly those of the four business
    rules, each between two keys that are present in the table. *)
Theorem build_constraints_meets_rules (prices : price_table) (c : Constraint) :
  In c (build_constraints prices) <-> generated prices c.
Proof. apply build_constraints_generated. Qed.

(** X2. No generated constraint has a Compact key on one side and a Basic
    key on the other. *)
Theorem compact_and_basic_are_never_related (prices : price_table) :
  Forall (fun c => ~ relates_compact_and_basic c) (build_constraints prices).
Proof.
  apply Forall_forall. intros c Hc.
  eapply generated_leaves_compact_and_basic, build_constraints_generated, Hc.
Qed.

(** X3. In every generated constraint the rank of the left key is defined
    and strictly below the rank of the right key. *)
Theorem constraints_go_up_in_rank (prices : price_table) :
  Forall rank_increases (build_constraints prices).
Proof.
  apply Forall_forall. intros c Hc.
  eapply generated_rank_increases, build_constraints_generated, Hc.
Qed.

(** X4. [classify_constraint] gives a generated constraint the product
    kind when its two keys are of different products and the variant kind
    when they are of the same product. *)
Theorem margin_kind_follows_products (prices : price_table) :
  Forall (fun c => classify_constraint (description c) = expected_kind c)
    (build_constraints prices).
Proof.
  apply Forall_forall. intros c Hc.
  eapply generated_kind, build_constraints_generated, Hc.
Qed.

(** X5. [sorted] returns a permutation of the list it is given, in
    ascending order of the keys. *)
Theorem sorted_is_an_ascending_permutation
  (A : Type) (key : A -> result Z) (xs ys : list A) :
  sorted key xs = Ok ys ->
  Permutation xs ys
  /\ exists ks, Forall2 (fun x k => key x = Ok k) ys ks /\ StronglySorted Z.le ks.
Proof. apply sorted_spec. Qed.

Lemma sorted_is_an_ascending_permutation_witness :
  Permutation [30; 10; 20; 10]%Z [10; 10; 20; 30]%Z
  /\ exists ks, Forall2 (fun x k => Ok x = Ok k) [10; 10; 20; 30]%Z ks
                /\ StronglySorted Z.le ks.
Proof.
  apply (sorted_is_an_ascending_permutation Z (fun x => Ok x) [30; 10; 20; 10]%Z).
  reflexivity.
Defined.

(** X6. In the order the repair loop walks the constraints, the left key
    of a constraint is written neither by that constraint nor by any later
    one: the left price a step reads is already final. *)
Theorem left_price_is_final_once_read
  (prices : price_table) (cs before after : list Constraint) (c : Constraint) :
  sorted (fun c => price_key_rank (left c)) (build_constraints prices) = Ok cs ->
  cs = before ++ c :: after ->
  Forall (fun c' => right c' <> left c) (c :: after).
Proof. apply sorted_constraints_order. Qed.

Lemma left_price_is_final_once_read_witness :
  Forall
    (fun c' =>
       right c'
       <> left (mkConstraint (grid_key "limited_casco" "basic" 100)
                  (grid_key "casco" "basic" 100)
                  "Casco must be more expensive than Limited Casco for the same variant and deductible"))
    [mkConstraint (grid_key "limited_casco" "basic" 100) (grid_key "casco" "basic" 100)
       "Casco must be more expensive than Limited Casco for the same variant and deductible"].
Proof.
  apply (left_price_is_final_once_read
           [(grid_key "casco" "basic" 100, 480);
            (grid_key "limited_casco" "basic" 100, 450);
            (mtpl_key, 500)]
           [mkConstraint mtpl_key (grid_key "limited_casco" "basic" 100)
              "MTPL must be cheaper than Limited Casco";
            mkConstraint (grid_key "limited_casco" "basic" 100)
              (grid_key "casco" "basic" 100)
              "Casco must be more expensive than Limited Casco for the same variant and deductible"]
           [mkConstraint mtpl_key (grid_key "limited_casco" "basic" 100)
              "MTPL must be cheaper than Limited Casco"]
           []).
  - vm_compute. reflexivity.
  - reflexivity.
Defined.

(** X7. No silent change: a key of the parsed table that no message
    reports as changed has in the output the price it has in the input. *)
Theorem every_change_is_reported raw_prices parsed fixed issues key s v :
  validate_and_fix_prices raw_prices = Ok (fixed, issues) ->
  parse_prices raw_prices = Ok parsed ->
  dict_get parsed key = Some v ->
  to_str key = Ok s ->
  ~ In s (map changed_key issues) ->
  dict_get fixed s = Some v.
Proof.
  intros Hrun Hparse Hget Hs Hquiet.
  apply validate_stages in Hrun
    as (parsed' & normalized & change_log & final & Hparse' & Hnorm & Hrep & Hser).
  rewrite Hparse in Hparse'. injection Hparse' as <-.
  destruct (parse_prices_keys _ _ Hparse) as [Hnd Hp].
  destruct (run_aligns _ _ _ _ _ Hnorm Hrep) as (Hkeys & extra & Hlog & Hsame).
  cbn [fst snd app] in *. subst issues.
  eapply serialize_prices_get; eauto; try (rewrite Hkeys; assumption).
  rewrite (Hsame key s); assumption.
Qed.

Lemma every_change_is_reported_witness :
  dict_get
    [("mtpl", 500); ("limited_casco_basic_100", 550); ("casco_basic_100", 600)]
    "mtpl" = Some 500.
Proof.
  apply (every_change_is_reported
           [("mtpl", 500); ("limited_casco_basic_100", 450); ("casco_basic_100", 480)]
           [(mkPriceKey "mtpl" None None, 500);
            (mkPriceKey "limited_casco" (Some "basic") (Some 100%Z), 450);
            (mkPriceKey "casco" (Some "basic") (Some 100%Z), 480)]
           _
           [Adjusted "limited_casco_basic_100" 450 550
              "MTPL must be cheaper than Limited Casco" PRODUCT_MARGIN "mtpl" 500;
            Adjusted "casco_basic_100" 480 600
              "Casco must be more expensive than Limited Casco for the same variant and deductible"
              PRODUCT_MARGIN "limited_casco_basic_100" 550]
           (mkPriceKey "mtpl" None None)).
  - vm_compute. reflexivity.
  - reflexivity.
  - reflexivity.
  - reflexivity.
  - simpl. intros [H|[H|[]]]; discriminate.
Defined.

(** X8. A run that reports nothing is repeatable: when the first run
    returns an empty issue list, running the validator on its output
    returns that output again, with no issues. *)
Theorem quiet_run_is_idempotent raw_prices fixed :
  validate_and_fix_prices raw_prices = Ok (fixed, []) ->
  validate_and_fix_prices fixed = Ok (fixed, []).
Proof.
  intros Hrun.
  apply validate_stages in Hrun
    as (parsed & normalized & change_log & final & Hparse & Hnorm & Hrep & Hser).
  destruct (parse_prices_keys _ _ Hparse) as [Hnd Hp].
  destruct (run_quiet _ _ _ _ _ Hnorm Hrep) as (extra & Hlog & Hsame).
  cbn [fst snd app] in *. subst extra. specialize (Hsame eq_refl). subst final.
  rewrite serialize_prices_shape in Hser by assumption. injection Hser as <-.
  unfold validate_and_fix_prices.
  rewrite parse_prices_serialized by assumption. cbn [bind].
  rewrite Hnorm. cbn [bind app]. rewrite Hrep. cbn [bind].
  rewrite serialize_prices_shape by assumption. reflexivity.
Qed.

Lemma quiet_run_is_idempotent_witness :
  validate_and_fix_prices
    [("mtpl", 400); ("limited_casco_basic_100", 800); ("casco_basic_100", 880)]
  = Ok ([("mtpl", 400); ("limited_casco_basic_100", 800); ("casco_basic_100", 880)], []).
Proof.
  apply (quiet_run_is_idempotent
           [("mtpl", 400); ("limited_casco_basic_0100", 800); ("casco_basic_100", 880)]).
  vm_compute. reflexivity.
Defined.

(** X9. On a table whose keys are pairwise different and canonical (each
    is the serialisation of what it parses to) the output has the keys of
    the input, in the same order, and an empty issue list means the output
    is the input. *)
Theorem canonical_keys_are_kept raw_prices fixed issues :
  NoDup (dict_keys raw_prices) ->
  Forall canonical (dict_keys raw_prices) ->
  validate_and_fix_prices raw_prices = Ok (fixed, issues) ->
  dict_keys fixed = dict_keys raw_prices /\ (issues = [] -> fixed = raw_prices).
Proof.
  intros Hnd Hcan Hrun.
  apply validate_stages in Hrun
    as (parsed & normalized & change_log & final & Hparse & Hnorm & Hrep & Hser).
  destruct (parse_prices_keys _ _ Hparse) as [Hndp Hp].
  destruct (run_aligns _ _ _ _ _ Hnorm Hrep) as (Hkeys & _).
  destruct (run_quiet _ _ _ _ _ Hnorm Hrep) as (extra & Hlog & Hsame).
  cbn [fst snd app] in *.
  rewrite serialize_prices_shape in Hser by (rewrite Hkeys; assumption).
  injection Hser as <-.
  rewrite parse_prices_canonical in Hparse by assumption. injection Hparse as <-.
  rewrite Forall_forall in Hcan.
  assert (Hid : forall l : dict string float,
             (forall k, In k (dict_keys l) -> canonical k) ->
             map (fun kv => (spelling (fst kv), snd kv))
               (map (fun kv => (reading (fst kv), snd kv)) l) = l).
  { intros l Hl. rewrite map_map. cbn [fst snd].
    rewrite <- (map_id l) at 2. apply map_ext_in. intros [k v] Hin. cbn [fst snd].
    destruct (canonical_reading k) as [_ ->]; [|reflexivity].
    apply Hl. change k with (fst (k, v)). apply in_map. assumption. }
  split.
  - unfold dict_keys in *. rewrite map_map. cbn [fst].
    rewrite <- (map_map fst spelling), Hkeys, !map_map. cbn [fst].
    rewrite <- (map_id (map fst raw_prices)), map_map. apply map_ext_in.
    intros [k v] Hin. cbn [fst].
    destruct (canonical_reading k) as [_ ->]; [|reflexivity].
    apply Hcan. change k with (fst (k, v)). apply in_map. assumption.
  - intros ->. subst extra. rewrite Hsame by reflexivity. apply Hid. exact Hcan.
Qed.

Lemma canonical_keys_are_kept_witness :
  dict_keys [("mtpl", 500); ("limited_casco_basic_100", 550); ("casco_basic_100", 600)]
  = dict_keys [("mtpl", 500); ("limited_casco_basic_100", 450); ("casco_basic_100", 480)]
  /\ ([Adjusted "limited_casco_basic_100" 450 550
         "MTPL must be cheaper than Limited Casco" PRODUCT_MARGIN "mtpl" 500;
       Adjusted "casco_basic_100" 480 600
         "Casco must be more expensive than Limited Casco for the same variant and deductible"
         PRODUCT_MARGIN "limited_casco_basic_100" 550] = []
      -> [("mtpl", 500); ("limited_casco_basic_100", 550); ("casco_basic_100", 600)]
         = [("mtpl", 500); ("limited_casco_basic_100", 450); ("casco_basic_100", 480)]).
Proof.
  apply (canonical_keys_are_kept
           [("mtpl", 500); ("limited_casco_basic_100", 450); ("casco_basic_100", 480)]).
  - repeat constructor; simpl; intuition discriminate.
  - repeat constructor; eexists; split; reflexivity.
  - vm_compute. reflexivity.
Defined.

(** X10. Normalisation rebuilds a ladder from the anchor price of the
    input: when the 100 key of a product and variant it walks is in the
    table with price [base], a key of that product and variant at 100, 200
    or 500 that is in the table with price [old] ends at
    [round_to_step (base * discount)] when that is further than the
    tolerance from [old], and stays at [old] otherwise.  The anchor price
    used is the one of the input, also after the 100 key itself has been
    put on the grid. *)
Theorem normalisation_rebuilds_the_ladder_from_the_anchor
  (prices normalized : price_table) (change_log : list issue)
  (product variant : string) (d : Z) (base old : float) :
  In product PRODUCTS_WITH_VARIANTS -> In variant VARIANTS -> In d DEDUCTIBLES ->
  apply_deductible_structure prices = Ok (normalized, change_log) ->
  dict_get prices (grid_key product variant 100) = Some base ->
  dict_get prices (grid_key product variant d) = Some old ->
  exists new,
    aligned_price base old d = Ok new
    /\ dict_get normalized (grid_key product variant d) = Some new.
Proof. apply normalisation_at. Qed.

Lemma normalisation_rebuilds_the_ladder_from_the_anchor_witness :
  exists new,
    aligned_price 94.9 95 200 = Ok new
    /\ dict_get
         [(grid_key "casco" "basic" 200, 90); (grid_key "casco" "basic" 100, 90)]
         (grid_key "casco" "basic" 200) = Some new.
Proof.
  apply (normalisation_rebuilds_the_ladder_from_the_anchor
           [(grid_key "casco" "basic" 200, 95); (grid_key "casco" "basic" 100, 94.9)]
           _
           [Aligned "casco_basic_100" 94.9 90 "casco_basic_100" 94.9;
            Aligned "casco_basic_200" 95 90 "casco_basic_100" 94.9]
           "casco" "basic" 200 94.9 95).
  - simpl. tauto.
  - simpl. tauto.
  - simpl. tauto.
  - vm_compute. reflexivity.
  - reflexivity.
  - reflexivity.
Defined.

(** X11. Normalisation keeps the keys of the table, in their order, and
    the price of every key that is not on a ladder with its anchor in the
    table: the MTPL key, a key of a variant or a deductible it does not
    walk, a key whose 100 key is missing. *)
Theorem normalisation_leaves_the_rest
  (prices normalized : price_table) (change_log : list issue) :
  apply_deductible_structure prices = Ok (normalized, change_log) ->
  dict_keys normalized = dict_keys prices
  /\ forall key,
       ~ on_ladder (dict_keys prices) key ->
       dict_get normalized key = dict_get prices key.
Proof.
  intros Hrun. split.
  - apply apply_deductible_structure_aligns in Hrun as [Hk _]. exact Hk.
  - intros key. eapply normalisation_frame. exact Hrun.
Qed.

Lemma normalisation_leaves_the_rest_witness :
  dict_keys
    [(grid_key "casco" "basic" 200, 95); (grid_key "casco" "comfort" 100, 90);
     (grid_key "casco" "comfort" 200, 90)]
  = dict_keys
      [(grid_key "casco" "basic" 200, 95); (grid_key "casco" "comfort" 100, 94.9);
       (grid_key "casco" "comfort" 200, 80)]
  /\ forall key,
       ~ on_ladder
           (dict_keys
              [(grid_key "casco" "basic" 200, 95);
               (grid_key "casco" "comfort" 100, 94.9);
               (grid_key "casco" "comfort" 200, 80)]) key ->
       dict_get
         [(grid_key "casco" "basic" 200, 95); (grid_key "casco" "comfort" 100, 90);
          (grid_key "casco" "comfort" 200, 90)] key
       = dict_get
           [(grid_key "casco" "basic" 200, 95);
            (grid_key "casco" "comfort" 100, 94.9);
            (grid_key "casco" "comfort" 200, 80)] key.
Proof.
  apply (normalisation_leaves_the_rest
           [(grid_key "casco" "basic" 200, 95); (grid_key "casco" "comfort" 100, 94.9);
            (grid_key "casco" "comfort" 200, 80)]
           _
           [Aligned "casco_comfort_100" 94.9 90 "casco_comfort_100" 94.9;
            Aligned "casco_comfort_200" 80 90 "casco_comfort_100" 94.9]).
  vm_compute. reflexivity.
Defined.

(** X12. The MTPL price is never changed: in a successful run on a table
    with pairwise different keys, the output has under ["mtpl"] the price
    the input has there, and no message reports ["mtpl"] as changed. *)
Theorem mtpl_price_is_never_changed
  (raw_prices fixed : dict string float) (issues : list issue) (v : float) :
  NoDup (dict_keys raw_prices) ->
  validate_and_fix_prices raw_prices = Ok (fixed, issues) ->
  dict_get raw_prices "mtpl" = Some v ->
  dict_get fixed "mtpl" = Some v /\ ~ In "mtpl" (map changed_key issues).
Proof.
  intros Hndr Hrun Hget.
  apply validate_stages in Hrun
    as (parsed & normalized & change_log & final & Hparse & Hnorm & Hrep & Hser).
  destruct (parse_prices_keys _ _ Hparse) as [Hnd Hp].
  assert (Hm : dict_get parsed mtpl_key = Some v).
  { unfold parse_prices in Hparse.
    apply (fill_get from_str raw_prices [] parsed "mtpl" mtpl_key v Hparse Hndr).
    - apply dict_get_In. exact Hget.
    - reflexivity.
    - intros raw _. apply from_str_mtpl. }
  destruct (run_frame parsed normalized change_log final issues mtpl_key "mtpl" v)
    as (Hkeys & Hfinal & Hquiet); try assumption.
  - reflexivity.
  - intros Hin. apply in_map_iff in Hin as (i & Hi & Hin).
    apply normalisation_log in Hnorm. rewrite Forall_forall in Hnorm.
    apply (alignment_not_mtpl i); auto.
  - intros c Hc. eapply generated_right_not_mtpl.
    apply build_constraints_generated. exact Hc.
  - split; [|exact Hquiet].
    eapply serialize_prices_get; try eassumption; try reflexivity;
      rewrite Hkeys; assumption.
Qed.

Lemma mtpl_price_is_never_changed_witness :
  dict_get
    [("limited_casco_basic_100", 550); ("mtpl", 500); ("casco_basic_100", 600)]
    "mtpl" = Some 500
  /\ ~ In "mtpl"
         (map changed_key
            [Adjusted "limited_casco_basic_100" 450 550
               "MTPL must be cheaper than Limited Casco" PRODUCT_MARGIN "mtpl" 500;
             Adjusted "casco_basic_100" 480 600
               "Casco must be more expensive than Limited Casco for the same variant and deductible"
               PRODUCT_MARGIN "limited_casco_basic_100" 550]).
Proof.
  apply (mtpl_price_is_never_changed
           [("limited_casco_basic_100", 450); ("mtpl", 500); ("casco_basic_100", 480)]).
  - repeat constructor; simpl; intuition discriminate.
  - vm_compute. reflexivity.
  - reflexivity.
Defined.

(** X13. A run raises nothing but a [ValueError] or an [OverflowError]:
    no [KeyError] and no [ZeroDivisionError] escapes, whatever the keys
    and the prices of the input. *)
Theorem run_raises_only_value_and_overflow_errors
  (raw_prices : dict string float) (e : exn) :
  validate_and_fix_prices raw_prices = Raise e -> value_or_overflow e = true.
Proof.
  unfold validate_and_fix_prices.
  destruct (parse_prices raw_prices) as [parsed|e0] eqn:Hparse; cbn [bind].
  2:{ intros [= <-]. apply parse_prices_raises_ValueError in Hparse.
      destruct e0; try discriminate; reflexivity. }
  destruct (parse_prices_keys _ _ Hparse) as [Hnd Hp].
  destruct (apply_deductible_structure parsed) as [[normalized change_log]|e1] eqn:Hnorm;
    cbn [bind].
  2:{ intros [= <-]. eapply normalisation_raises. exact Hnorm. }
  pose proof (apply_deductible_structure_aligns _ _ _ Hnorm) as [Hk1 _].
  cbn [fst] in Hk1.
  destruct (repair normalized ([] ++ change_log)) as [[final issues]|e2] eqn:Hrep;
    cbn [bind].
  2:{ intros [= <-]. eapply repair_raises; [|exact Hrep]. rewrite Hk1. exact Hp. }
  pose proof (repair_aligns _ _ _ Hrep) as [Hk2 _]. cbn [fst] in Hk2.
  rewrite serialize_prices_shape by (rewrite Hk2, Hk1; assumption).
  discriminate.
Qed.

Lemma run_raises_only_value_and_overflow_errors_witness :
  value_or_overflow (OverflowError "cannot convert float infinity to integer") = true.
Proof.
  apply (run_raises_only_value_and_overflow_errors
           [("mtpl", 500); ("casco_basic_100", infinity)]).
  vm_compute. reflexivity.
Defined.

(** X14. The messages of a run are those of normalisation followed by
    those of the repair pass, and each tells the truth: a normalisation
    message names a ladder key and its anchor, with as new price the
    anchor price times the discount on the grid, further than the
    tolerance from the old price; a repair message names the two keys, the
    wording and the margin of a rule generated for the table, a right
    price below the required one, and as new price the required one on the
    grid. *)
Theorem issues_are_alignments_then_adjustments
  (raw_prices fixed : dict string float) (parsed : price_table)
  (issues : list issue) :
  validate_and_fix_prices raw_prices = Ok (fixed, issues) ->
  parse_prices raw_prices = Ok parsed ->
  exists change_log adjustments,
    issues = change_log ++ adjustments
    /\ Forall alignment change_log
    /\ Forall (adjustment parsed) adjustments.
Proof.
  intros Hrun Hparse.
  apply validate_stages in Hrun
    as (parsed' & normalized & change_log & final & Hparse' & Hnorm & Hrep & Hser).
  rewrite Hparse in Hparse'. injection Hparse' as <-.
  pose proof (apply_deductible_structure_aligns _ _ _ Hnorm) as [Hk _].
  cbn [fst] in Hk.
  destruct (repair_log _ _ _ _ Hrep) as (adjustments & -> & Hadj).
  exists change_log, adjustments. split; [reflexivity|].
  split; [eapply normalisation_log; exact Hnorm|].
  eapply Forall_impl; [|exact Hadj].
  intros i (c & lp & rp & np & Hc & Hi). exists c, lp, rp, np.
  split; [|exact Hi]. eapply generated_keys; [|exact Hc]. symmetry. exact Hk.
Qed.

Lemma issues_are_alignments_then_adjustments_witness :
  exists change_log adjustments,
    [Aligned "limited_casco_basic_200" 700 720 "limited_casco_basic_100" 800;
     Adjusted "limited_casco_basic_100" 800 1100
       "MTPL must be cheaper than Limited Casco" PRODUCT_MARGIN "mtpl" 1000;
     Adjusted "limited_casco_basic_200" 720 1100
       "MTPL must be cheaper than Limited Casco" PRODUCT_MARGIN "mtpl" 1000]
    = change_log ++ adjustments
    /\ Forall alignment change_log
    /\ Forall
         (adjustment
            [(mtpl_key, 1000); (grid_key "limited_casco" "basic" 100, 800);
             (grid_key "limited_casco" "basic" 200, 700)])
         adjustments.
Proof.
  apply (issues_are_alignments_then_adjustments
           [("mtpl", 1000); ("limited_casco_basic_100", 800);
            ("limited_casco_basic_200", 700)]
           [("mtpl", 1000); ("limited_casco_basic_100", 1100);
            ("limited_casco_basic_200", 1100)]).
  - vm_compute. reflexivity.
  - reflexivity.
Defined.

(** X15. [price_key_rank] is defined on every key [from_str] returns, and
    on the keys it is defined on it orders by the product rank first, the
    variant rank next and the deductible rank last: the weights 100, 10
    and 1 keep the three ranks apart. *)
Theorem rank_is_product_then_variant_then_deductible (k1 k2 : PriceKey) :
  (producible k1 -> exists t, rank_parts k1 = Ok t)
  /\ forall t1 t2,
       rank_parts k1 = Ok t1 -> rank_parts k2 = Ok t2 ->
       exists r1 r2,
         price_key_rank k1 = Ok r1 /\ price_key_rank k2 = Ok r2
         /\ (r1 < r2 <-> lex_lt t1 t2)%Z.
Proof.
  split.
  - intros [raw Hraw].
    destruct (from_str_inv _ _ Hraw)
      as [[_ ->] | [(v & d & n & _ & _ & _ & ->) | (v & d & n & _ & _ & _ & ->)]];
      eexists; reflexivity.
  - intros t1 t2. unfold rank_parts, price_key_rank, dict_item.
    destruct (dict_get PRODUCT_RANK (product k1)) as [p1|] eqn:H1; [|discriminate].
    destruct (dict_get PRODUCT_RANK (product k2)) as [p2|] eqn:H2; [|discriminate].
    cbn [bind]. intros [= <-] [= <-]. do 2 eexists.
    split; [reflexivity|]. split; [reflexivity|].
    pose proof (variant_rank_bounds (variant k1)).
    pose proof (variant_rank_bounds (variant k2)).
    pose proof (deductible_rank_bounds (deductible k1)).
    pose proof (deductible_rank_bounds (deductible k2)).
    unfold lex_lt. lia.
Qed.

(** X16. [get_city_deductible_multiplier] returns for every city name and
    every deductible, and it returns 1.0 unless the city is one of the two
    in the table and the deductible is 200 or 500. *)
Theorem city_multiplier_falls_back_to_one (city_name : string) (deductible : Z) :
  (exists m, geo_pricing.get_city_deductible_multiplier city_name deductible = Ok m)
  /\ ((city_name <> "Beograd" /\ city_name <> "Novi Sad")
      \/ (deductible <> 200 /\ deductible <> 500)%Z ->
      geo_pricing.get_city_deductible_multiplier city_name deductible = Ok 1.0).
Proof. apply city_multiplier_cases. Qed.

(** X17. [compute_country_factors] with [alpha = 1], on a wage table with
    pairwise different countries: a [KeyError] when the reference country
    is not in the table, a [ZeroDivisionError] when its wage is zero, and
    otherwise a factor for every country of the table, in the order of
    the table, each the wage of the country divided by the reference
    wage. *)
Theorem country_factors_are_wage_ratios
  (float_pow : float -> float -> result float)
  (wages : dict string float) (reference_country : string) :
  (forall x, float_pow x 1.0 = Ok x) ->
  NoDup (dict_keys wages) ->
  match dict_get wages reference_country with
  | None =>
      geo_pricing.compute_country_factors float_pow wages reference_country 1.0
      = Raise (KeyError "key not found")
  | Some reference_wage =>
      if is_zero reference_wage then
        geo_pricing.compute_country_factors float_pow wages reference_country 1.0
        = Raise (ZeroDivisionError "float division by zero")
      else
        exists factors,
          geo_pricing.compute_country_factors float_pow wages reference_country 1.0
          = Ok factors
          /\ dict_keys factors = dict_keys wages
          /\ forall country wage,
               dict_get wages country = Some wage ->
               dict_get factors country = Some (wage / reference_wage)
  end.
Proof.
  intros PowOne Hnd. unfold geo_pricing.compute_country_factors, dict_item.
  destruct (dict_get wages reference_country) as [reference_wage|] eqn:Href;
    [|reflexivity].
  cbn [bind]. destruct (is_zero reference_wage) eqn:Hz.
  - destruct wages as [|[c w] l]; [discriminate|].
    cbn [for_each]. unfold pyfloat.div. rewrite Hz. reflexivity.
  - destruct (country_factors_loop float_pow PowOne reference_wage wages Hz Hnd [])
      as (factors & Hrun & _ & Hin).
    exists factors. split; [exact Hrun|]. split.
    + apply (build_keys (fun d : dict string float => d) fst (fun _ _ => True) _)
        in Hrun; [exact Hrun| |exact Hnd].
      intros s [c w] s'. destruct (pyfloat.div w reference_wage); [|discriminate].
      cbn [bind]. destruct (float_pow _ _); [|discriminate]. cbn [bind].
      intros [= <-]. eexists. split; [reflexivity | exact I].
    + intros country wage Hw. apply Hin, dict_get_In, Hw.
Qed.

Lemma country_factors_are_wage_ratios_witness :
  exists factors,
    geo_pricing.compute_country_factors (fun x _ => Ok x)
      geo_pricing.AVERAGE_NET_WAGE_EUR "HU" 1.0 = Ok factors
    /\ dict_keys factors = dict_keys geo_pricing.AVERAGE_NET_WAGE_EUR
    /\ forall country wage,
         dict_get geo_pricing.AVERAGE_NET_WAGE_EUR country = Some wage ->
         dict_get factors country = Some (wage / 1113).
Proof.
  apply (country_factors_are_wage_ratios (fun x _ => Ok x)
           geo_pricing.AVERAGE_NET_WAGE_EUR "HU").
  - reflexivity.
  - repeat constructor; simpl; intuition discriminate.
Defined.

(** X18. On a table with pairwise different keys, [adjust_prices_for_city]
    keeps the keys in their order, and under a key that is the
    serialisation of a structured key it stores the city price of that
    key: the price times the city factor, times the deductible multiplier
    of the city when the structured key has a deductible of 100, 200 or
    500, rounded to the 5 EUR grid.  The last piece of the serialised key
    is read as the deductible [from_str] reads. *)
Theorem city_adjustment_reads_the_key_deductible
  (country_prices adjusted : dict string float) (city_name : string)
  (city_factors : dict string float) (s : string) (key : PriceKey)
  (base_price : float) :
  NoDup (dict_keys country_prices) ->
  geo_pricing.adjust_prices_for_city country_prices city_name city_factors
  = Ok adjusted ->
  dict_get country_prices s = Some base_price ->
  from_str s = Ok key -> to_str key = Ok s ->
  dict_keys adjusted = dict_keys country_prices
  /\ exists new_price,
       city_price city_name city_factors key base_price = Ok new_price
       /\ dict_get adjusted s = Some new_price.
Proof.
  intros Hnd Hrun Hget Hfrom Hto. unfold geo_pricing.adjust_prices_for_city in Hrun.
  pose proof (adjust_city_body city_name city_factors) as Hbody.
  split.
  - apply (build_keys (fun d : dict string float => d) fst _ _ Hbody) in Hrun;
      [exact Hrun | exact Hnd].
  - apply (build_value (fun d : dict string float => d) fst _ _ Hbody
             country_prices [] adjusted (s, base_price) Hnd) in Hrun;
      [|apply dict_get_In; exact Hget].
    destruct Hrun as (v & Hv & Hentry). exists v. split; [|exact Hv].
    unfold city_entry in Hentry. cbn [fst snd] in Hentry.
    rewrite (key_deductible_spelling key s) in Hentry;
      [|exists s; exact Hfrom|exact Hto].
    cbn [bind] in Hentry. unfold city_price.
    destruct (city_deductible key) as [d|]; [|exact Hentry].
    destruct (geo_pricing.get_city_deductible_multiplier city_name d);
      [exact Hentry | discriminate].
Qed.

Lemma city_adjustment_reads_the_key_deductible_witness :
  dict_keys [("mtpl", 220); ("casco_basic_500", 340)]
  = dict_keys [("mtpl", 185); ("casco_basic_500", 300)]
  /\ exists new_price,
       city_price "Beograd" [("Beograd", 1.2)] (grid_key "casco" "basic" 500) 300
       = Ok new_price
       /\ dict_get [("mtpl", 220); ("casco_basic_500", 340)] "casco_basic_500"
          = Some new_price.
Proof.
  apply (city_adjustment_reads_the_key_deductible
           [("mtpl", 185); ("casco_basic_500", 300)]
           [("mtpl", 220); ("casco_basic_500", 340)]
           "Beograd" [("Beograd", 1.2)] "casco_basic_500").
  - repeat constructor; simpl; intuition discriminate.
  - vm_compute. reflexivity.
  - reflexivity.
  - reflexivity.
  - reflexivity.
Defined.

(** X19. The table a successful run returns has pairwise different keys,
    each in canonical spelling: the serialisation of the structured key
    [from_str] reads from it. *)
Theorem output_keys_are_canonical
  (raw_prices fixed : dict string float) (issues : list issue) :
  validate_and_fix_prices raw_prices = Ok (fixed, issues) ->
  NoDup (dict_keys fixed) /\ Forall canonical (dict_keys fixed).
Proof.
  intros Hrun.
  apply validate_stages in Hrun
    as (parsed & normalized & change_log & final & Hparse & Hnorm & Hrep & Hser).
  destruct (parse_prices_keys _ _ Hparse) as [Hnd Hp].
  destruct (run_aligns _ _ _ _ _ Hnorm Hrep) as (Hkeys & _). cbn [fst] in Hkeys.
  rewrite <- Hkeys in Hnd, Hp.
  rewrite serialize_prices_shape in Hser by assumption. injection Hser as <-.
  unfold dict_keys in *. rewrite map_map. cbn [fst].
  rewrite <- (map_map fst spelling). rewrite Forall_forall in Hp. split.
  - apply NoDup_map_on; [|exact Hnd]. intros x y Hx Hy Hxy.
    rewrite <- (reading_spelling x), <- (reading_spelling y) by auto.
    now rewrite Hxy.
  - apply Forall_forall. intros s Hs. apply in_map_iff in Hs as (k & <- & Hk).
    exists k. destruct (producible_spelling k (Hp k Hk)) as [Hto Hfrom]. auto.
Qed.

Lemma output_keys_are_canonical_witness :
  NoDup (dict_keys [("casco_basic_100", 500)])
  /\ Forall canonical (dict_keys [("casco_basic_100", 500)]).
Proof.
  apply (output_keys_are_canonical [("casco_basic_0100", 500)] _ []).
  vm_compute. reflexivity.
Defined.

(** X20. With accident data, a factor [compute_city_factors] returns lies
    between [min_factor] and [max_factor] when these are in order, also
    for a city whose rate is out of range or is not a number; the one
    exception is the neutral table it returns when no national totals are
    given and the cities have no usable data. *)
Theorem city_factors_are_clamped
  (city_populations city_accidents : dict string Z)
  (min_factor max_factor gamma : float)
  (national_total_population national_total_accidents : option Z)
  (factors : dict string float) :
  city_accidents <> [] ->
  (min_factor <=? max_factor) = true ->
  geo_pricing.compute_city_factors city_populations (Some city_accidents)
    min_factor max_factor gamma national_total_population national_total_accidents
  = Ok factors ->
  (forall city factor,
     dict_get factors city = Some factor -> clamped min_factor max_factor factor)
  \/ ((national_total_population = None \/ national_total_accidents = None)
      /\ factors = geo_pricing.neutral_factors city_populations).
Proof.
  intros Hacc Hb. destruct city_accidents as [|a acc]; [contradiction|].
  unfold geo_pricing.compute_city_factors.
  destruct (for_each _ city_populations _) as [[[rates tp] ta]|]; [|discriminate].
  cbn [bind].
  assert (Hloop : forall avg_rate,
             for_each (geo_pricing.city_factor min_factor max_factor gamma avg_rate)
               rates [] = Ok factors ->
             forall city factor,
               dict_get factors city = Some factor ->
               clamped min_factor max_factor factor).
  { intros avg_rate Hrun.
    apply (build_all (fun d : dict string float => d) fst _ _
             (city_factor_body min_factor max_factor gamma avg_rate)
             (clamped min_factor max_factor) rates [] factors); [| |exact Hrun].
    - intros x v _ [y ->]. apply clamp_bounds. exact Hb.
    - intros k v. discriminate. }
  destruct national_total_population as [population|],
           national_total_accidents as [accidents|];
    try (destruct ((tp =? 0)%Z || (ta =? 0)%Z);
         [intros [= <-]; right; auto|]);
    (destruct (pyfloat.truediv _ _) as [avg_rate|]; [|discriminate]);
    cbn [bind]; intros Hrun; left; eapply Hloop; exact Hrun.
Qed.

Lemma city_factors_are_clamped_witness :
  (forall city factor,
     dict_get [("Beograd", 1.1678020445831041); ("Novi Sad", 1.0440345752827216)]
       city = Some factor ->
     clamped 0.9 1.2 factor)
  \/ ((Some geo_pricing.SERBIA_POP_2022 = None
       \/ Some geo_pricing.SERBIA_ACCIDENTS_2020 = None)
      /\ [("Beograd", 1.1678020445831041); ("Novi Sad", 1.0440345752827216)]
         = geo_pricing.neutral_factors geo_pricing.CITY_POP_RS).
Proof.
  apply (city_factors_are_clamped geo_pricing.CITY_POP_RS
           geo_pricing.CITY_ACCIDENTS_RS_2020 0.9 1.2 0.2
           (Some geo_pricing.SERBIA_POP_2022)
           (Some geo_pricing.SERBIA_ACCIDENTS_2020)).
  - discriminate.
  - reflexivity.
  - vm_compute. reflexivity.
Defined.

(** X21. On a table of pairwise different cities, a successful
    [compute_city_factors] returns one factor for every city of the
    table, in the order of the table, with or without accident data. *)
Theorem every_city_gets_a_factor
  (city_populations : dict string Z) (city_accidents : option (dict string Z))
  (min_factor max_factor gamma : float)
  (national_total_population national_total_accidents : option Z)
  (factors : dict string float) :
  NoDup (dict_keys city_populations) ->
  geo_pricing.compute_city_factors city_populations city_accidents
    min_factor max_factor gamma national_total_population national_total_accidents
  = Ok factors ->
  dict_keys factors = dict_keys city_populations.
Proof.
  intros Hnd.
  assert (Hfallback :
            (pop_min <- pyfloat.min_int (map snd city_populations) ;;
             pop_max <- pyfloat.max_int (map snd city_populations) ;;
             let pop_range := (pop_max - pop_min)%Z in
             if (pop_range =? 0)%Z then
               Ok (geo_pricing.neutral_factors city_populations)
             else
               for_each
                 (fun factors kv =>
                    let '(city, pop) := kv in
                    fraction <- pyfloat.truediv (pop - pop_min)%Z pop_range ;;
                    let factor :=
                      min_factor + fraction * (max_factor - min_factor) in
                    Ok (dict_set factors city factor))
                 city_populations []) = Ok factors ->
            dict_keys factors = dict_keys city_populations).
  { destruct (pyfloat.min_int _) as [pop_min|]; [|discriminate]. cbn [bind].
    destruct (pyfloat.max_int _) as [pop_max|]; [|discriminate]. cbn [bind].
    cbv zeta. destruct (_ =? 0)%Z.
    - intros [= <-]. apply neutral_factors_keys. exact Hnd.
    - intros Hrun.
      apply (build_keys (fun d : dict string float => d) fst _ _
               (population_factor_body min_factor max_factor pop_min
                  (pop_max - pop_min))) in Hrun; [exact Hrun | exact Hnd]. }
  unfold geo_pricing.compute_city_factors.
  destruct city_accidents as [[|a acc]|]; try exact Hfallback.
  destruct (for_each _ city_populations _) as [[[rates tp] ta]|] eqn:Hrates;
    [|discriminate].
  cbn [bind].
  apply (build_keys (fun st : dict string float * Z * Z => fst (fst st)) fst _ _
           (city_rate_body (a :: acc))) in Hrates; [|exact Hnd].
  cbn [fst app dict_keys map] in Hrates. fold (dict_keys rates) in Hrates.
  fold (dict_keys city_populations) in Hrates.
  assert (Hloop : forall avg_rate,
             for_each (geo_pricing.city_factor min_factor max_factor gamma avg_rate)
               rates [] = Ok factors ->
             dict_keys factors = dict_keys city_populations).
  { intros avg_rate Hrun.
    apply (build_keys (fun d : dict string float => d) fst _ _
             (city_factor_body min_factor max_factor gamma avg_rate)) in Hrun.
    - rewrite Hrun. exact Hrates.
    - cbn [app dict_keys map]. fold (dict_keys rates). rewrite Hrates. exact Hnd. }
  destruct national_total_population as [population|],
           national_total_accidents as [accidents|];
    try (destruct ((tp =? 0)%Z || (ta =? 0)%Z);
         [intros [= <-]; apply neutral_factors_keys; exact Hnd|]);
    (destruct (pyfloat.truediv _ _) as [avg_rate|]; [|discriminate]);
    cbn [bind]; apply Hloop.
Qed.

Lemma every_city_gets_a_factor_witness :
  dict_keys [("Beograd", 1.2); ("Novi Sad", 0.9)] = dict_keys geo_pricing.CITY_POP_RS.
Proof.
  apply (every_city_gets_a_factor geo_pricing.CITY_POP_RS None 0.9 1.2 0.2 None None).
  - repeat constructor; simpl; intuition discriminate.
  - vm_compute. reflexivity.
Defined.

(** X22. The two price adjustments raise nothing but a [ValueError] or an
    [OverflowError] (a price or a factor that is not a finite number): a
    key of any shape, a city and a country of any name are taken. *)
Theorem geo_adjustments_raise_only_value_and_overflow_errors
  (prices : dict string float) (name : string) (factors : dict string float)
  (e : exn) :
  (geo_pricing.adjust_prices_for_country prices name factors = Raise e ->
   value_or_overflow e = true)
  /\ (geo_pricing.adjust_prices_for_city prices name factors = Raise e ->
      value_or_overflow e = true).
Proof.
  split.
  - unfold geo_pricing.adjust_prices_for_country.
    apply (for_each_raises (fun _ => True) (fun e => value_or_overflow e = true));
      [auto| |exact I].
    intros d [key price] e1 _ _.
    destruct (geo_pricing.round_to_step _ _) as [p|e2] eqn:Hr; cbn [bind];
      [discriminate|].
    intros [= <-]. eapply geo_round_to_step_raises. exact Hr.
  - unfold geo_pricing.adjust_prices_for_city.
    apply (for_each_raises (fun _ => True) (fun e => value_or_overflow e = true));
      [auto| |exact I].
    intros d [key price] e1 _ _.
    pose proof (city_entry_raises name factors (key, price)) as Hentry.
    unfold city_entry in Hentry. cbn [fst snd] in Hentry.
    destruct (geo_pricing.key_deductible key) as [deductible|e2]; cbn [bind] in *;
      [|intros [= <-]; apply Hentry; reflexivity].
    destruct (match deductible with Some _ => _ | None => _ end) as [p|e2];
      cbn [bind] in *; [|intros [= <-]; apply Hentry; reflexivity].
    destruct (geo_pricing.round_to_step p 5.0) as [p'|e2]; cbn [bind] in *;
      [discriminate | intros [= <-]; apply Hentry; reflexivity].
Qed.



(** X24. Every price the two geo adjustments return lies on the 5 EUR
    grid: it is an integer times 5.0. *)
Theorem geo_prices_are_on_the_grid
  (prices adjusted : dict string float) (name : string)
  (factors : dict string float) :
  (geo_pricing.adjust_prices_for_country prices name factors = Ok adjusted ->
   forall key price, dict_get adjusted key = Some price -> on_grid 5.0 price)
  /\ (geo_pricing.adjust_prices_for_city prices name factors = Ok adjusted ->
      forall key price, dict_get adjusted key = Some price -> on_grid 5.0 price).
Proof.
  split.
  - unfold geo_pricing.adjust_prices_for_country. intros Hrun.
    refine (build_all (fun d : dict string float => d) fst
              (fun _ v => on_grid 5.0 v) _ _ (on_grid 5.0) prices [] adjusted
              _ _ Hrun).
    + intros d [key price] d'.
      destruct (geo_pricing.round_to_step _ _) as [p|] eqn:Hr; [|discriminate].
      cbn [bind]. intros [= <-]. exists p. split; [reflexivity|].
      eapply geo_round_to_step_on_grid. exact Hr.
    + intros x v _ Hv. exact Hv.
    + discriminate.
  - unfold geo_pricing.adjust_prices_for_city. intros Hrun.
    refine (build_all (fun d : dict string float => d) fst _ _
              (adjust_city_body name factors) (on_grid 5.0) prices [] adjusted
              _ _ Hrun).
    + intros kv v _. unfold city_entry.
      destruct (geo_pricing.key_deductible _) as [deductible|]; [|discriminate].
      cbn [bind].
      destruct (match deductible with Some _ => _ | None => _ end) as [p|];
        [|discriminate].
      cbn [bind]. apply geo_round_to_step_on_grid.
    + discriminate.
Qed.

(** X25. Frame, on the raw table.  In a table with pairwise different
    keys, take a raw key that is the only one to parse to its structured
    key.  When normalisation does not rewrite that key (no alignment
    message is about it) and no generated constraint has it on its right,
    the output holds, under the serialisation of the key, the price the
    input has under the raw key, and no message reports it as changed;
    for a raw key in canonical spelling that is the raw key itself. *)
Theorem untouched_price_is_kept_between_distinct_keys
  (raw_prices fixed : dict string float) (parsed normalized : price_table)
  (change_log issues : list issue) (raw s : string) (key : PriceKey)
  (v : float) :
  NoDup (dict_keys raw_prices) ->
  (forall raw', In raw' (dict_keys raw_prices) -> from_str raw' = Ok key ->
                raw' = raw) ->
  parse_prices raw_prices = Ok parsed ->
  apply_deductible_structure parsed = Ok (normalized, change_log) ->
  validate_and_fix_prices raw_prices = Ok (fixed, issues) ->
  dict_get raw_prices raw = Some v ->
  from_str raw = Ok key ->
  to_str key = Ok s ->
  ~ In s (map changed_key change_log) ->
  (forall c, In c (build_constraints normalized) -> right c <> key) ->
  dict_get fixed s = Some v
  /\ ~ In s (map changed_key issues)
  /\ (canonical raw -> s = raw).
Proof.
  intros Hndr Honly Hparse Hnorm Hrun Hraw Hfrom Hs Hlog Hright.
  destruct (parse_prices_keys _ _ Hparse) as [Hnd Hp].
  assert (Hget : dict_get parsed key = Some v).
  { pose proof Hparse as Hfill. unfold parse_prices in Hfill.
    apply (fill_get from_str raw_prices [] parsed raw key v Hfill Hndr);
      [apply dict_get_In; exact Hraw | exact Hfrom | exact Honly]. }
  unfold validate_and_fix_prices in Hrun. rewrite Hparse in Hrun.
  cbn [bind] in Hrun. rewrite Hnorm in Hrun. cbn [bind] in Hrun.
  destruct (repair normalized ([] ++ change_log)) as [[final issues']|] eqn:Hrep;
    [|discriminate]. cbn [bind] in Hrun.
  destruct (serialize_prices final) as [fixed'|] eqn:Hser; [|discriminate].
  cbn [bind] in Hrun. injection Hrun as <- <-.
  destruct (run_frame _ _ _ _ _ _ _ _ Hnd Hp Hnorm Hrep Hget Hs Hlog Hright)
    as (Hkeys & Hfinal & Hquiet).
  split; [|split; [assumption|]].
  - eapply serialize_prices_get; eauto; rewrite Hkeys; assumption.
  - intros (key' & Hfrom' & Hto'). congruence.
Qed.

Lemma untouched_price_is_kept_between_distinct_keys_witness :
  dict_get
    [("limited_casco_compact_100", 820); ("limited_casco_basic_100", 800);
     ("limited_casco_comfort_100", 860); ("limited_casco_premium_100", 900)]
    "limited_casco_compact_100" = Some 820
  /\ ~ In "limited_casco_compact_100"%string
       (map changed_key
          [Adjusted "limited_casco_comfort_100" 790 860
             "Comfort must be more expensive than Compact for limited_casco with deductible 100"
             VARIANT_MARGIN "limited_casco_compact_100" 820;
           Adjusted "limited_casco_premium_100" 810 900
             "Premium must be more expensive than Comfort for limited_casco with deductible 100"
             VARIANT_MARGIN "limited_casco_comfort_100" 860])
  /\ (canonical "limited_casco_compact_100" ->
      "limited_casco_compact_100"%string = "limited_casco_compact_100"%string).
Proof.
  pose (compact := mkPriceKey "limited_casco" (Some "compact") (Some 100%Z)).
  pose (basic := mkPriceKey "limited_casco" (Some "basic") (Some 100%Z)).
  pose (comfort := mkPriceKey "limited_casco" (Some "comfort") (Some 100%Z)).
  pose (premium := mkPriceKey "limited_casco" (Some "premium") (Some 100%Z)).
  apply (untouched_price_is_kept_between_distinct_keys
           [("limited_casco_compact_100", 820); ("limited_casco_basic_100", 800);
            ("limited_casco_comfort_100", 790); ("limited_casco_premium_100", 810)]
           _
           [(compact, 820); (basic, 800); (comfort, 790); (premium, 810)]
           [(compact, 820); (basic, 800); (comfort, 790); (premium, 810)]
           []
           _ "limited_casco_compact_100" "limited_casco_compact_100" compact).
  - repeat constructor; simpl; intuition discriminate.
  - intros raw' Hin Hk. simpl in Hin.
    destruct Hin as [<-|[<-|[<-|[<-|[]]]]]; [reflexivity | | |]; discriminate.
  - reflexivity.
  - vm_compute. reflexivity.
  - vm_compute. reflexivity.
  - reflexivity.
  - reflexivity.
  - reflexivity.
  - simpl. tauto.
  - intros c Hc. vm_compute in Hc.
    destruct Hc as [<-|[<-|[<-|[]]]]; discriminate.
Defined.

End Further.
